(** * universal_rag: the incremental document indexing pipeline

    A shallow embedding of [backend/app/core/chunking.py],
    [backend/app/core/parser.py], [backend/app/core/vectordb.py],
    [backend/app/models/database.py] and
    [backend/app/services/indexer.py], with the properties the
    specification states about them.

    Conventions.  A Python [str] is a list of characters ([str] below), a
    character being a code point below 256; a Python [int] is a [Z];
    [bytes] are lists of [byte]; a [float] is a binary64.  Positions in a
    text are list indices.  A path is absolute and resolved, so
    [Path(p).expanduser().resolve()] is [p].  Logging is left out. *)

From Stdlib Require Import Strings.String Strings.Ascii Strings.Byte List ZArith Lia Bool.
From Stdlib Require Import PrimFloat Uint63 DecimalString.
From Stdlib Require Import Sorting.Sorted Sorting.Permutation.
From Stdlib Require DecimalZ DecimalPos.
Import ListNotations.
Open Scope Z_scope.

(* A decimal literal stands for the nearest double, as in Python. *)
Set Warnings "-inexact-float".

(** ** Python strings *)

Definition str := list ascii.

Definition lit (s : string) : str := list_ascii_of_string s.

Definition code (c : ascii) : N := N_of_ascii c.

(** [str.isspace] on the code points below 256. *)
Definition is_space (c : ascii) : bool :=
  let n := code c in
  ((9 <=? n) && (n <=? 13) || (28 <=? n) && (n <=? 32)
   || (n =? 133) || (n =? 160))%N.

(** The class [\w] of [re] on a [str] pattern: alphanumeric code points
    ([str.isalnum]) and the underscore, below 256. *)
Definition is_word (c : ascii) : bool :=
  let n := code c in
  ((48 <=? n) && (n <=? 57) || (65 <=? n) && (n <=? 90)
   || (97 <=? n) && (n <=? 122) || (n =? 95)
   || (n =? 170) || (n =? 178) || (n =? 179) || (n =? 181)
   || (n =? 185) || (n =? 186) || (188 <=? n) && (n <=? 190)
   || (192 <=? n) && (n <=? 214) || (216 <=? n) && (n <=? 246)
   || (248 <=? n) && (n <=? 255))%N.

Fixpoint dropwhile (p : ascii -> bool) (l : str) : str :=
  match l with
  | c :: r => if p c then dropwhile p r else l
  | [] => []
  end.

(** [str.strip()] *)
Definition strip (l : str) : str :=
  rev (dropwhile is_space (rev (dropwhile is_space l))).

(** [sep.join(parts)] *)
Fixpoint join (sep : str) (parts : list str) : str :=
  match parts with
  | [] => []
  | [p] => p
  | p :: ps => p ++ sep ++ join sep ps
  end.

(** [len(x)] as a Python int *)
Definition len {A} (l : list A) : Z := Z.of_nat (length l).

Definition is_empty {A} (l : list A) : bool :=
  match l with [] => true | _ :: _ => false end.

Fixpoint str_eqb (a b : str) : bool :=
  match a, b with
  | [], [] => true
  | x :: a', y :: b' => Ascii.eqb x y && str_eqb a' b'
  | _, _ => false
  end.

(** [str(n)] for an int *)
Definition str_of_Z (z : Z) : str := lit (NilZero.string_of_int (Z.to_int z)).

(** [float(n)] for a small non-negative int *)
Definition float_of_Z (z : Z) : float := PrimFloat.of_uint63 (Uint63.of_Z z).

Fixpoint takewhile (p : ascii -> bool) (l : str) : str :=
  match l with
  | c :: r => if p c then c :: takewhile p r else []
  | [] => []
  end.

(** [str.lower()] on the code points below 256. *)
Definition lower_char (c : ascii) : ascii :=
  let n := code c in
  if ((65 <=? n) && (n <=? 90)
      || (192 <=? n) && (n <=? 222) && negb (n =? 215))%N
  then ascii_of_N (n + 32) else c.

Definition lower (s : str) : str := map lower_char s.

(** [text[start:stop]] for [0 <= start <= stop] *)
Definition slice {A} (l : list A) (start stop : Z) : list A :=
  firstn (Z.to_nat (stop - start)) (skipn (Z.to_nat start) l).

(** ** chunking.py *)

Module Chunking.

(** The dictionaries built by [_split_into_sentences]. *)
Record Sentence := mkSentence {
  s_text : str;
  s_start : Z;
  s_end : Z;
  s_tokens : Z
}.

Record ChunkMetadata := mkChunk {
  text : str;
  index : Z;
  start_char : Z;
  end_char : Z;
  token_count : Z
}.

(** *** The sentence pattern [[^.!?]+(?:[.!?]+|$)] *)

Definition is_terminator (c : ascii) : bool :=
  (code c =? 46)%N || (code c =? 33)%N || (code c =? 63)%N.

(** Longest prefix whose characters satisfy [p], and what follows it: a
    greedy [+] over a character class. *)
Fixpoint span (p : ascii -> bool) (l : str) : str * str :=
  match l with
  | c :: r =>
      if p c then let (a, b) := span p r in (c :: a, b) else ([], l)
  | [] => ([], [])
  end.

(** One attempt of the pattern at the head of [l]: the matched text and the
    rest.  [[^.!?]+] takes the longest run of non-terminators (a negated
    class also takes newlines); after it comes either a terminator, and
    [[.!?]+] takes the longest run of them, or the end of the text, where
    [$] succeeds.  The continuation never fails after the longest run, so
    the engine never backtracks into it. *)
Definition match_here (l : str) : option (str * str) :=
  let (body, r1) := span (fun c => negb (is_terminator c)) l in
  match body with
  | [] => None
  | _ :: _ =>
      let (terms, r2) := span is_terminator r1 in
      match terms, r1 with
      | _ :: _, _ => Some (body ++ terms, r2)
      | [], [] => Some (body, [])
      | [], _ :: _ => None
      end
  end.

Record Match := mkMatch {
  m_group : str;
  m_start : nat;
  m_end : nat
}.

(** [sentence_pattern.finditer(text)]: search at [pos]; after a match go on
    from its end, after a failure from the next position.  [None] is out of
    fuel. *)
Fixpoint finditer_fuel (fuel : nat) (pos : nat) (l : str)
  : option (list Match) :=
  match l with
  | [] => Some []
  | _ :: r =>
      match fuel with
      | O => None
      | S f =>
          match match_here l with
          | Some (m, rest) =>
              let e := (pos + length m)%nat in
              match finditer_fuel f e rest with
              | Some ms => Some (mkMatch m pos e :: ms)
              | None => None
              end
          | None => finditer_fuel f (S pos) r
          end
      end
  end.

Definition finditer (text : str) : list Match :=
  match finditer_fuel (length text) 0 text with
  | Some ms => ms
  | None => []
  end.

(** [len(re.findall(r"\w+", text))]: the number of maximal runs of word
    characters; [inword] tells whether the previous character was one. *)
Fixpoint count_words (inword : bool) (l : str) : nat :=
  match l with
  | [] => O
  | c :: r =>
      if is_word c
      then ((if inword then 0 else 1) + count_words true r)%nat
      else count_words false r
  end.

(** [max(1, int(math.ceil(len(words) * 1.3)))].  The product is a double;
    for a word count [n] below 2^50 the double nearest to [n * 1.3] has the
    ceiling of the rational 13n/10 (it is that integer itself when 10
    divides [n]), which is what is computed here. *)
Definition _estimate_tokens (t : str) : Z :=
  let words := Z.of_nat (count_words false t) in
  Z.max 1 ((13 * words + 9) / 10).

Definition sentence_of_match (m : Match) : option Sentence :=
  let sentence_text := strip (m_group m) in
  match sentence_text with
  | [] => None
  | _ :: _ =>
      Some (mkSentence sentence_text (Z.of_nat (m_start m))
              (Z.of_nat (m_end m)) (_estimate_tokens sentence_text))
  end.

Fixpoint collect_sentences (ms : list Match) : list Sentence :=
  match ms with
  | [] => []
  | m :: ms' =>
      match sentence_of_match m with
      | Some s => s :: collect_sentences ms'
      | None => collect_sentences ms'
      end
  end.

Definition _split_into_sentences (t : str) : list Sentence :=
  let sentences := collect_sentences (finditer t) in
  match sentences with
  | [] => [mkSentence (strip t) 0 (len t) (_estimate_tokens t)]
  | _ :: _ => sentences
  end.

(** The loop of [_apply_overlap] over [reversed(sentences)]. *)
Fixpoint overlap_loop (rs : list Sentence) (overlap_sentences : list Sentence)
  (tokens : Z) (overlap : Z) : list Sentence * Z :=
  match rs with
  | [] => (overlap_sentences, tokens)
  | sentence :: rs' =>
      let overlap_sentences' := sentence :: overlap_sentences in
      let tokens' := tokens + s_tokens sentence in
      if tokens' >=? overlap
      then (overlap_sentences', tokens')
      else overlap_loop rs' overlap_sentences' tokens' overlap
  end.

Definition _apply_overlap (sentences : list Sentence) (overlap : Z)
  : list Sentence * Z :=
  overlap_loop (rev sentences) [] 0 overlap.

Definition sum_tokens (sentences : list Sentence) : Z :=
  fold_left (fun acc s => acc + s_tokens s) sentences 0.

(** [sentences[0]] and [sentences[-1]] raise on an empty list; both callers
    test [current] first, and the value 0 stands for that unreachable
    case. *)
Definition _finalize_chunk (sentences : list Sentence) (index : Z)
  : ChunkMetadata :=
  mkChunk (strip (join (lit " ") (map s_text sentences)))
    index
    (match sentences with s :: _ => s_start s | [] => 0 end)
    (match rev sentences with s :: _ => s_end s | [] => 0 end)
    (sum_tokens sentences).

(** The state of the loop of [chunk]. *)
Record LoopState := mkLoop {
  chunks : list ChunkMetadata;
  current : list Sentence;
  current_tokens : Z
}.

Definition chunk_step (chunk_size overlap : Z) (st : LoopState)
  (sentence : Sentence) : LoopState :=
  let sent_tokens := s_tokens sentence in
  let st1 :=
    if negb (is_empty (current st))
       && (current_tokens st + sent_tokens >? chunk_size)
    then
      let (cur, toks) := _apply_overlap (current st) overlap in
      mkLoop (chunks st ++ [_finalize_chunk (current st) (len (chunks st))])
        cur toks
    else st in
  mkLoop (chunks st1) (current st1 ++ [sentence])
    (current_tokens st1 + sent_tokens).

Definition chunk_flush (st : LoopState) : list ChunkMetadata :=
  if negb (is_empty (current st))
  then chunks st ++ [_finalize_chunk (current st) (len (chunks st))]
  else chunks st.

Definition chunk (t : str) (chunk_size overlap : Z) : list ChunkMetadata :=
  match t with
  | [] => []
  | _ :: _ =>
      chunk_flush
        (fold_left (chunk_step chunk_size overlap)
           (_split_into_sentences t) (mkLoop [] [] 0))
  end.

Definition default_chunk_size : Z := 512.
Definition default_overlap : Z := 50.

End Chunking.


(** ** Paths *)

Definition not_char (d c : ascii) : bool := negb (Ascii.eqb c d).

(** [Path.name]: what follows the last slash. *)
Definition path_name (p : str) : str :=
  rev (takewhile (not_char "/") (rev p)).

(** [Path.parent], for a path below a directory. *)
Definition path_parent (p : str) : str :=
  rev (tl (dropwhile (not_char "/") (rev p))).

(** [a / b] *)
Definition path_join (a b : str) : str := a ++ lit "/" ++ b.

(** [Path.suffix]: with [i = name.rfind('.')], the text [name[i:]] when
    [0 < i < len(name) - 1], and the empty string otherwise. *)
Definition path_suffix (p : str) : str :=
  let r := rev (path_name p) in
  let ext := takewhile (not_char ".") r in
  match dropwhile (not_char ".") r with
  | dot :: before =>
      if negb (is_empty before) && negb (is_empty ext)
      then dot :: rev ext else []
  | [] => []
  end.

(** Order of the code points, the order of [sorted] on the paths of one
    directory. *)
Fixpoint str_leb (a b : str) : bool :=
  match a, b with
  | [], _ => true
  | _ :: _, [] => false
  | x :: a', y :: b' =>
      if (code x <? code y)%N then true
      else if (code y <? code x)%N then false
      else str_leb a' b'
  end.

Fixpoint insert_sorted (p : str) (l : list str) : list str :=
  match l with
  | [] => [p]
  | q :: l' => if str_leb p q then p :: l else q :: insert_sorted p l'
  end.

(** [sorted(paths)] *)
Definition sorted (l : list str) : list str :=
  fold_right insert_sorted [] l.

(** ** Exceptions *)

Inductive exn_class :=
| FileNotFoundError
| ValueError
| RuntimeError
| AttributeError
| OSError
| OtherError.

(** An exception object: the class a handler sees, and [str(exc)]. *)
Record exn := mkExn { e_class : exn_class; e_msg : str }.

Inductive result (A : Type) :=
| Ok (a : A)
| Raise (e : exn).
Arguments Ok {A} a.
Arguments Raise {A} e.

(** ** models/database.py *)

Module Database.

Record Document := mkDocument {
  id : Z;
  filename : str;
  path : str;
  base_name : str;
  total_pages : option Z;
  file_hash : str;
  indexed_at : Z
}.

Record Page := mkPage {
  page_id : Z;
  document_id : Z;
  page_num : Z;
  content : str;
  char_count : Z
}.

(** The tables [documents] and [pages] of one base's [cache.db], rows in
    insertion order. *)
Record DB := mkDB {
  documents : list Document;
  pages : list Page
}.

Definition empty_db : DB := mkDB [] [].

(** The id SQLite gives the next inserted row: one more than the largest. *)
Definition next_id (ids : list Z) : Z := 1 + fold_right Z.max 0 ids.

(** What a session holds until [commit]. *)
Inductive write :=
| AddDocument (d : Document)
| DeletePages (doc_id : Z)
| AddPage (doc_id : Z) (num : Z) (text : str) (chars : Z).

Definition has_id (i : Z) (d : Document) : bool := id d =? i.

(** [session.add(document)] at flush: an UPDATE of the rows with the
    primary key of [d], an INSERT when there is none. *)
Definition save_document (d : Document) (rows : list Document)
  : list Document :=
  if existsb (has_id (id d)) rows
  then map (fun r => if has_id (id d) r then d else r) rows
  else rows ++ [d].

Definition apply_write (db : DB) (w : write) : DB :=
  match w with
  | AddDocument d => mkDB (save_document d (documents db)) (pages db)
  | DeletePages i =>
      mkDB (documents db)
        (filter (fun p => negb (document_id p =? i)) (pages db))
  | AddPage i n t c =>
      mkDB (documents db)
        (pages db ++ [mkPage (next_id (map page_id (pages db))) i n t c])
  end.

Definition Session := list write.

Definition flush (db : DB) (session : Session) : DB :=
  fold_left apply_write session db.

(** [select(Document).where(Document.path == p)] then [.first()] *)
Definition first_by_path (p : str) (rows : list Document) : option Document :=
  find (fun d => str_eqb (path d) p) rows.

Definition pages_of (db : DB) (i : Z) : list Page :=
  filter (fun p => document_id p =? i) (pages db).

End Database.

(** ** The records of the vector store

    The client is the qdrant_client package, outside the repository.  Its
    operations follow the contract of the specification's external
    interfaces: an upsert by point id of the points the client takes, a
    deletion by point id, a lookup by id, and an error for a collection
    that does not exist.  Which points the client takes is left to
    [upsert_fault] below. *)

Module Vectors.

(** The metadata dictionary [_chunk_pages] builds for a chunk. *)
Record Metadata := mkMetadata {
  md_id : str;
  md_document_id : Z;
  md_document_path : str;
  md_filename : str;
  md_page_num : Z;
  md_chunk_index : Z;
  md_page_chunk_index : Z;
  md_start_char : Z;
  md_end_char : Z;
  md_token_count : Z
}.

(** [PointStruct]: the payload is [{"text": chunk}] updated with the
    metadata, when there is one. *)
Record Point := mkPoint {
  p_id : str;
  p_vector : list float;
  p_text : str;
  p_meta : option Metadata
}.

(** What a collection gives back for an id: the id and the payload.  The
    vector is not part of it: the lookup leaves vectors out, and a
    collection of distance [Cosine] keeps a vector normalised, not as it
    was given. *)
Record Stored := mkStored {
  r_id : str;
  r_text : str;
  r_meta : option Metadata
}.

Definition stored_of (p : Point) : Stored :=
  mkStored (p_id p) (p_text p) (p_meta p).

(** A collection: its records, one per id. *)
Definition Collection := list Stored.

Fixpoint upsert_point (p : Stored) (c : Collection) : Collection :=
  match c with
  | [] => [p]
  | q :: c' =>
      if str_eqb (r_id q) (r_id p) then p :: c'
      else q :: upsert_point p c'
  end.

(** The points a call of [client.upsert] takes are written by id. *)
Definition upsert (points : list Point) (c : Collection) : Collection :=
  fold_left (fun acc p => upsert_point (stored_of p) acc) points c.

(** [client.delete(points_selector=PointIdsList(points=ids))] *)
Definition delete_ids (ids : list str) (c : Collection) : Collection :=
  filter (fun q => negb (existsb (str_eqb (r_id q)) ids)) c.

(** [client.retrieve(ids=[i])]: the by-id lookup. *)
Definition retrieve (i : str) (c : Collection) : option Stored :=
  find (fun q => str_eqb (r_id q) i) c.

End Vectors.

(** ** The world the pipeline runs in *)

Inductive node :=
| File (content : list byte)
| Dir.

(** The files by absolute path, in directory order. *)
Definition filesystem := list (str * node).

Fixpoint fs_lookup (fs : filesystem) (p : str) : option node :=
  match fs with
  | [] => None
  | (q, n) :: fs' => if str_eqb q p then Some n else fs_lookup fs' p
  end.

(** Calls to the collaborators, in the order they are made. *)
Inductive call :=
| CParse (path : str)
| CChunk (content : str)
| CEmbed (texts : list str)
| CCommit (base : str) (db : Database.DB)
| CDelete (base : str) (ids : list str)
| CUpsert (base : str) (ids : list str)
| CCreateCollection (base : str).

Record World := mkWorld {
  fs : filesystem;
  dbs : str -> Database.DB;
  collections : str -> option Vectors.Collection;
  last_file_hash : option str;
  clock : Z;
  uuids : nat;
  progress : list (str * option float);
  calls : list call
}.

(** What the pipeline takes from outside the repository.

    [upsert_fault points] is how [client.upsert] fails on the points it is
    given, in a collection made by [create_collection]: [None] when the
    client takes them all, [Some (k, e)] when it raises [e] after taking
    the first [k] of them.  The Qdrant client raises [ValueError] on an
    empty list of points, at a point whose id is neither an unsigned
    integer nor a UUID, and at a vector that has not the 384 floats of the
    collection. *)
Record Externals := mkExternals {
  Digest : Type;
  sha256 : Digest;
  update : Digest -> list byte -> Digest;
  hexdigest : Digest -> str;
  utf8_ignore : list byte -> str;
  PdfReader : list byte -> result (list (result (option str)));
  model_embed : list str -> result (list (list float));
  uuid4 : nat -> str;
  upsert_fault : list Vectors.Point -> option (nat * exn)
}.

(** State and exceptions: the world is kept when an exception is raised. *)
Definition M (A : Type) : Type := World -> result A * World.

Definition ret {A} (a : A) : M A := fun w => (Ok a, w).

Definition bind {A B} (m : M A) (k : A -> M B) : M B :=
  fun w =>
    match m w with
    | (Ok a, w') => k a w'
    | (Raise e, w') => (Raise e, w')
    end.

Definition raise {A} (e : exn) : M A := fun w => (Raise e, w).

Definition try_except {A} (m : M A) (handler : exn -> M A) : M A :=
  fun w =>
    match m w with
    | (Ok a, w') => (Ok a, w')
    | (Raise e, w') => handler e w'
    end.

Declare Scope py_scope.
Delimit Scope py_scope with py.
Notation "x <- m ;; k" := (bind m (fun x => k))
  (at level 61, m at next level, right associativity) : py_scope.
Notation "m ;; k" := (bind m (fun _ => k))
  (at level 61, right associativity) : py_scope.
Open Scope py_scope.

Definition get {A} (f : World -> A) : M A := fun w => (Ok (f w), w).

Definition modify (f : World -> World) : M unit := fun w => (Ok tt, f w).

Definition set_dbs (v : str -> Database.DB) (w : World) : World :=
  mkWorld (fs w) v (collections w) (last_file_hash w) (clock w) (uuids w)
    (progress w) (calls w).

Definition set_collections (v : str -> option Vectors.Collection)
  (w : World) : World :=
  mkWorld (fs w) (dbs w) v (last_file_hash w) (clock w) (uuids w)
    (progress w) (calls w).

Definition set_last_file_hash (v : option str) (w : World) : World :=
  mkWorld (fs w) (dbs w) (collections w) v (clock w) (uuids w)
    (progress w) (calls w).

Definition set_clock (v : Z) (w : World) : World :=
  mkWorld (fs w) (dbs w) (collections w) (last_file_hash w) v (uuids w)
    (progress w) (calls w).

Definition set_uuids (v : nat) (w : World) : World :=
  mkWorld (fs w) (dbs w) (collections w) (last_file_hash w) (clock w) v
    (progress w) (calls w).

Definition set_progress (v : list (str * option float)) (w : World) : World :=
  mkWorld (fs w) (dbs w) (collections w) (last_file_hash w) (clock w)
    (uuids w) v (calls w).

Definition set_calls (v : list call) (w : World) : World :=
  mkWorld (fs w) (dbs w) (collections w) (last_file_hash w) (clock w)
    (uuids w) (progress w) v.

Definition record_call (cs : list call) : M unit :=
  modify (fun w => set_calls (calls w ++ cs) w).

(** A map from base names, updated at one name. *)
Definition at_base {A} (f : str -> A) (b : str) (v : A) : str -> A :=
  fun b' => if str_eqb b' b then v else f b'.

(** [dt.datetime.utcnow()] *)
Definition utcnow : M Z :=
  fun w => (Ok (clock w), set_clock (clock w + 1) w).

(** [session.commit()]: the pending writes reach the database of the
    base, and the committed state is there for every other reader. *)
Definition commit (base : str) (session : Database.Session) : M unit :=
  fun w =>
    let db := Database.flush (dbs w base) session in
    (Ok tt,
     set_calls (calls w ++ [CCommit base db])
       (set_dbs (at_base (dbs w) base db) w)).

(** ** core/vectordb.py and core/embeddings.py *)

(** What the indexer asks of its vector service.  An option is an
    attribute the service may lack: [get_collection] stands for
    [_get_client(base).get_collection(base)], looked up with [getattr], and
    [delete_document_chunks] is called inside a handler of
    [AttributeError]. *)
Record VectorService := mkVectorService {
  get_collection : option (str -> M unit);
  create_collection : str -> M unit;
  add_documents :
    str -> list str -> list (list float) -> list (option Vectors.Metadata)
    -> M (list str);
  delete_document_chunks : option (str -> str -> M unit)
}.

Module VectorDB.
Section WithExternals.
Variable ext : Externals.

Definition client_get_collection (base_name : str) : M unit :=
  c <- get (fun w => collections w base_name);;
  match c with
  | Some _ => ret tt
  | None =>
      raise (mkExn ValueError (lit "Collection " ++ base_name
                               ++ lit " not found"))
  end.

(** [client.recreate_collection]: an empty collection under that name. *)
Definition create_collection (base_name : str) : M unit :=
  modify (fun w =>
            set_calls (calls w ++ [CCreateCollection base_name])
              (set_collections (at_base (collections w) base_name (Some []))
                 w)).

(** The loop of [add_documents] over [zip(chunks, embeddings, metadata)];
    [n] counts the ids drawn from [uuid4]. *)
Fixpoint build_points (n : nat) (chunks : list str)
  (embeddings : list (list float)) (metadata : list (option Vectors.Metadata))
  : list Vectors.Point * nat :=
  match chunks, embeddings, metadata with
  | chunk :: chunks', embedding :: embeddings', meta :: metadata' =>
      let given :=
        match meta with Some m => Vectors.md_id m | None => [] end in
      let (document_id, n') :=
        if is_empty given then (uuid4 ext n, S n) else (given, n) in
      let (points, n'') := build_points n' chunks' embeddings' metadata' in
      (Vectors.mkPoint document_id embedding chunk meta :: points, n'')
  | _, _, _ => ([], n)
  end.

(** [client.upsert(collection_name=base_name, points=points)]: an error
    for a collection that does not exist; otherwise the points the client
    takes are written, and the client's own error, if any, is raised. *)
Definition client_upsert (base_name : str) (points : list Vectors.Point)
  : M unit :=
  record_call [CUpsert base_name (map Vectors.p_id points)];;
  c <- get (fun w => collections w base_name);;
  match c with
  | None =>
      raise (mkExn ValueError (lit "Collection " ++ base_name
                               ++ lit " not found"))
  | Some coll =>
      match upsert_fault ext points with
      | None =>
          modify (fun w =>
                    set_collections
                      (at_base (collections w) base_name
                         (Some (Vectors.upsert points coll))) w)
      | Some (taken, e) =>
          modify (fun w =>
                    set_collections
                      (at_base (collections w) base_name
                         (Some (Vectors.upsert (firstn taken points) coll)))
                      w);;
          raise e
      end
  end.

Definition add_documents (base_name : str) (chunks : list str)
  (embeddings : list (list float)) (metadata : list (option Vectors.Metadata))
  : M (list str) :=
  if negb ((len chunks =? len embeddings) && (len embeddings =? len metadata))
  then raise (mkExn ValueError
                (lit "chunks, embeddings, and metadata must be the same length"))
  else
    n <- get uuids;;
    let (points, n') := build_points n chunks embeddings metadata in
    modify (set_uuids n');;
    let document_ids := map Vectors.p_id points in
    client_upsert base_name points;;
    ret document_ids.

(** [delete_document]: one point, by its id. *)
Definition delete_document (document_id : str) (base_name : str)
  : M unit :=
  c <- get (fun w => collections w base_name);;
  match c with
  | None =>
      raise (mkExn ValueError (lit "Collection " ++ base_name
                               ++ lit " not found"))
  | Some coll =>
      modify (fun w =>
                set_calls (calls w ++ [CDelete base_name [document_id]])
                  (set_collections
                     (at_base (collections w) base_name
                        (Some (Vectors.delete_ids [document_id] coll))) w))
  end.

(** The class [QdrantService]: it has [_get_client], [create_collection],
    [add_documents], [search] and [delete_document], and no
    [delete_document_chunks]. *)
Definition QdrantService : VectorService :=
  mkVectorService (Some client_get_collection) create_collection
    add_documents None.

End WithExternals.
End VectorDB.

Module Embeddings.
Section WithExternals.
Variable ext : Externals.

(** [EmbeddingService.embed_texts]; the model is the one of fastembed. *)
Definition embed_texts (texts : list str) : M (list (list float)) :=
  record_call [CEmbed texts];;
  if is_empty texts then ret []
  else
    match model_embed ext texts with
    | Ok embeddings => ret embeddings
    | Raise e => raise e
    end.

End WithExternals.
End Embeddings.

(** ** core/parser.py *)

Module Parser.
Section WithExternals.
Variable ext : Externals.

(** [file_handle.read(n)]: the block and the rest of the file. *)
Definition read (handle : list byte) (n : Z) : list byte * list byte :=
  if n <? 0 then (handle, [])
  else (firstn (Z.to_nat n) handle, skipn (Z.to_nat n) handle).

(** [for chunk in iter(lambda: file_handle.read(chunk_size), b""):
    digest.update(chunk)]; [None] is out of fuel. *)
Fixpoint hash_loop (fuel : nat) (digest : Digest ext) (handle : list byte)
  (chunk_size : Z) : option (Digest ext) :=
  match fuel with
  | O => None
  | S f =>
      let (chunk, handle') := read handle chunk_size in
      match chunk with
      | [] => Some digest
      | _ :: _ => hash_loop f (update ext digest chunk) handle' chunk_size
      end
  end.

Definition hash_bytes (content : list byte) (chunk_size : Z) : str :=
  match hash_loop (S (length content)) (sha256 ext) content chunk_size with
  | Some digest => hexdigest ext digest
  | None => []
  end.

(** [path.open("rb")] *)
Definition open_rb (path : str) : M (list byte) :=
  n <- get (fun w => fs_lookup (fs w) path);;
  match n with
  | Some (File content) => ret content
  | Some Dir => raise (mkExn OSError (lit "Is a directory: " ++ path))
  | None =>
      raise (mkExn FileNotFoundError
               (lit "No such file or directory: " ++ path))
  end.

Definition _compute_hash (path : str) (chunk_size : Z) : M str :=
  content <- open_rb path;;
  ret (hash_bytes content chunk_size).

(** [text = page.extract_text() or ""], with its handler. *)
Definition page_text (r : result (option str)) : str :=
  match r with
  | Ok (Some t) => t
  | Ok None => []
  | Raise _ => []
  end.

Definition _parse_pdf (path : str) : M (list str) :=
  content <- open_rb path;;
  match PdfReader ext content with
  | Raise e => raise e
  | Ok reader_pages => ret (map (fun r => strip (page_text r)) reader_pages)
  end.

(** [range(0, stop, step)] for a positive step *)
Definition py_range (stop step : Z) : list Z :=
  map (fun k => Z.of_nat k * step)
    (seq 0 (Z.to_nat ((stop + step - 1) / step))).

Definition _split_text (t : str) (page_size : Z) : list str :=
  map (fun start => strip (slice t start (start + page_size)))
    (py_range (len t) page_size).

Definition _parse_text_file (path : str) : M (list str) :=
  bytes <- open_rb path;;
  let content := utf8_ignore ext bytes in
  if is_empty content then ret [] else ret (_split_text content 3000).

Definition parse (file_path : str) : M (list str) :=
  record_call [CParse file_path];;
  let path := file_path in
  n <- get (fun w => fs_lookup (fs w) path);;
  match n with
  | None => raise (mkExn FileNotFoundError (lit "File not found: " ++ path))
  | Some _ =>
      file_hash <- _compute_hash path 8192;;
      pages <-
        try_except
          (let suffix := lower (path_suffix path) in
           if str_eqb suffix (lit ".pdf") then _parse_pdf path
           else if str_eqb suffix (lit ".txt") || str_eqb suffix (lit ".md")
           then _parse_text_file path
           else raise (mkExn ValueError
                         (lit "Unsupported file type: " ++ suffix)))
          (fun exc =>
             match e_class exc with
             | FileNotFoundError | ValueError => raise exc
             | _ =>
                 raise (mkExn RuntimeError
                          (lit "Failed to parse file " ++ path))
             end);;
      modify (set_last_file_hash (Some file_hash));;
      ret pages
  end.

End WithExternals.
End Parser.

(** ** services/indexer.py *)

(** A progress callback sees a message and a fraction, and can do nothing to
    the stores: it is the list of entries it adds to the progress log. *)
Definition ProgressCallback : Type :=
  str -> option float -> list (str * option float).

(** The callback that writes down what it is told. *)
Definition recorder : ProgressCallback := fun message p => [(message, p)].

Module Indexer.
Import Database.
Section WithExternals.
Variable ext : Externals.

(** The fields of a [DocumentIndexer] that are not fixed by the
    constructor's defaults. *)
Record DocumentIndexer := mkIndexer {
  vectordb : VectorService;
  base_data_dir : str;
  progress_callback : option ProgressCallback
}.

Definition supported_extensions : list str :=
  [lit ".pdf"; lit ".txt"; lit ".md"].

(** [a or b] on optional callbacks *)
Definition or_else {A} (a b : option A) : option A :=
  match a with Some _ => a | None => b end.

Definition emitted (callback : option ProgressCallback) (message : str)
  (p : option float) : list (str * option float) :=
  match callback with
  | Some cb => cb message p
  | None => []
  end.

Definition _progress_emitter (callback : option ProgressCallback)
  (message : str) (p : option float) : M unit :=
  modify (fun w => set_progress (progress w ++ emitted callback message p) w).

Definition read (handle : list byte) (n : Z) : list byte * list byte :=
  if n <? 0 then (handle, [])
  else (firstn (Z.to_nat n) handle, skipn (Z.to_nat n) handle).

(** The loop of [_compute_file_hash]; [None] is out of fuel. *)
Fixpoint file_hash_loop (fuel : nat) (digest : Digest ext)
  (handle : list byte) (chunk_size : Z) : option (Digest ext) :=
  match fuel with
  | O => None
  | S f =>
      let (chunk, handle') := read handle chunk_size in
      match chunk with
      | [] => Some digest
      | _ :: _ =>
          file_hash_loop f (update ext digest chunk) handle' chunk_size
      end
  end.

Definition file_hash_bytes (content : list byte) (chunk_size : Z) : str :=
  match file_hash_loop (S (length content)) (sha256 ext) content chunk_size
  with
  | Some digest => hexdigest ext digest
  | None => []
  end.

Definition _compute_file_hash (path : str) (chunk_size : Z) : M str :=
  n <- get (fun w => fs_lookup (fs w) path);;
  match n with
  | Some (File content) => ret (file_hash_bytes content chunk_size)
  | Some Dir => raise (mkExn OSError (lit "Is a directory: " ++ path))
  | None =>
      raise (mkExn FileNotFoundError
               (lit "No such file or directory: " ++ path))
  end.

Definition is_some {A} (o : option A) : bool :=
  match o with Some _ => true | None => false end.

(** [document and document.file_hash == file_hash and
    document.total_pages is not None] *)
Definition up_to_date (document : Document) (file_hash : str) : bool :=
  str_eqb (Database.file_hash document) file_hash
  && is_some (total_pages document).

(** The session is the one of [base_name]; the id of a new row is read
    back by [session.refresh]. *)
Definition _get_or_create_document (path : str) (base_name : str)
  (file_hash : str) : M Document :=
  db <- get (fun w => dbs w base_name);;
  match first_by_path path (documents db) with
  | Some document =>
      if up_to_date document file_hash then ret document
      else
        now <- utcnow;;
        let document :=
          mkDocument (id document) (path_name path) path base_name None
            file_hash now in
        commit base_name [AddDocument document];;
        ret document
  | None =>
      now <- utcnow;;
      let document :=
        mkDocument (next_id (map id (documents db))) (path_name path) path
          base_name None file_hash now in
      commit base_name [AddDocument document];;
      ret document
  end.

(** [enumerate(l, start)] *)
Fixpoint enumerate {A} (start : Z) (l : list A) : list (Z * A) :=
  match l with
  | [] => []
  | x :: l' => (start, x) :: enumerate (start + 1) l'
  end.

(** The pages [_store_pages] adds to the session. *)
Definition _store_pages (document_id : Z) (pages : list str) : Session :=
  map (fun '(page_num, content) =>
         AddPage document_id page_num content (len content))
    (enumerate 1 pages).

(** The state of the loops of [_chunk_pages]. *)
Record ChunkState := mkChunkState {
  cs_chunks : list str;
  cs_metadata : list Vectors.Metadata;
  chunk_counter : Z
}.

Definition chunk_id_of (document_id page_num counter : Z) : str :=
  str_of_Z document_id ++ lit ":" ++ str_of_Z page_num ++ lit ":"
  ++ str_of_Z counter.

Definition chunk_pages_inner (path : str) (document_id page_num : Z)
  (st : ChunkState) (chunk : Chunking.ChunkMetadata) : ChunkState :=
  let t := strip (Chunking.text chunk) in
  if is_empty t then st
  else
    let chunk_id := chunk_id_of document_id page_num (chunk_counter st) in
    mkChunkState (cs_chunks st ++ [t])
      (cs_metadata st
       ++ [Vectors.mkMetadata chunk_id document_id path (path_name path)
             page_num (chunk_counter st) (Chunking.index chunk)
             (Chunking.start_char chunk) (Chunking.end_char chunk)
             (Chunking.token_count chunk)])
      (chunk_counter st + 1).

Definition chunk_pages_outer (path : str) (document_id : Z)
  (st : ChunkState) (page : Z * str) : ChunkState :=
  let (page_num, content) := page in
  fold_left (chunk_pages_inner path document_id page_num)
    (Chunking.chunk content Chunking.default_chunk_size
       Chunking.default_overlap)
    st.

Definition chunk_pages_pure (path : str) (document_id : Z)
  (pages : list str) : ChunkState :=
  fold_left (chunk_pages_outer path document_id) (enumerate 1 pages)
    (mkChunkState [] [] 0).

(** [_chunk_pages]: the chunker is called once for each page. *)
Definition _chunk_pages (path : str) (document_id : Z) (pages : list str)
  : M (list str * list Vectors.Metadata) :=
  record_call (map CChunk pages);;
  let st := chunk_pages_pure path document_id pages in
  ret (cs_chunks st, cs_metadata st).

Definition _clear_document_vectors (self : DocumentIndexer)
  (base_name : str) (document_path : str) : M unit :=
  try_except
    (match delete_document_chunks (vectordb self) with
     | Some delete => delete base_name document_path
     | None =>
         raise (mkExn AttributeError
                  (lit "object has no attribute 'delete_document_chunks'"))
     end)
    (fun exc =>
       match e_class exc with
       | AttributeError => ret tt
       | _ => raise exc
       end).

Definition _ensure_collection (self : DocumentIndexer) (base_name : str)
  : M unit :=
  match get_collection (vectordb self) with
  | None => ret tt
  | Some client_get_collection =>
      try_except (client_get_collection base_name)
        (fun _ => create_collection (vectordb self) base_name)
  end.

Definition index_document (self : DocumentIndexer) (file_path : str)
  (base_name : str) (callback_arg : option ProgressCallback) : M Document :=
  let callback := or_else callback_arg (progress_callback self) in
  let emit := _progress_emitter callback in
  let path := file_path in
  n <- get (fun w => fs_lookup (fs w) path);;
  match n with
  | None | Some Dir =>
      raise (mkExn FileNotFoundError (lit "File not found: " ++ path))
  | Some (File _) =>
      emit (lit "Starting indexing for " ++ path_name path) (Some 0.0%float);;
      file_hash <- _compute_file_hash path 8192;;
      emit (lit "Computed file hash") (Some 0.05%float);;
      document <- _get_or_create_document path base_name file_hash;;
      if up_to_date document file_hash
      then
        emit (lit "No changes detected for " ++ path_name path
              ++ lit ". Skipping.") (Some 1.0%float);;
        ret document
      else
        emit (lit "Parsing document") (Some 0.2%float);;
        pages <- Parser.parse ext path;;
        emit (lit "Clearing previous pages") (Some 0.35%float);;
        commit base_name [DeletePages (id document)];;
        now <- utcnow;;
        let document :=
          mkDocument (id document) (filename document)
            (Database.path document) (Database.base_name document)
            (Some (len pages)) (Database.file_hash document) now in
        commit base_name [AddDocument document];;
        emit (lit "Storing pages") (Some 0.45%float);;
        commit base_name (_store_pages (id document) pages);;
        emit (lit "Chunking content") (Some 0.55%float);;
        cm <- _chunk_pages path (id document) pages;;
        let (chunks, metadata) := cm in
        _ensure_collection self base_name;;
        if is_empty chunks
        then
          emit (lit "No content available for embeddings")
            (Some 0.9%float);;
          _clear_document_vectors self base_name path;;
          emit (lit "Indexing complete") (Some 1.0%float);;
          ret document
        else
          emit (lit "Generating embeddings") (Some 0.7%float);;
          embeddings <- Embeddings.embed_texts ext chunks;;
          emit (lit "Updating vector store") (Some 0.85%float);;
          _clear_document_vectors self base_name path;;
          add_documents (vectordb self) base_name chunks embeddings
            (map Some metadata);;
          emit (lit "Indexing complete") (Some 1.0%float);;
          ret document
  end.

Definition is_file (n : node) : bool :=
  match n with File _ => true | Dir => false end.

Definition documents_dir_of (self : DocumentIndexer) (base_name : str)
  : str :=
  path_join (path_join (base_data_dir self) base_name) (lit "documents").

(** [p.is_file() and p.suffix.lower() in self.supported_extensions], for
    the entries of [documents_dir.iterdir()] *)
Definition scan_candidate (documents_dir : str) (entry : str * node) : bool :=
  let (p, n) := entry in
  str_eqb (path_parent p) documents_dir
  && is_file n
  && existsb (str_eqb (lower (path_suffix p))) supported_extensions.

(** [sorted(p for p in documents_dir.iterdir() if ...)]; a directory that
    [mkdir] has just made lists nothing. *)
Definition scan_files (self : DocumentIndexer) (base_name : str)
  (files : filesystem) : list str :=
  sorted
    (map fst (filter (scan_candidate (documents_dir_of self base_name)) files)).

Definition nested_callback (callback : option ProgressCallback)
  (total idx : Z) : ProgressCallback :=
  fun message p =>
    let overall_progress :=
      match p with
      | Some v =>
          if negb (total =? 0)
          then Some (PrimFloat.div
                       (PrimFloat.add (float_of_Z (idx - 1)) v)
                       (float_of_Z total))
          else Some 1.0%float
      | None =>
          if negb (total =? 0)
          then Some (PrimFloat.div (float_of_Z (idx - 1)) (float_of_Z total))
          else Some 1.0%float
      end in
    emitted callback message overall_progress.

(** The loop of [scan_and_index_folder] over [enumerate(files, start=1)]. *)
Fixpoint scan_loop (self : DocumentIndexer) (base_name : str)
  (callback : option ProgressCallback) (total : Z) (files : list str)
  (idx : Z) (indexed_documents : list Document) : M (list Document) :=
  let emit := _progress_emitter callback in
  match files with
  | [] => ret indexed_documents
  | file_path :: files' =>
      emit (lit "Indexing " ++ path_name file_path ++ lit " ("
            ++ str_of_Z idx ++ lit "/" ++ str_of_Z total ++ lit ")")
        (if negb (total =? 0)
         then Some (PrimFloat.div (float_of_Z (idx - 1)) (float_of_Z total))
         else None);;
      indexed_documents' <-
        try_except
          (document <-
             index_document self file_path base_name
               (Some (nested_callback callback total idx));;
           ret (indexed_documents ++ [document]))
          (fun exc =>
             emit (lit "Failed to index " ++ path_name file_path ++ lit ": "
                   ++ e_msg exc) None;;
             ret indexed_documents);;
      scan_loop self base_name callback total files' (idx + 1)
        indexed_documents'
  end.

Definition scan_and_index_folder (self : DocumentIndexer) (base_name : str)
  (callback_arg : option ProgressCallback) : M (list Document) :=
  let callback := or_else callback_arg (progress_callback self) in
  let emit := _progress_emitter callback in
  let documents_dir := documents_dir_of self base_name in
  files <- get (fun w => scan_files self base_name (fs w));;
  let total := len files in
  emit (lit "Found " ++ str_of_Z total ++ lit " file(s) to evaluate in "
        ++ documents_dir)
    (Some (if negb (total =? 0) then 0.0%float else 1.0%float));;
  indexed_documents <- scan_loop self base_name callback total files 1 [];;
  (if negb (total =? 0)
   then emit (lit "Folder scan complete") (Some 1.0%float)
   else ret tt);;
  ret indexed_documents.

End WithExternals.
End Indexer.

(** ** Properties of the chunker: what is proved of its data *)

Module ChunkingSpec.
Import Chunking.

(** A match lies in the text between [lo] and [hi] and is not empty. *)
Definition match_ok (lo hi : nat) (m : Match) : Prop :=
  (lo <= m_start m /\ m_start m < m_end m /\ m_end m <= hi)%nat.

Definition match_before (a b : Match) : Prop := (m_end a <= m_start b)%nat.

(** A sentence lies in a text of [n] characters. *)
Definition sentence_ok (n : Z) (s : Sentence) : Prop :=
  0 <= s_start s /\ s_start s <= s_end s /\ s_end s <= n.

Definition before (a b : Sentence) : Prop := s_end a <= s_start b.

Definition sentences_ok (n : Z) (l : list Sentence) : Prop :=
  Forall (sentence_ok n) l /\ StronglySorted before l.

Definition chunk_ok (n : Z) (c : ChunkMetadata) : Prop :=
  0 <= start_char c /\ start_char c <= end_char c /\ end_char c <= n.

End ChunkingSpec.

(** ** Properties of the indexer: the phases of [index_document]

    The body of [index_document] after the document record is fetched, cut
    at the calls of the parser and of the chunker. *)

Module IndexerSpec.
Import Database Indexer.

(** How the message of a failed file begins. *)
Definition failure_prefix : str := lit "Failed to index ".

Fixpoint starts_with (prefix s : str) : bool :=
  match prefix, s with
  | [], _ => true
  | x :: p', y :: s' => Ascii.eqb x y && starts_with p' s'
  | _ :: _, [] => false
  end.

(** The failure messages of a progress log. *)
Definition failures (log : list (str * option float)) : list str :=
  filter (starts_with failure_prefix) (map fst log).

Definition not_failure (message : str) : Prop :=
  starts_with failure_prefix message = false.

(** [a] is [b] with some elements left out. *)
Inductive subsequence {A : Type} : list A -> list A -> Prop :=
| sub_nil : subsequence [] []
| sub_skip (x : A) (l l' : list A) :
    subsequence l l' -> subsequence l (x :: l')
| sub_take (x : A) (l l' : list A) :
    subsequence l l' -> subsequence (x :: l) (x :: l').

Definition lex_le (a b : str) : Prop := str_leb a b = true.

Definition supported (f : str) : Prop :=
  existsb (str_eqb (lower (path_suffix f))) supported_extensions = true.

Section WithExternals.
Variable ext : Externals.

(** [DocumentIndexer(base_data_dir=..., progress_callback=...)]: the vector
    service is the default one. *)
Definition default_indexer (dir : str) (cb : option ProgressCallback)
  : DocumentIndexer :=
  mkIndexer (VectorDB.QdrantService ext) dir cb.

(** The message the scan reports for the file [f] when [index_document]
    raised [e] on it. *)
Definition failure_message (f : str) (e : exn) : str :=
  failure_prefix ++ path_name f ++ lit ": " ++ e_msg e.

(** The world when the scan has told how many files it found. *)
Definition found (callback : option ProgressCallback)
  (self : DocumentIndexer) (base_name : str) (total : Z) (w : World)
  : World :=
  set_progress
    (progress w
     ++ emitted callback
          (lit "Found " ++ str_of_Z total ++ lit " file(s) to evaluate in "
           ++ documents_dir_of self base_name)
          (Some (if negb (total =? 0) then 0.0%float else 1.0%float))) w.

(** The world when the scan has announced the file [f], the [idx]-th of
    [total]. *)
Definition announced (callback : option ProgressCallback) (total idx : Z)
  (f : str) (w : World) : World :=
  set_progress
    (progress w
     ++ emitted callback
          (lit "Indexing " ++ path_name f ++ lit " (" ++ str_of_Z idx
           ++ lit "/" ++ str_of_Z total ++ lit ")")
          (if negb (total =? 0)
           then Some (PrimFloat.div (float_of_Z (idx - 1)) (float_of_Z total))
           else None)) w.

(** The world when the scan has reported the failure of [f]. *)
Definition reported (callback : option ProgressCallback) (f : str) (e : exn)
  (w : World) : World :=
  set_progress (progress w ++ emitted callback (failure_message f e) None) w.

(** The world when the scan of [total] files is over. *)
Definition finished (callback : option ProgressCallback) (total : Z)
  (w : World) : World :=
  if negb (total =? 0)
  then set_progress
         (progress w
          ++ emitted callback (lit "Folder scan complete") (Some 1.0%float)) w
  else w.

(** [scanned self base callback total files idx w docs messages w']: from
    the world [w], [index_document] is called on each of [files] in turn,
    the first being the [idx]-th of [total], each call in the world the
    call before it left; [docs] are the documents the calls returned,
    [messages] the failure messages for the calls that raised, both in the
    order of the files, and [w'] is the world after the last file. *)
Inductive scanned (self : DocumentIndexer) (base_name : str)
  (callback : option ProgressCallback) (total : Z)
  : list str -> Z -> World -> list Document -> list str -> World -> Prop :=
| scanned_none (idx : Z) (w : World) :
    scanned self base_name callback total [] idx w [] [] w
| scanned_indexed (f : str) (files : list str) (idx : Z) (w w1 w' : World)
    (d : Document) (docs : list Document) (messages : list str) :
    index_document ext self f base_name
      (Some (nested_callback callback total idx))
      (announced callback total idx f w) = (Ok d, w1) ->
    scanned self base_name callback total files (idx + 1) w1 docs messages
      w' ->
    scanned self base_name callback total (f :: files) idx w (d :: docs)
      messages w'
| scanned_failed (f : str) (files : list str) (idx : Z) (w w1 w' : World)
    (e : exn) (docs : list Document) (messages : list str) :
    index_document ext self f base_name
      (Some (nested_callback callback total idx))
      (announced callback total idx f w) = (Raise e, w1) ->
    scanned self base_name callback total files (idx + 1)
      (reported callback f e w1) docs messages w' ->
    scanned self base_name callback total (f :: files) idx w docs
      (failure_message f e :: messages) w'.

(** From "Clearing previous pages" to the commit of the new pages. *)
Definition store_phase (base_name : str) (callback : option ProgressCallback)
  (document : Document) (pages : list str) : M Document :=
  let emit := _progress_emitter callback in
  emit (lit "Clearing previous pages") (Some 0.35%float);;
  commit base_name [DeletePages (id document)];;
  now <- utcnow;;
  let document :=
    mkDocument (id document) (filename document)
      (Database.path document) (Database.base_name document)
      (Some (len pages)) (Database.file_hash document) now in
  commit base_name [AddDocument document];;
  emit (lit "Storing pages") (Some 0.45%float);;
  commit base_name (_store_pages (id document) pages);;
  ret document.

(** From "Chunking content" to the end. *)
Definition vector_phase (self : DocumentIndexer) (path : str)
  (base_name : str) (callback : option ProgressCallback)
  (document : Document) (pages : list str) : M Document :=
  let emit := _progress_emitter callback in
  emit (lit "Chunking content") (Some 0.55%float);;
  cm <- _chunk_pages path (id document) pages;;
  let (chunks, metadata) := cm in
  _ensure_collection self base_name;;
  if is_empty chunks
  then
    emit (lit "No content available for embeddings") (Some 0.9%float);;
    _clear_document_vectors self base_name path;;
    emit (lit "Indexing complete") (Some 1.0%float);;
    ret document
  else
    emit (lit "Generating embeddings") (Some 0.7%float);;
    embeddings <- Embeddings.embed_texts ext chunks;;
    emit (lit "Updating vector store") (Some 0.85%float);;
    _clear_document_vectors self base_name path;;
    add_documents (vectordb self) base_name chunks embeddings
      (map Some metadata);;
    emit (lit "Indexing complete") (Some 1.0%float);;
    ret document.

(** The world after the two first progress messages. *)
Definition started (callback : option ProgressCallback) (path : str)
  (w : World) : World :=
  set_progress
    ((progress w
      ++ emitted callback (lit "Starting indexing for " ++ path_name path)
           (Some 0.0%float))
     ++ emitted callback (lit "Computed file hash") (Some 0.05%float)) w.

(** The stored record of a path. *)
Definition stored (w : World) (base_name path : str) : option Document :=
  first_by_path path (documents (dbs w base_name)).

(** The skip condition: the stored hash is the hash of the file and the
    stored page count is not null. *)
Definition unchanged (w : World) (base_name path : str)
  (content : list byte) : bool :=
  match stored w base_name path with
  | Some d => up_to_date d (file_hash_bytes ext content 8192)
  | None => false
  end.

(** The databases committed for a base, among some calls. *)
Definition commits_of (base_name : str) (cs : list call) : list DB :=
  flat_map (fun c =>
              match c with
              | CCommit b db => if str_eqb b base_name then [db] else []
              | _ => []
              end) cs.

(** A call of the vector phase: to the chunker, the embedding service or
    the vector store. *)
Definition vector_call (c : call) : Prop :=
  match c with
  | CChunk _ | CEmbed _ | CDelete _ _ | CUpsert _ _ | CCreateCollection _ =>
      True
  | CParse _ | CCommit _ _ => False
  end.

(** The record says the indexing of the file with hash [h] is done. *)
Definition claims_done (h : str) (d : Document) : bool := up_to_date d h.

(** In the database [db] the record of [path] does not say "done" for the
    hash [h] unless the stored pages of the document are [new_pages]. *)
Definition pages_follow_metadata (path h : str) (new_pages : list str)
  (db : DB) : Prop :=
  forall d, first_by_path path (documents db) = Some d ->
            claims_done h d = true ->
            map content (pages_of db (id d)) = new_pages.

(** Every vector found by id in [w] is found by id in [w']. *)
Definition ids_kept (w w' : World) : Prop :=
  forall (b : str) (c : Vectors.Collection) (i : str) (p : Vectors.Stored),
    collections w b = Some c -> Vectors.retrieve i c = Some p ->
    exists c' p',
      collections w' b = Some c' /\ Vectors.retrieve i c' = Some p'.

(** No vector of [before] is left in [after], the vectors with one of the
    ids [new_ids] apart. *)
Definition no_orphans (before after : World) (base_name : str)
  (new_ids : list str) : Prop :=
  forall (c c' : Vectors.Collection) (i : str),
    collections before base_name = Some c ->
    collections after base_name = Some c' ->
    Vectors.retrieve i c <> None ->
    existsb (str_eqb i) new_ids = false ->
    Vectors.retrieve i c' = None.

(** Entries a callback logs when it is given messages that are not
    failure messages. *)
Definition quiet_log (cb : option ProgressCallback)
  (log : list (str * option float)) : Prop :=
  Forall (fun e => exists m p, not_failure m /\ In e (emitted cb m p)) log.

(** What the vector phase leaves alone: the files and the databases; it
    only adds calls of its own kind, and progress entries for messages
    that are not failure messages. *)
Definition tail_frame (cb : option ProgressCallback) (w w' : World) : Prop :=
  fs w' = fs w /\ dbs w' = dbs w
  /\ (exists cs, calls w' = calls w ++ cs /\ Forall vector_call cs)
  /\ (exists log, progress w' = progress w ++ log /\ quiet_log cb log)
  /\ ids_kept w w'.

(** Whatever the world, [m] moves it along [R], and what it returns
    satisfies [Q]. *)
Definition post (R : World -> World -> Prop) {A} (Q : A -> Prop) (m : M A)
  : Prop :=
  forall w, R w (snd (m w)) /\ forall a, fst (m w) = Ok a -> Q a.

Definition any {A} (a : A) : Prop := True.

End WithExternals.
End IndexerSpec.

(** ** A small installation, for the examples

    Stand-ins for what lies outside the repository, and a knowledge base
    [kb] under [/data/bases]. *)

Module Scenario.

Definition bytes_of (s : str) : list byte := map byte_of_ascii s.

(** A reader that takes every byte of the file for a page; the page of the
    byte [x] cannot be extracted, and an empty file cannot be opened. *)
Definition page_reader (content : list byte)
  : result (list (result (option str))) :=
  match content with
  | [] => Raise (mkExn OtherError (lit "Cannot read an empty file"))
  | _ :: _ =>
      Ok (map (fun b =>
                 if Byte.eqb b "x"%byte
                 then Raise (mkExn OtherError (lit "bad page"))
                 else Ok (Some [ascii_of_byte b; "."%char]))
            content)
  end.

Definition is_hex (c : ascii) : bool :=
  let n := code c in
  ((48 <=? n) && (n <=? 57) || (65 <=? n) && (n <=? 70)
   || (97 <=? n) && (n <=? 102))%N.

(** The places of the hyphens in the text of a UUID: 8-4-4-4-12. *)
Definition uuid_shape : list bool :=
  map (fun k => existsb (Nat.eqb k) [8; 13; 18; 23]%nat) (seq 0 36).

(** The text of a UUID, as [str(uuid4())] writes it. *)
Definition is_uuid (s : str) : bool :=
  (length s =? 36)%nat
  && forallb (fun ch : ascii * bool =>
                if snd ch then Ascii.eqb (fst ch) "-" else is_hex (fst ch))
       (combine s uuid_shape).

(** The [n]-th identifier drawn. *)
Definition nth_uuid (n : nat) : str :=
  let digits := str_of_Z (Z.of_nat n) in
  lit "00000000-0000-4000-8000-"
  ++ repeat "0"%char (12 - length digits) ++ digits.

(** A store of vectors of 384 floats under UUIDs, as [create_collection]
    makes it: it raises [ValueError] at the first point it cannot take,
    and on an empty list of points. *)
Definition refusal (p : Vectors.Point) : option exn :=
  if negb (is_uuid (Vectors.p_id p))
  then Some (mkExn ValueError
               (lit "Point id " ++ Vectors.p_id p ++ lit " is not a valid UUID"))
  else if negb (length (Vectors.p_vector p) =? 384)%nat
  then Some (mkExn ValueError (lit "Vector of a wrong size"))
  else None.

Fixpoint first_refusal (taken : nat) (points : list Vectors.Point)
  : option (nat * exn) :=
  match points with
  | [] => None
  | p :: points' =>
      match refusal p with
      | Some e => Some (taken, e)
      | None => first_refusal (S taken) points'
      end
  end.

Definition store_fault (points : list Vectors.Point) : option (nat * exn) :=
  match points with
  | [] => Some (0%nat, mkExn ValueError (lit "Empty update request"))
  | _ :: _ => first_refusal 0 points
  end.

(** The digest is the data itself, the codec reads one character a byte,
    and the vector of a text is its length, 384 times. *)
Definition ext : Externals :=
  mkExternals (list byte) [] (fun d c => d ++ c) (map ascii_of_byte)
    (map ascii_of_byte) page_reader
    (fun texts => Ok (map (fun t => repeat (float_of_Z (len t)) 384) texts))
    nth_uuid store_fault.

Definition kb : str := lit "kb".

(** [DocumentIndexer(base_data_dir="/data/bases", progress_callback=...)] *)
Definition indexer : Indexer.DocumentIndexer :=
  Indexer.mkIndexer (VectorDB.QdrantService ext) (lit "/data/bases")
    (Some recorder).

(** A fresh installation holding [files]. *)
Definition world_of (files : filesystem) : World :=
  mkWorld files (fun _ => Database.empty_db) (fun _ => None) None 0 0 [] [].

(** The files change from outside the pipeline. *)
Definition set_fs (v : filesystem) (w : World) : World :=
  mkWorld v (dbs w) (collections w) (last_file_hash w) (clock w) (uuids w)
    (progress w) (calls w).

Definition a_txt : str := lit "/data/bases/kb/documents/a.txt".
Definition b_md : str := lit "/data/bases/kb/documents/b.md".
Definition c_docx : str := lit "/data/bases/kb/documents/c.docx".
Definition d_pdf : str := lit "/data/bases/kb/documents/d.pdf".

(** 3900 characters: two pages, three chunks. *)
Definition long_text : str := concat (repeat (lit "Hello world. ") 300).

Definition short_text : str := lit "Short text.".

Definition first_version : World :=
  world_of [(a_txt, File (bytes_of long_text))].

Definition index_a (w : World) : result Database.Document * World :=
  Indexer.index_document ext indexer a_txt kb None w.

Definition small_world : World :=
  world_of [(a_txt, File (bytes_of short_text))].

(** Two supported files and one that is not. *)
Definition folder : World :=
  world_of [(c_docx, File (bytes_of (lit "Word document.")));
            (b_md, File (bytes_of (lit "Second note.")));
            (a_txt, File (bytes_of (lit "First note.")))].

Definition archive : str := lit "/data/bases/kb/documents/archive".

(** A PDF of three pages whose second page fails, an empty one, and a
    directory. *)
Definition pdf_world : World :=
  world_of [(d_pdf, File (bytes_of (lit "axb")));
            (lit "/data/bases/kb/documents/e.pdf", File []);
            (archive, Dir)].

(** A reader that raises [ValueError] on every file, and the installation
    with this reader. *)
Definition reader_error : exn :=
  mkExn ValueError (lit "invalid literal for int() with base 10").

Definition PdfReader_fault (content : list byte)
  : result (list (result (option str))) :=
  Raise reader_error.

Definition ext_fault : Externals :=
  mkExternals (list byte) [] (fun d c => d ++ c) (map ascii_of_byte)
    (map ascii_of_byte) PdfReader_fault
    (fun texts => Ok (map (fun t => repeat (float_of_Z (len t)) 384) texts))
    nth_uuid store_fault.

(** The calls that reach the vector store. *)
Definition store_calls (cs : list call) : list call :=
  filter (fun c =>
            match c with
            | CDelete _ _ | CUpsert _ _ | CCreateCollection _ => true
            | _ => false
            end) cs.

(** The world the first indexing of the note leaves. *)
Definition after_first : World := snd (index_a small_world).

Definition no_document : Database.Document :=
  Database.mkDocument 0 [] [] [] None [] 0.

(** The record of the note in the database then. *)
Definition first_document : Database.Document :=
  match IndexerSpec.stored after_first kb a_txt with
  | Some d => d
  | None => no_document
  end.

(** The world the second indexing of the note leaves. *)
Definition after_second : World := snd (index_a after_first).

(** What the first indexing of the note raises. *)
Definition first_error : exn :=
  match fst (index_a small_world) with
  | Ok _ => mkExn OtherError []
  | Raise e => e
  end.

(** The third commit of that indexing, and the record of the note in it. *)
Definition third_commit : Database.DB :=
  nth 2 (IndexerSpec.commits_of kb (calls after_first)) Database.empty_db.

Definition third_record : Database.Document :=
  match Database.first_by_path a_txt (Database.documents third_commit) with
  | Some d => d
  | None => no_document
  end.

Definition collection_of (o : option Vectors.Collection)
  : Vectors.Collection :=
  match o with
  | Some c => c
  | None => @nil Vectors.Stored
  end.

Definition scan_folder : result (list Database.Document) * World :=
  Indexer.scan_and_index_folder ext indexer kb None folder.

(** Two supported files without text and one file that is not supported. *)
Definition blank_folder : World :=
  world_of [(c_docx, File (bytes_of (lit "Word document.")));
            (b_md, File []);
            (a_txt, File [])].

Definition scan_blank_folder : result (list Database.Document) * World :=
  Indexer.scan_and_index_folder ext indexer kb None blank_folder.

(** A vector of the size of the collection. *)
Definition some_vector : list float := repeat 0.5%float 384.

(** Two texts written to the collection the indexing of the note made. *)
Definition two_stored : World :=
  snd (VectorDB.add_documents ext kb [lit "a"; lit "b"]
         [some_vector; some_vector] [None; None] after_first).

Definition two_vectors : Vectors.Collection :=
  collection_of (collections two_stored kb).

(** A metadata that asks for an id, and the world when a text is written
    with it. *)
Definition own_id : str := lit "0a1b2c3d-4e5f-4a6b-8c7d-9e0f1a2b3c4d".

Definition own_metadata : Vectors.Metadata :=
  Vectors.mkMetadata own_id 7 [] [] 1 0 0 0 1 1.

Definition own_stored : World :=
  snd (VectorDB.add_documents ext kb [lit "a"] [some_vector]
         [Some own_metadata] after_first).

(** The metadata of a chunk of the note, without an id of its own. *)
Definition note_metadata : Vectors.Metadata :=
  Vectors.mkMetadata [] 1 a_txt (lit "a.txt") 1 0 0 0 11 2.

(** The text of the note is written to the store for the path of the note,
    under an identifier drawn from [uuid4]. *)
Definition note_stored : World :=
  snd (VectorDB.add_documents ext kb [short_text] [some_vector]
         [Some note_metadata] after_first).

(** Then the file loses its text. *)
Definition note_emptied : World := set_fs [(a_txt, File [])] note_stored.

(** The collection then, and the record of the note in it. *)
Definition note_vectors : Vectors.Collection :=
  collection_of (collections note_emptied kb).

Definition note_record : Vectors.Stored :=
  match Vectors.retrieve (nth_uuid 0) note_vectors with
  | Some r => r
  | None => Vectors.mkStored [] [] None
  end.

(** What the indexing of the emptied note returns. *)
Definition emptied_document : Database.Document :=
  match fst (index_a note_emptied) with
  | Ok d => d
  | Raise _ => no_document
  end.

(** The records of a collection written for a path. *)
Definition written_for (document_path : str) (c : Vectors.Collection)
  : Vectors.Collection :=
  filter (fun r =>
            match Vectors.r_meta r with
            | Some m => str_eqb (Vectors.md_document_path m) document_path
            | None => false
            end) c.

End Scenario.

(** ** core/operations.py

    The text operations of the scaffold under [src/core]. *)

Module Operations.

(** The loop of [split_by_chars]: [start] and [chunks] are its variables,
    and [None] is out of fuel. *)
Fixpoint split_loop (fuel : nat) (text : str) (max_chars overlap : Z)
  (start : Z) (chunks : list str) : option (list str) :=
  match fuel with
  | O => None
  | S f =>
      let text_len := len text in
      if start <? text_len
      then
        let end_ := Z.min (start + max_chars) text_len in
        let chunks' := chunks ++ [slice text start end_] in
        if end_ =? text_len then Some chunks'
        else
          split_loop f text max_chars overlap (Z.max 0 (end_ - overlap))
            chunks'
      else Some chunks
  end.

Definition split_by_chars (fuel : nat) (text : str) (max_chars overlap : Z)
  : option (list str) :=
  if max_chars <=? 0 then Some [text]
  else split_loop fuel text max_chars overlap 0 [].

(** The loop of [str.split()] with no argument: [word] is the word being
    read; the words are the longest runs of characters that are not white
    space. *)
Fixpoint words (word : str) (s : str) : list str :=
  match s with
  | [] => if is_empty word then [] else [word]
  | c :: r =>
      if is_space c
      then if is_empty word then words [] r else word :: words [] r
      else words (word ++ [c]) r
  end.

(** [s.split()] *)
Definition split (s : str) : list str := words [] s.

Definition normalize_whitespace (lines : list str) : list str :=
  map (fun line => join (lit " ") (split (strip line))) lines.

End Operations.

Module OperationsProps.

(** The chunks put back together: the first one whole, the others without
    the [overlap] characters they repeat. *)
Definition unsplit (overlap : Z) (chunks : list str) : str :=
  match chunks with
  | [] => []
  | c :: cs => c ++ concat (map (skipn (Z.to_nat overlap)) cs)
  end.

(** A word: not empty, and without white space. *)
Definition word_ok (w : str) : Prop :=
  w <> [] /\ Forall (fun c => is_space c = false) w.

(** A chunk of [split_by_chars]: not empty, of [max_chars] characters at
    most. *)
Definition sized (max_chars : Z) (c : str) : Prop :=
  0 < len c <= max_chars.

(** What the loop of [split_by_chars] keeps: the chunks so far give back
    the text up to the end [e] of the last one, and the next chunk starts
    [overlap] characters before it. *)
Definition joined (text : str) (overlap : Z) (start : Z)
  (chunks : list str) (e : Z) : Prop :=
  unsplit overlap chunks = firstn (Z.to_nat e) text
  /\ ((chunks = [] /\ e = 0 /\ start = 0)
      \/ (chunks <> [] /\ start = e - overlap /\ overlap <= e
          /\ e < len text)).

End OperationsProps.

(** ** More of the chunker: what its sentences and chunks are *)

Module ChunkingProps.
Import Chunking.

(** The group of a match is the text between its two positions. *)
Definition group_of (t : str) (m : Match) : Prop :=
  m_group m = firstn (m_end m - m_start m) (skipn (m_start m) t).

(** The text of a sentence is [t[start:end].strip()]. *)
Definition text_at_offsets (t : str) (s : Sentence) : Prop :=
  s_text s = strip (slice t (s_start s) (s_end s)).

(** The indexes of some chunks are 0, 1, 2, ... in order. *)
Definition numbered (l : list ChunkMetadata) : Prop :=
  map index l = map Z.of_nat (seq 0 (length l)).

(** The sentence lies between the offsets of the chunk. *)
Definition covers (c : ChunkMetadata) (s : Sentence) : Prop :=
  start_char c <= s_start s /\ s_end s <= end_char c.

(** In the loop of [chunk], a sentence read so far is in a chunk already
    closed or in the chunk being built. *)
Definition placed (st : LoopState) (s : Sentence) : Prop :=
  Exists (fun c => covers c s) (chunks st) \/ In s (current st).

End ChunkingProps.

(** ** More of the parser: the pages of a text *)

Module ParserProps.

(** The characters of a text that are not white space. *)
Definition non_space (t : str) : str :=
  filter (fun c => negb (is_space c)) t.

(** What the external digest is taken to do: feeding two blocks one after
    the other is feeding them joined, as [hashlib] digests do. *)
Definition streaming (ext : Externals) : Prop :=
  forall (d : Digest ext) (a b : list byte),
    update ext (update ext d a) b = update ext d (a ++ b).

(** The digest of a whole content. *)
Definition digest_of (ext : Externals) (content : list byte) : str :=
  hexdigest ext
    match content with
    | [] => sha256 ext
    | _ :: _ => update ext (sha256 ext) content
    end.

End ParserProps.

(** ** More of the vector store *)

Module VectorProps.

(** The id is found in the collection. *)
Definition stored_id (c : Vectors.Collection) (i : str) : Prop :=
  Vectors.retrieve i c <> None.

(** The id the metadata of a chunk asks for, if it asks for one. *)
Definition wanted_id (meta : option Vectors.Metadata) : option str :=
  match meta with
  | Some m =>
      if is_empty (Vectors.md_id m) then None else Some (Vectors.md_id m)
  | None => None
  end.

(** The last of some points that has the id [i]. *)
Definition last_with_id (i : str) (points : list Vectors.Point)
  : option Vectors.Point :=
  find (fun q => str_eqb (Vectors.p_id q) i) (rev points).

End VectorProps.

(** ** More of the indexer: the chunks of the pages *)

Module PagesProps.
Import Vectors.

(** The metadata of a chunk of the document [document_id] at [path], on
    one of [count] pages: it names the document, a page from 1 to
    [count], and its id is made of the document, the page and the
    position of the chunk. *)
Definition describes (path : str) (document_id : Z) (count : Z)
  (m : Metadata) : Prop :=
  md_document_id m = document_id
  /\ md_document_path m = path
  /\ md_filename m = path_name path
  /\ 1 <= md_page_num m <= count
  /\ md_id m
     = str_of_Z document_id ++ lit ":" ++ str_of_Z (md_page_num m)
       ++ lit ":" ++ str_of_Z (md_chunk_index m).

Definition no_colon (c : ascii) : Prop := c <> ":"%char.

(** What the loops of [_chunk_pages] keep. *)
Record kept (path : str) (document_id count : Z)
  (st : Indexer.ChunkState) : Prop :=
  mkKept {
    k_length :
      length (Indexer.cs_chunks st) = length (Indexer.cs_metadata st);
    k_counter : Indexer.chunk_counter st = len (Indexer.cs_chunks st);
    k_indexes :
      map md_chunk_index (Indexer.cs_metadata st)
      = map Z.of_nat (seq 0 (length (Indexer.cs_metadata st)));
    k_texts : Forall (fun t => t <> []) (Indexer.cs_chunks st);
    k_metadata :
      Forall (describes path document_id count) (Indexer.cs_metadata st)
  }.

(** Some page has a chunk whose text is not blank. *)
Definition has_chunk (pages : list str) : Prop :=
  Exists (fun page =>
            Exists (fun c => strip (Chunking.text c) <> [])
              (Chunking.chunk page Chunking.default_chunk_size
                 Chunking.default_overlap))
    pages.

(** The store takes none of the ids [_chunk_pages] builds: given points
    that all have such an id, [client.upsert] raises at the first one.  A
    Qdrant collection is such a store: the id of a point is an unsigned
    integer or a UUID. *)
Definition refuses_chunk_ids (ext : Externals) : Prop :=
  forall points : list Point,
    points <> [] ->
    Forall (fun p =>
              exists document_id page_num counter,
                p_id p = Indexer.chunk_id_of document_id page_num counter)
      points ->
    exists e, upsert_fault ext points = Some (0%nat, e).

End PagesProps.

(** ** More of the indexer: how a run ends *)

Module RunProps.
Import Indexer.

(** The world [w'] is a world in which [callback] has just been told
    [message] with the progress 1.0. *)
Definition told_last (callback : option ProgressCallback) (message : str)
  (w' : World) : Prop :=
  exists w0,
    w' = set_progress
           (progress w0 ++ emitted callback message (Some 1.0%float)) w0.

(** The two messages a run can end with. *)
Definition closing_message (path message : str) : Prop :=
  message = lit "Indexing complete"
  \/ message = lit "No changes detected for " ++ path_name path
               ++ lit ". Skipping.".

(** Every run of [m] that returns ends with a closing message at 1.0. *)
Definition ends_at_full {A} (callback : option ProgressCallback)
  (path : str) (m : M A) : Prop :=
  forall w a w',
    m w = (Ok a, w') ->
    exists message,
      closing_message path message /\ told_last callback message w'.

End RunProps.

(** * Proofs *)

(** ** The chunker *)

Module ChunkingFacts.
Import Chunking ChunkingSpec.

Lemma span_app (p : ascii -> bool) (l : str) :
  forall a b, span p l = (a, b) -> l = a ++ b.
Proof.
  induction l as [|c r IH]; simpl; intros a b H.
  - inversion H. reflexivity.
  - destruct (p c).
    + destruct (span p r) as [a' b'] eqn:E. inversion H; subst.
      simpl. f_equal. apply IH. reflexivity.
    + inversion H. reflexivity.
Qed.

Lemma match_here_app (l m rest : str) :
  match_here l = Some (m, rest) -> l = m ++ rest /\ m <> [].
Proof.
  unfold match_here.
  destruct (span (fun c => negb (is_terminator c)) l) as [body r1] eqn:E1.
  apply span_app in E1.
  destruct body as [|b body']; [discriminate|].
  destruct (span is_terminator r1) as [terms r2] eqn:E2.
  apply span_app in E2.
  destruct terms as [|t terms'].
  - destruct r1; [|discriminate]. intros H. inversion H; subst.
    split; [reflexivity | discriminate].
  - intros H. inversion H; subst. split.
    + exact (app_assoc (b :: body') (t :: terms') rest).
    + discriminate.
Qed.

Lemma match_ok_weaken (lo lo' hi hi' : nat) (ms : list Match) :
  (lo' <= lo)%nat -> (hi <= hi')%nat ->
  Forall (match_ok lo hi) ms -> Forall (match_ok lo' hi') ms.
Proof.
  intros Hlo Hhi H. eapply Forall_impl; [|exact H].
  unfold match_ok. intros m Hm. lia.
Qed.

(** The scan of the pattern ends within [len(text)] searches. *)
Lemma finditer_fuel_ok :
  forall fuel pos l, (length l <= fuel)%nat ->
  exists ms, finditer_fuel fuel pos l = Some ms
             /\ Forall (match_ok pos (pos + length l)) ms
             /\ StronglySorted match_before ms.
Proof.
  induction fuel as [|f IH]; intros pos l Hlen.
  - destruct l; [|simpl in Hlen; lia].
    exists []. simpl. repeat split; constructor.
  - destruct l as [|c r].
    + exists []. simpl. repeat split; constructor.
    + cbn [finditer_fuel].
      destruct (match_here (c :: r)) as [[m rest]|] eqn:E.
      * apply match_here_app in E. destruct E as [Eapp Hne].
        assert (Hl : length (c :: r) = (length m + length rest)%nat)
          by (rewrite Eapp, length_app; reflexivity).
        assert (Hm : (0 < length m)%nat)
          by (destruct m; [congruence | simpl; lia]).
        destruct (IH (pos + length m)%nat rest) as [ms [E1 [F S]]];
          [lia|].
        rewrite E1. eexists. split; [reflexivity|]. split.
        -- constructor.
           ++ unfold match_ok. simpl m_start. simpl m_end. lia.
           ++ eapply match_ok_weaken; [| |exact F]; lia.
        -- constructor; [exact S|].
           eapply Forall_impl; [|exact F].
           unfold match_ok, match_before. simpl. intros a Ha. lia.
      * simpl in Hlen.
        destruct (IH (Datatypes.S pos) r) as [ms [E1 [F S]]]; [lia|].
        exists ms. split; [exact E1|]. split; [|exact S].
        eapply match_ok_weaken; [| |exact F]; simpl; lia.
Qed.

Lemma finditer_ok (t : str) :
  finditer_fuel (length t) 0 t = Some (finditer t)
  /\ Forall (match_ok 0 (length t)) (finditer t)
  /\ StronglySorted match_before (finditer t).
Proof.
  unfold finditer.
  destruct (finditer_fuel_ok (length t) 0 t) as [ms [E [F S]]]; [lia|].
  rewrite E. repeat split; assumption.
Qed.

Lemma sentence_of_match_fields (m : Match) (s : Sentence) :
  sentence_of_match m = Some s ->
  s_start s = Z.of_nat (m_start m) /\ s_end s = Z.of_nat (m_end m).
Proof.
  unfold sentence_of_match. destruct (strip (m_group m)); [discriminate|].
  intros H. inversion H. simpl. split; reflexivity.
Qed.

Lemma collect_before (s : Sentence) (m : Match) (ms : list Match) :
  sentence_of_match m = Some s ->
  Forall (match_before m) ms ->
  Forall (before s) (collect_sentences ms).
Proof.
  intros Hs. apply sentence_of_match_fields in Hs. destruct Hs as [_ He].
  induction ms as [|m' ms IH]; simpl; intros F; [constructor|].
  pose proof (Forall_inv F) as Hm. pose proof (Forall_inv_tail F) as Hms.
  destruct (sentence_of_match m') as [s'|] eqn:E'; [|auto].
  constructor; [|auto].
  apply sentence_of_match_fields in E'. destruct E' as [Hs' _].
  unfold before, match_before in *. lia.
Qed.

Lemma collect_ok (hi : nat) (ms : list Match) :
  Forall (match_ok 0 hi) ms -> StronglySorted match_before ms ->
  sentences_ok (Z.of_nat hi) (collect_sentences ms).
Proof.
  induction ms as [|m ms IH]; simpl; intros F S.
  - split; constructor.
  - pose proof (Forall_inv F) as Hm. pose proof (Forall_inv_tail F) as Hms.
    apply StronglySorted_inv in S. destruct S as [Ss Sf].
    destruct (IH Hms Ss) as [F' S'].
    destruct (sentence_of_match m) as [s|] eqn:E; [|split; assumption].
    split.
    + constructor; [|exact F'].
      apply sentence_of_match_fields in E. destruct E as [Es Ee].
      unfold sentence_ok, match_ok in *. lia.
    + constructor; [exact S'|]. eapply collect_before; eassumption.
Qed.

Lemma split_ok (t : str) : sentences_ok (len t) (_split_into_sentences t).
Proof.
  unfold _split_into_sentences.
  destruct (finditer_ok t) as [_ [F S]].
  pose proof (collect_ok _ _ F S) as H.
  destruct (collect_sentences (finditer t)) as [|s l].
  - split.
    + constructor; [|constructor].
      unfold sentence_ok, len. simpl. lia.
    + constructor; constructor.
  - exact H.
Qed.

Lemma sorted_app_inv {A} (R : A -> A -> Prop) (a b : list A) :
  StronglySorted R (a ++ b) ->
  StronglySorted R a /\ StronglySorted R b
  /\ (forall x y, In x a -> In y b -> R x y).
Proof.
  induction a as [|x a IH]; simpl; intros H.
  - repeat split; [constructor | exact H | intros ? ? []].
  - apply StronglySorted_inv in H. destruct H as [Hs Hf].
    destruct (IH Hs) as [Sa [Sb Hab]].
    rewrite Forall_app in Hf. destruct Hf as [Fa Fb].
    repeat split.
    + constructor; assumption.
    + exact Sb.
    + intros u v [Hu|Hu] Hv.
      * subst. rewrite Forall_forall in Fb. auto.
      * auto.
Qed.

Lemma sentences_ok_app (n : Z) (a b : list Sentence) :
  sentences_ok n (a ++ b) -> sentences_ok n a /\ sentences_ok n b.
Proof.
  unfold sentences_ok. intros [F S].
  rewrite Forall_app in F. destruct F as [Fa Fb].
  apply sorted_app_inv in S. destruct S as [Sa [Sb _]].
  repeat split; assumption.
Qed.

Lemma overlap_loop_spec :
  forall rs acc t ov, exists rs1 rs2,
    rs = rs1 ++ rs2 /\ fst (overlap_loop rs acc t ov) = rev rs1 ++ acc.
Proof.
  induction rs as [|s rs IH]; intros acc t ov; simpl.
  - exists [], []. split; reflexivity.
  - destruct (t + s_tokens s >=? ov).
    + exists [s], rs. split; reflexivity.
    + destruct (IH (s :: acc) (t + s_tokens s) ov) as [r1 [r2 [E1 E2]]].
      exists (s :: r1), r2. split.
      * simpl. f_equal. exact E1.
      * rewrite E2. simpl. rewrite <- app_assoc. reflexivity.
Qed.

(** The overlap window is a suffix of the chunk just closed. *)
Lemma apply_overlap_suffix (sentences : list Sentence) (ov : Z) :
  exists pre, sentences = pre ++ fst (_apply_overlap sentences ov).
Proof.
  unfold _apply_overlap.
  destruct (overlap_loop_spec (rev sentences) [] 0 ov) as [r1 [r2 [E1 E2]]].
  exists (rev r2). rewrite E2, app_nil_r.
  rewrite <- rev_app_distr, <- E1, rev_involutive. reflexivity.
Qed.

(** With an overlap of zero tokens the window is still the last sentence
    of the chunk just closed. *)
Lemma apply_overlap_zero (l : list Sentence) (s : Sentence) :
  0 <= s_tokens s -> _apply_overlap (l ++ [s]) 0 = ([s], s_tokens s).
Proof.
  intros H. unfold _apply_overlap. rewrite rev_app_distr. simpl.
  destruct (s_tokens s >=? 0) eqn:E; [reflexivity|].
  rewrite Z.geb_leb in E. apply Z.leb_gt in E. lia.
Qed.

Lemma finalize_ok (n : Z) (l : list Sentence) (i : Z) :
  sentences_ok n l -> l <> [] -> chunk_ok n (_finalize_chunk l i).
Proof.
  intros [F S] Hne. unfold chunk_ok, _finalize_chunk. simpl.
  destruct l as [|x l']; [congruence|].
  destruct (rev (x :: l')) as [|y r] eqn:E.
  - apply (f_equal (@length _)) in E. rewrite length_rev in E. discriminate.
  - assert (E' : x :: l' = rev r ++ [y]).
    { rewrite <- (rev_involutive (x :: l')), E. reflexivity. }
    assert (Hy : sentence_ok n y).
    { rewrite Forall_forall in F. apply F. rewrite E'.
      apply in_or_app. right. left. reflexivity. }
    assert (Hx : sentence_ok n x) by (inversion F; assumption).
    destruct (rev r) as [|x' q] eqn:Er.
    + simpl in E'. inversion E'; subst. unfold sentence_ok in *. lia.
    + simpl in E'. inversion E'; subst x' l'.
      apply StronglySorted_inv in S. destruct S as [_ Sf].
      rewrite Forall_forall in Sf.
      assert (before x y).
      { apply Sf. apply in_or_app. right. left. reflexivity. }
      unfold before, sentence_ok in *. lia.
Qed.

Lemma chunk_step_ok (n cs ov : Z) (st : LoopState) (s : Sentence)
  (rest : list Sentence) :
  sentences_ok n (current st ++ s :: rest) ->
  Forall (chunk_ok n) (chunks st) ->
  sentences_ok n (current (chunk_step cs ov st s) ++ rest)
  /\ Forall (chunk_ok n) (chunks (chunk_step cs ov st s)).
Proof.
  intros Hs Hc. unfold chunk_step.
  destruct (negb (is_empty (current st))
            && (current_tokens st + s_tokens s >? cs)) eqn:B.
  - destruct (_apply_overlap (current st) ov) as [cur toks] eqn:Eo.
    simpl. destruct (apply_overlap_suffix (current st) ov) as [pre Hpre].
    rewrite Eo in Hpre. simpl in Hpre. split.
    + rewrite Hpre, <- app_assoc in Hs.
      apply sentences_ok_app in Hs. destruct Hs as [_ Hs].
      rewrite <- app_assoc. exact Hs.
    + apply Forall_app. split; [exact Hc|]. constructor; [|constructor].
      apply finalize_ok.
      * apply sentences_ok_app in Hs. tauto.
      * destruct (current st); [discriminate B | discriminate].
  - simpl. split; [|exact Hc]. rewrite <- app_assoc. exact Hs.
Qed.

Lemma chunk_fold_ok (n cs ov : Z) :
  forall rest st,
    sentences_ok n (current st ++ rest) ->
    Forall (chunk_ok n) (chunks st) ->
    Forall (chunk_ok n) (chunk_flush (fold_left (chunk_step cs ov) rest st)).
Proof.
  induction rest as [|s rest IH]; intros st Hs Hc; simpl.
  - unfold chunk_flush. rewrite app_nil_r in Hs.
    destruct (current st) eqn:E; simpl; [exact Hc|].
    apply Forall_app. split; [exact Hc|]. constructor; [|constructor].
    apply finalize_ok; [exact Hs | discriminate].
  - destruct (chunk_step_ok n cs ov st s rest Hs Hc) as [Hs' Hc'].
    apply IH; assumption.
Qed.

Lemma chunk_step_current (cs ov : Z) (st : LoopState) (s : Sentence) :
  is_empty (current (chunk_step cs ov st s)) = false.
Proof.
  unfold chunk_step.
  destruct (negb (is_empty (current st))
            && (current_tokens st + s_tokens s >? cs)).
  - destruct (_apply_overlap (current st) ov) as [cur toks]. simpl.
    destruct cur; reflexivity.
  - simpl. destruct (current st); reflexivity.
Qed.

Lemma chunk_step_chunks (cs ov : Z) (st : LoopState) (s : Sentence) :
  (length (chunks (chunk_step cs ov st s))
   <= length (chunks st) + (if is_empty (current st) then 0 else 1))%nat.
Proof.
  unfold chunk_step.
  destruct (current st) as [|x l]; simpl; [lia|].
  destruct (current_tokens st + s_tokens s >? cs).
  - destruct (_apply_overlap (x :: l) ov) as [cur toks]. simpl.
    rewrite length_app. simpl. lia.
  - simpl. lia.
Qed.

Lemma chunk_fold_length (cs ov : Z) :
  forall rest st,
    (length (chunk_flush (fold_left (chunk_step cs ov) rest st))
     <= length (chunks st) + (if is_empty (current st) then 0 else 1)
        + length rest)%nat.
Proof.
  induction rest as [|s rest IH]; intros st; simpl.
  - unfold chunk_flush. destruct (current st); simpl; [lia|].
    rewrite length_app. simpl. lia.
  - specialize (IH (chunk_step cs ov st s)).
    rewrite chunk_step_current in IH.
    pose proof (chunk_step_chunks cs ov st s). lia.
Qed.

End ChunkingFacts.

Example chunk_abc :
  Chunking.chunk (lit "A. B. C.") 512 0
  = [Chunking.mkChunk (lit "A. B. C.") 0 0 8 6].
Proof. vm_compute. reflexivity. Qed.

(** C5, at the input where it fails: with three sentences of two tokens, a
    chunk size of 2 and an overlap of 0, the sentences [A.] and [B.] are each
    in two consecutive chunks, so the chunks in order do not give back the
    sentence sequence. *)
Theorem overlap_zero_repeats_sentences :
  map Chunking.s_text (Chunking._split_into_sentences (lit "A. B. C."))
  = [lit "A."; lit "B."; lit "C."]
  /\ map Chunking.text (Chunking.chunk (lit "A. B. C.") 2 0)
     = [lit "A."; lit "A. B."; lit "B. C."].
Proof. split; vm_compute; reflexivity. Qed.

(** C6: for every text and parameters, every chunk [chunk] returns has
    [0 <= start_char <= end_char <= len(text)]. *)
Theorem chunk_offsets_within_text (t : str) (chunk_size overlap : Z) :
  Forall
    (fun c =>
       0 <= Chunking.start_char c
       /\ Chunking.start_char c <= Chunking.end_char c
       /\ Chunking.end_char c <= len t)
    (Chunking.chunk t chunk_size overlap).
Proof.
  unfold Chunking.chunk. destruct t as [|c0 t0]; [constructor|].
  apply (ChunkingFacts.chunk_fold_ok (len (c0 :: t0)) chunk_size overlap).
  - simpl. apply ChunkingFacts.split_ok.
  - constructor.
Qed.

(** C9: [chunk] ends on every text and every parameter pair.  Its loops run
    over finite lists; the scan of the sentence pattern ends within
    [len(text)] searches; the overlap window is no longer than the chunk just
    closed, whatever the overlap; there are no more chunks than sentences.
    The empty text gives no chunk, and a text of one sentence gives that
    sentence whole as its only chunk, whatever the chunk size. *)
Theorem chunk_terminates (t : str) (chunk_size overlap : Z) :
  Chunking.finditer_fuel (length t) 0 t = Some (Chunking.finditer t)
  /\ (forall closed : list Chunking.Sentence,
        (length (fst (Chunking._apply_overlap closed overlap))
         <= length closed)%nat)
  /\ (length (Chunking.chunk t chunk_size overlap)
      <= length (Chunking._split_into_sentences t))%nat
  /\ Chunking.chunk [] chunk_size overlap = []
  /\ (forall s : Chunking.Sentence,
        t <> [] -> Chunking._split_into_sentences t = [s] ->
        Chunking.chunk t chunk_size overlap
        = [Chunking.mkChunk (strip (Chunking.s_text s)) 0
             (Chunking.s_start s) (Chunking.s_end s) (Chunking.s_tokens s)]).
Proof.
  split; [apply ChunkingFacts.finditer_ok|].
  split.
  { intros closed.
    destruct (ChunkingFacts.apply_overlap_suffix closed overlap) as [pre H].
    rewrite H at 2. rewrite length_app. lia. }
  split.
  { unfold Chunking.chunk. destruct t as [|c0 t0]; [simpl; lia|].
    pose proof (ChunkingFacts.chunk_fold_length chunk_size overlap
                  (Chunking._split_into_sentences (c0 :: t0))
                  (Chunking.mkLoop [] [] 0)) as H.
    simpl in H. exact H. }
  split; [reflexivity|].
  intros s Hne Hs. unfold Chunking.chunk.
  destruct t as [|c0 t0]; [congruence|].
  rewrite Hs. reflexivity.
Qed.

(** A sentence of three tokens and a chunk size of one. *)
Lemma chunk_terminates_witness :
  Chunking.chunk (lit "Hello world.") 1 50
  = [Chunking.mkChunk (lit "Hello world.") 0 0 12 3].
Proof.
  apply (proj2 (proj2 (proj2 (proj2
           (chunk_terminates (lit "Hello world.") 1 50))))
           (Chunking.mkSentence (lit "Hello world.") 0 12 3)).
  - discriminate.
  - vm_compute. reflexivity.
Defined.

(** ** Strings and the monad *)

Lemma str_eqb_refl (a : str) : str_eqb a a = true.
Proof.
  induction a as [|x a IH]; simpl; [reflexivity|].
  rewrite Ascii.eqb_refl. exact IH.
Qed.

Lemma str_eqb_eq (a b : str) : str_eqb a b = true <-> a = b.
Proof.
  split.
  - revert b. induction a as [|x a IH]; intros [|y b]; simpl;
      try discriminate; [reflexivity|].
    intros H. apply andb_prop in H. destruct H as [Hx Hab].
    apply Ascii.eqb_eq in Hx. subst. f_equal. apply IH. exact Hab.
  - intros ->. apply str_eqb_refl.
Qed.

Lemma bind_run {A B} (m : M A) (k : A -> M B) (w : World) :
  bind m k w
  = match m w with
    | (Ok a, w') => k a w'
    | (Raise e, w') => (Raise e, w')
    end.
Proof. reflexivity. Qed.

Lemma try_except_run {A} (m : M A) (h : exn -> M A) (w : World) :
  try_except m h w
  = match m w with
    | (Ok a, w') => (Ok a, w')
    | (Raise e, w') => h e w'
    end.
Proof. reflexivity. Qed.

(** ** The parser and the two hashes *)

Module ParserFacts.
Section WithExternals.
Variable ext : Externals.

Lemma read_shrinks (handle : list byte) (n : Z) (b : byte)
  (chunk handle' : list byte) :
  Parser.read handle n = (b :: chunk, handle') ->
  (length handle' < length handle)%nat.
Proof.
  unfold Parser.read. destruct (n <? 0).
  - intros H. inversion H; subst. simpl. lia.
  - intros H. inversion H as [[Hc Hh]].
    destruct handle as [|x handle0].
    + rewrite firstn_nil in Hc. discriminate.
    + destruct (Z.to_nat n) as [|k]; [discriminate|].
      simpl. pose proof (length_skipn k handle0). lia.
Qed.

(** The loop of [_compute_hash] ends: one read for each block and one
    more. *)
Lemma hash_loop_some :
  forall fuel digest handle n,
    (length handle < fuel)%nat ->
    exists d, Parser.hash_loop ext fuel digest handle n = Some d.
Proof.
  induction fuel as [|f IH]; intros digest handle n Hlt; [lia|].
  simpl. destruct (Parser.read handle n) as [chunk handle'] eqn:E.
  destruct chunk as [|b chunk]; [eexists; reflexivity|].
  apply read_shrinks in E. apply IH. lia.
Qed.

Lemma loops_agree :
  forall fuel digest handle n,
    Parser.hash_loop ext fuel digest handle n
    = Indexer.file_hash_loop ext fuel digest handle n.
Proof.
  induction fuel as [|f IH]; intros digest handle n; [reflexivity|].
  simpl. change (Indexer.read handle n) with (Parser.read handle n).
  destruct (Parser.read handle n) as [chunk handle'].
  destruct chunk; [reflexivity | apply IH].
Qed.

Lemma hash_bytes_agree (content : list byte) (n : Z) :
  Parser.hash_bytes ext content n = Indexer.file_hash_bytes ext content n.
Proof.
  unfold Parser.hash_bytes, Indexer.file_hash_bytes.
  rewrite loops_agree. reflexivity.
Qed.

Lemma parse_run (w : World) (path : str) :
  Parser.parse ext path w
  = let w1 := set_calls (calls w ++ [CParse path]) w in
    match fs_lookup (fs w) path with
    | None =>
        (Raise (mkExn FileNotFoundError (lit "File not found: " ++ path)), w1)
    | Some Dir => (Raise (mkExn OSError (lit "Is a directory: " ++ path)), w1)
    | Some (File content) =>
        let suffix := lower (path_suffix path) in
        let wrap (r : result (list str)) :=
          match r with
          | Ok pages =>
              (Ok pages,
               set_last_file_hash (Some (Parser.hash_bytes ext content 8192))
                 w1)
          | Raise exc =>
              (Raise
                 match e_class exc with
                 | FileNotFoundError | ValueError => exc
                 | _ =>
                     mkExn RuntimeError (lit "Failed to parse file " ++ path)
                 end, w1)
          end in
        if str_eqb suffix (lit ".pdf")
        then wrap match PdfReader ext content with
                  | Raise e => Raise e
                  | Ok reader_pages =>
                      Ok (map (fun r => strip (Parser.page_text r))
                            reader_pages)
                  end
        else if str_eqb suffix (lit ".txt") || str_eqb suffix (lit ".md")
        then wrap (Ok (if is_empty (utf8_ignore ext content) then []
                       else Parser._split_text (utf8_ignore ext content)
                              3000))
        else wrap (Raise (mkExn ValueError
                            (lit "Unsupported file type: " ++ suffix)))
    end.
Proof.
  unfold Parser.parse, Parser._compute_hash, Parser._parse_pdf,
    Parser._parse_text_file, Parser.open_rb, record_call.
  rewrite bind_run. unfold modify at 1. cbv beta iota.
  rewrite bind_run. unfold get at 1. cbv beta iota.
  change (fs (set_calls (calls w ++ [CParse path]) w)) with (fs w).
  destruct (fs_lookup (fs w) path) as [[content|]|] eqn:E;
    [| |reflexivity].
  - cbv zeta.
    unfold bind, try_except, get, ret, raise, modify.
    cbn [fs set_calls]. rewrite E.
    destruct (str_eqb (lower (path_suffix path)) (lit ".pdf")).
    + cbn [fs set_calls]. rewrite E.
      destruct (PdfReader ext content) as [pages|e]; [reflexivity|].
      destruct (e_class e); reflexivity.
    + destruct (str_eqb (lower (path_suffix path)) (lit ".txt")
                || str_eqb (lower (path_suffix path)) (lit ".md")).
      * cbn [fs set_calls]. rewrite E.
        destruct (is_empty (utf8_ignore ext content)); reflexivity.
      * reflexivity.
  - unfold bind, get, raise. cbn [fs set_calls]. rewrite E. reflexivity.
Qed.

End WithExternals.
End ParserFacts.

(** C7 as it is stated fails on a directory and on a fault of the PDF
    reader of class [ValueError].  For the directory [archive], which has
    no supported extension, [parse] raises neither the not-found error nor
    the validation error nor a runtime error: the hash is computed before
    the extension is looked at, outside the [try] block, and the [OSError]
    of opening a directory goes through.  And when the reader raises a
    [ValueError] on a PDF, [parse] raises that same error, not a
    [RuntimeError]. *)
Lemma parse_lets_faults_through :
  (exists e,
     fst (Parser.parse Scenario.ext Scenario.archive Scenario.pdf_world)
     = Raise e
     /\ e_class e = OSError)
  /\ Scenario.PdfReader_fault (Scenario.bytes_of (lit "axb"))
     = Raise Scenario.reader_error
  /\ fst (Parser.parse Scenario.ext_fault Scenario.d_pdf Scenario.pdf_world)
     = Raise Scenario.reader_error
  /\ e_class Scenario.reader_error = ValueError.
Proof.
  split.
  { eexists. split; vm_compute; reflexivity. }
  split; [reflexivity|]. split; [vm_compute; reflexivity|reflexivity].
Qed.

(** C7, as the code has it: [parse] raises [FileNotFoundError] for a missing
    file and, for a regular file whose extension, in lower case, is none
    of [.pdf], [.txt], [.md], [ValueError]; for a directory it raises the
    [OSError] of opening it.  A fault of the PDF reader of class
    [FileNotFoundError] or [ValueError] is raised again as it is, and a
    fault of any other class as a [RuntimeError].  When the reader opens
    the PDF, [parse] returns one text for each page, the empty string for a
    page whose extraction failed and the stripped text for the others. *)
Theorem parse_error_taxonomy (ext : Externals) (w : World) (path : str) :
  (fs_lookup (fs w) path = None ->
   exists e, fst (Parser.parse ext path w) = Raise e
             /\ e_class e = FileNotFoundError)
  /\ (forall content,
        fs_lookup (fs w) path = Some (File content) ->
        existsb (str_eqb (lower (path_suffix path)))
          [lit ".pdf"; lit ".txt"; lit ".md"] = false ->
        exists e, fst (Parser.parse ext path w) = Raise e
                  /\ e_class e = ValueError)
  /\ (fs_lookup (fs w) path = Some Dir ->
      exists e, fst (Parser.parse ext path w) = Raise e
                /\ e_class e = OSError)
  /\ (forall content e,
        fs_lookup (fs w) path = Some (File content) ->
        lower (path_suffix path) = lit ".pdf" ->
        PdfReader ext content = Raise e ->
        (e_class e = FileNotFoundError \/ e_class e = ValueError ->
         fst (Parser.parse ext path w) = Raise e)
        /\ (e_class e <> FileNotFoundError -> e_class e <> ValueError ->
            exists e', fst (Parser.parse ext path w) = Raise e'
                       /\ e_class e' = RuntimeError))
  /\ (forall content reader_pages,
        fs_lookup (fs w) path = Some (File content) ->
        lower (path_suffix path) = lit ".pdf" ->
        PdfReader ext content = Ok reader_pages ->
        fst (Parser.parse ext path w)
        = Ok (map (fun r => match r with
                            | Ok (Some t) => strip t
                            | Ok None | Raise _ => []
                            end) reader_pages)).
Proof.
  rewrite ParserFacts.parse_run. cbv zeta.
  split; [|split; [|split; [|split]]].
  - intros E. rewrite E. eexists. split; reflexivity.
  - intros content E Hsuffix. rewrite E.
    cbn [existsb] in Hsuffix. rewrite orb_false_r in Hsuffix.
    apply orb_false_elim in Hsuffix. destruct Hsuffix as [Hpdf Hrest].
    rewrite Hpdf, Hrest. eexists. split; reflexivity.
  - intros E. rewrite E. eexists. split; reflexivity.
  - intros content e E Hsuffix Hreader. rewrite E, Hsuffix.
    change (str_eqb (lit ".pdf") (lit ".pdf")) with true. cbv iota.
    rewrite Hreader. split.
    + intros [Hc|Hc]; rewrite Hc; reflexivity.
    + intros Hnf Hnv.
      destruct (e_class e) eqn:Hc; try congruence;
        (eexists; split; [reflexivity|reflexivity]).
  - intros content reader_pages E Hsuffix Hreader. rewrite E, Hsuffix.
    change (str_eqb (lit ".pdf") (lit ".pdf")) with true. cbv iota.
    rewrite Hreader. simpl. f_equal. apply map_ext.
    intros [[t|]|e]; reflexivity.
Qed.

(** A PDF of three pages whose second page cannot be extracted: three
    texts, the second one empty. *)
Lemma parse_error_taxonomy_witness :
  fst (Parser.parse Scenario.ext Scenario.d_pdf Scenario.pdf_world)
  = Ok [lit "a."; []; lit "b."].
Proof.
  apply (proj2 (proj2 (proj2 (proj2
           (parse_error_taxonomy Scenario.ext Scenario.pdf_world
              Scenario.d_pdf))))
           (Scenario.bytes_of (lit "axb"))
           [Ok (Some (lit "a.")); Raise (mkExn OtherError (lit "bad page"));
            Ok (Some (lit "b."))]).
  - vm_compute. reflexivity.
  - vm_compute. reflexivity.
  - vm_compute. reflexivity.
Defined.

Example parse_missing_file :
  fst (Parser.parse Scenario.ext (lit "/nowhere.txt") Scenario.pdf_world)
  = Raise (mkExn FileNotFoundError (lit "File not found: /nowhere.txt")).
Proof. vm_compute. reflexivity. Qed.

Example parse_unsupported_file :
  fst (Parser.parse Scenario.ext Scenario.c_docx Scenario.folder)
  = Raise (mkExn ValueError (lit "Unsupported file type: .docx")).
Proof. vm_compute. reflexivity. Qed.

Example parse_unreadable_pdf :
  fst (Parser.parse Scenario.ext (lit "/data/bases/kb/documents/e.pdf")
         Scenario.pdf_world)
  = Raise (mkExn RuntimeError
             (lit "Failed to parse file /data/bases/kb/documents/e.pdf")).
Proof. vm_compute. reflexivity. Qed.

(** C10: on every file content the loop of [DocumentParser._compute_hash]
    and the loop of [DocumentIndexer._compute_file_hash], both over blocks
    of 8192 bytes, end with the same digest, so the two functions return the
    same hex digest; and the hash a successful [parse] records is the hash
    the indexer computes for the file. *)
Theorem hash_implementations_agree (ext : Externals) (content : list byte) :
  (exists d,
     Parser.hash_loop ext (S (length content)) (sha256 ext) content 8192
     = Some d
     /\ Indexer.file_hash_loop ext (S (length content)) (sha256 ext) content
          8192 = Some d)
  /\ Parser.hash_bytes ext content 8192
     = Indexer.file_hash_bytes ext content 8192
  /\ (forall (w : World) (path : str),
        fs_lookup (fs w) path = Some (File content) ->
        fst (Parser._compute_hash ext path 8192 w)
        = fst (Indexer._compute_file_hash ext path 8192 w)
        /\ forall pages w',
             Parser.parse ext path w = (Ok pages, w') ->
             last_file_hash w'
             = Some (Indexer.file_hash_bytes ext content 8192)).
Proof.
  split; [|split].
  - destruct (ParserFacts.hash_loop_some ext (S (length content))
                (sha256 ext) content 8192) as [d Hd]; [lia|].
    exists d. split; [exact Hd|].
    rewrite <- ParserFacts.loops_agree. exact Hd.
  - apply ParserFacts.hash_bytes_agree.
  - intros w path E. split.
    + unfold Parser._compute_hash, Parser.open_rb,
        Indexer._compute_file_hash, bind, get, ret.
      rewrite E. cbv beta iota. cbn [fst].
      rewrite ParserFacts.hash_bytes_agree. reflexivity.
    + intros pages w'. rewrite ParserFacts.parse_run. cbv zeta. rewrite E.
      pose proof (ParserFacts.hash_bytes_agree ext content 8192) as Hh.
      set (hp := Parser.hash_bytes ext content 8192) in *.
      set (hi := Indexer.file_hash_bytes ext content 8192) in *.
      clearbody hp hi. subst hi.
      destruct (str_eqb (lower (path_suffix path)) (lit ".pdf")).
      * destruct (PdfReader ext content); intros H; inversion H.
        reflexivity.
      * destruct (str_eqb (lower (path_suffix path)) (lit ".txt")
                  || str_eqb (lower (path_suffix path)) (lit ".md"));
          intros H; inversion H. reflexivity.
Qed.

(** The note [a.txt]: both functions return the same digest. *)
Lemma hash_implementations_agree_witness :
  fst (Parser._compute_hash Scenario.ext Scenario.a_txt 8192
         Scenario.small_world)
  = fst (Indexer._compute_file_hash Scenario.ext Scenario.a_txt 8192
           Scenario.small_world).
Proof.
  apply (proj2 (proj2
           (hash_implementations_agree Scenario.ext
              (Scenario.bytes_of Scenario.short_text)))
           Scenario.small_world Scenario.a_txt).
  vm_compute. reflexivity.
Defined.

(** ** The indexer *)

Section Post.
Import IndexerSpec.
Variable R : World -> World -> Prop.
Hypothesis R_refl : forall w, R w w.
Hypothesis R_trans : forall a b c, R a b -> R b c -> R a c.

Lemma post_ret {A} (Q : A -> Prop) (a : A) : Q a -> post R Q (ret a).
Proof.
  intros H w. split; [apply R_refl|]. simpl. intros b E.
  inversion E; subst. exact H.
Qed.

Lemma post_raise {A} (Q : A -> Prop) (e : exn) : post R Q (raise e).
Proof. intros w. split; [apply R_refl|]. simpl. discriminate. Qed.

Lemma post_get {A} (f : World -> A) : post R any (get f).
Proof. intros w. split; [apply R_refl|]. intros; exact I. Qed.

Lemma post_step {A} (m : M A) :
  (forall w, R w (snd (m w))) -> post R any m.
Proof. intros H w. split; [apply H|]. intros; exact I. Qed.

Lemma post_bind {A B} (Q' : A -> Prop) (Q : B -> Prop) (m : M A)
  (k : A -> M B) :
  post R Q' m -> (forall a, Q' a -> post R Q (k a)) -> post R Q (bind m k).
Proof.
  intros Hm Hk w. unfold bind. destruct (Hm w) as [H1 H2].
  destruct (m w) as [[a|e] w1] eqn:E; simpl in *.
  - destruct (Hk a (H2 a eq_refl) w1) as [H3 H4].
    split; [eapply R_trans; eassumption | exact H4].
  - split; [exact H1 | discriminate].
Qed.

Lemma post_try {A} (Q : A -> Prop) (m : M A) (h : exn -> M A) :
  post R Q m -> (forall e, post R Q (h e)) -> post R Q (try_except m h).
Proof.
  intros Hm Hh w. unfold try_except. destruct (Hm w) as [H1 H2].
  destruct (m w) as [[a|e] w1] eqn:E; simpl in *.
  - split; [exact H1 | exact H2].
  - destruct (Hh e w1) as [H3 H4].
    split; [eapply R_trans; eassumption | exact H4].
Qed.

End Post.

(** ** The tables *)

Module DatabaseFacts.
Import Database.

Lemma next_id_above (ids : list Z) : Forall (fun i => i < next_id ids) ids.
Proof.
  unfold next_id. induction ids as [|i ids IH]; cbn [fold_right];
    constructor.
  - lia.
  - eapply Forall_impl; [|exact IH]. cbv beta. intros a Ha. lia.
Qed.

Lemma existsb_has_id_below (n : Z) (rows : list Document) :
  Forall (fun r => id r < n) rows -> existsb (has_id n) rows = false.
Proof.
  induction 1 as [|r rows Hr _ IH]; simpl; [reflexivity|].
  rewrite IH, orb_false_r. unfold has_id. apply Z.eqb_neq. lia.
Qed.

Lemma next_id_fresh (rows : list Document) :
  existsb (has_id (next_id (map id rows))) rows = false.
Proof.
  apply existsb_has_id_below. rewrite <- Forall_map with (f := id)
    (P := fun i => i < next_id (map id rows)).
  apply next_id_above.
Qed.

Lemma first_by_path_app_new (p : str) (d : Document) (rows : list Document) :
  first_by_path p rows = None -> path d = p ->
  first_by_path p (rows ++ [d]) = Some d.
Proof.
  unfold first_by_path. intros Hn Hp.
  induction rows as [|r rows IH]; simpl in *.
  - rewrite Hp, str_eqb_refl. reflexivity.
  - destruct (str_eqb (path r) p); [discriminate|]. apply IH, Hn.
Qed.

Lemma first_by_path_replace (p : str) (d d0 : Document)
  (rows : list Document) :
  first_by_path p rows = Some d0 -> id d0 = id d -> path d = p ->
  first_by_path p (map (fun r => if has_id (id d) r then d else r) rows)
  = Some d.
Proof.
  unfold first_by_path. intros H0 Hid Hp.
  induction rows as [|r rows IH]; simpl in *; [discriminate|].
  destruct (has_id (id d) r) eqn:Hr.
  - rewrite Hp, str_eqb_refl. reflexivity.
  - destruct (str_eqb (path r) p) eqn:Hrp.
    + inversion H0; subst r. unfold has_id in Hr.
      apply Z.eqb_neq in Hr. congruence.
    + apply IH, H0.
Qed.

Lemma first_by_path_in (p : str) (d : Document) (rows : list Document) :
  first_by_path p rows = Some d -> In d rows /\ path d = p.
Proof.
  unfold first_by_path. intros H. apply find_some in H.
  destruct H as [Hin Hp]. apply str_eqb_eq in Hp. split; assumption.
Qed.

(** Saving a record under the id of the stored record of its path, or
    under a new id when the path has no record, makes it the stored record
    of the path. *)
Lemma first_by_path_save (p : str) (d : Document) (rows : list Document) :
  path d = p ->
  match first_by_path p rows with
  | Some d0 => id d = id d0
  | None => id d = next_id (map id rows)
  end ->
  first_by_path p (save_document d rows) = Some d.
Proof.
  intros Hp H. unfold save_document.
  destruct (first_by_path p rows) as [d0|] eqn:E.
  - destruct (first_by_path_in _ _ _ E) as [Hin _].
    assert (Hex : existsb (has_id (id d)) rows = true).
    { apply existsb_exists. exists d0. split; [exact Hin|].
      unfold has_id. apply Z.eqb_eq. congruence. }
    rewrite Hex. eapply first_by_path_replace; [exact E|congruence|exact Hp].
  - rewrite H, next_id_fresh. apply first_by_path_app_new; assumption.
Qed.

Lemma pages_of_deleted (db : DB) (i : Z) :
  pages_of (apply_write db (DeletePages i)) i = [].
Proof.
  unfold pages_of. simpl.
  induction (pages db) as [|p ps IH]; simpl; [reflexivity|].
  destruct (document_id p =? i) eqn:E; simpl; [exact IH|].
  rewrite E. exact IH.
Qed.

Lemma flush_pages_documents (i : Z) :
  forall (entries : list (Z * str)) (db : DB),
    documents
      (flush db (map (fun '(n, c) => AddPage i n c (len c)) entries))
    = documents db.
Proof.
  induction entries as [|[n c] entries IH]; intros db; [reflexivity|].
  change (documents
            (flush (apply_write db (AddPage i n c (len c)))
               (map (fun '(n, c) => AddPage i n c (len c)) entries))
          = documents db).
  rewrite IH. reflexivity.
Qed.

Lemma flush_pages_of (i : Z) :
  forall (entries : list (Z * str)) (db : DB),
    exists added,
      pages_of
        (flush db (map (fun '(n, c) => AddPage i n c (len c)) entries)) i
      = pages_of db i ++ added
      /\ map content added = map snd entries
      /\ map page_num added = map fst entries.
Proof.
  induction entries as [|[n c] entries IH]; intros db.
  - exists []. rewrite app_nil_r. repeat split.
  - destruct (IH (apply_write db (AddPage i n c (len c))))
      as [added [H1 [H2 H3]]].
    exists (mkPage (next_id (map page_id (pages db))) i n c (len c) :: added).
    change (flush db
              (map (fun '(n, c) => AddPage i n c (len c))
                 ((n, c) :: entries)))
      with (flush (apply_write db (AddPage i n c (len c)))
              (map (fun '(n, c) => AddPage i n c (len c)) entries)).
    rewrite H1. split.
    + unfold pages_of. cbn [apply_write pages]. rewrite filter_app.
      cbn [filter document_id]. rewrite Z.eqb_refl.
      rewrite <- app_assoc. reflexivity.
    + cbn [map content page_num fst snd]. split; f_equal; assumption.
Qed.

Lemma enumerate_snd {A} (l : list A) :
  forall start, map snd (Indexer.enumerate start l) = l.
Proof.
  induction l as [|x l IH]; intros start; simpl; [reflexivity|].
  f_equal. apply IH.
Qed.

End DatabaseFacts.

Lemma at_base_same {A} (f : str -> A) (b : str) (v : A) :
  at_base f b v b = v.
Proof. unfold at_base. rewrite str_eqb_refl. reflexivity. Qed.

Module IndexerFacts.
Import Database Indexer IndexerSpec.
Section WithExternals.
Variable ext : Externals.

Lemma get_or_create_run (path base h : str) (w : World) :
  _get_or_create_document path base h w
  = match stored w base path with
    | Some d =>
        if up_to_date d h then (Ok d, w)
        else
          let document :=
            mkDocument (id d) (path_name path) path base None h (clock w) in
          (Ok document,
           snd (commit base [AddDocument document]
                  (set_clock (clock w + 1) w)))
    | None =>
        let document :=
          mkDocument (next_id (map id (documents (dbs w base))))
            (path_name path) path base None h (clock w) in
        (Ok document,
         snd (commit base [AddDocument document]
                (set_clock (clock w + 1) w)))
    end.
Proof.
  unfold _get_or_create_document, stored, bind, get.
  destruct (first_by_path path (documents (dbs w base))) as [d|];
    [destruct (up_to_date d h)|]; reflexivity.
Qed.

(** [index_document] on a file that is there, phase by phase. *)
Lemma index_document_run (self : DocumentIndexer) (path base : str)
  (cb : option ProgressCallback) (w : World) (content : list byte) :
  fs_lookup (fs w) path = Some (File content) ->
  index_document ext self path base cb w
  = let callback := or_else cb (progress_callback self) in
    let emit := _progress_emitter callback in
    let h := file_hash_bytes ext content 8192 in
    match _get_or_create_document path base h (started callback path w) with
    | (Raise e, wa) => (Raise e, wa)
    | (Ok document, wa) =>
        if up_to_date document h
        then
          (Ok document,
           snd (emit (lit "No changes detected for " ++ path_name path
                      ++ lit ". Skipping.") (Some 1.0%float) wa))
        else
          match Parser.parse ext path
                  (snd (emit (lit "Parsing document") (Some 0.2%float) wa))
          with
          | (Raise e, wp) => (Raise e, wp)
          | (Ok pages, wp) =>
              match store_phase base callback document pages wp with
              | (Raise e, wd) => (Raise e, wd)
              | (Ok document', wd) =>
                  vector_phase ext self path base callback document' pages wd
              end
          end
    end.
Proof.
  intros Hfs. unfold index_document.
  rewrite bind_run. unfold get at 1. cbv beta iota. rewrite Hfs.
  cbv zeta.
  rewrite bind_run. unfold _progress_emitter at 1, modify at 1.
  cbv beta iota.
  rewrite bind_run. unfold _compute_file_hash at 1.
  rewrite bind_run. unfold get at 1. cbv beta iota.
  cbn [fs set_progress]. rewrite Hfs. unfold ret at 1. cbv beta iota.
  rewrite bind_run. unfold _progress_emitter at 1, modify at 1.
  cbv beta iota.
  rewrite bind_run.
  match goal with
  | |- context [_get_or_create_document path base ?h ?w0] =>
      change w0
        with (started (or_else cb (progress_callback self)) path w)
  end.
  destruct (_get_or_create_document path base
              (file_hash_bytes ext content 8192)
              (started (or_else cb (progress_callback self)) path w))
    as [[document|e] wa]; [|reflexivity].
  destruct (up_to_date document (file_hash_bytes ext content 8192)).
  - reflexivity.
  - rewrite bind_run. unfold _progress_emitter at 1, modify at 1.
    cbv beta iota.
    rewrite bind_run.
    match goal with
    | |- context [Parser.parse ext path ?w0] =>
        change (snd (_progress_emitter (or_else cb (progress_callback self))
                       (lit "Parsing document") (Some 0.2%float) wa))
          with w0;
        destruct (Parser.parse ext path w0) as [[pages|e] wp]
    end; [|reflexivity].
    reflexivity.
Qed.

Lemma parse_frame (path : str) (w : World) :
  let wp := snd (Parser.parse ext path w) in
  fs wp = fs w /\ dbs wp = dbs w /\ collections wp = collections w
  /\ progress wp = progress w /\ clock wp = clock w
  /\ calls wp = calls w ++ [CParse path].
Proof.
  rewrite ParserFacts.parse_run. cbv zeta.
  destruct (fs_lookup (fs w) path) as [[content|]|];
    [|repeat split..].
  destruct (str_eqb (lower (path_suffix path)) (lit ".pdf")).
  - destruct (PdfReader ext content); repeat split.
  - destruct (str_eqb (lower (path_suffix path)) (lit ".txt")
              || str_eqb (lower (path_suffix path)) (lit ".md"));
      repeat split.
Qed.

(** The three commits of the store phase. *)
Lemma store_phase_run (base : str) (cb : option ProgressCallback)
  (document : Document) (pages : list str) (wp : World) :
  let document' :=
    mkDocument (id document) (filename document) (Database.path document)
      (Database.base_name document) (Some (len pages))
      (Database.file_hash document) (clock wp) in
  let dbB := apply_write (dbs wp base) (DeletePages (id document)) in
  let dbC := apply_write dbB (AddDocument document') in
  let dbD := flush dbC (_store_pages (id document) pages) in
  exists wd,
    store_phase base cb document pages wp = (Ok document', wd)
    /\ fs wd = fs wp
    /\ dbs wd base = dbD
    /\ collections wd = collections wp
    /\ calls wd
       = calls wp ++ [CCommit base dbB; CCommit base dbC; CCommit base dbD]
    /\ exists log,
         progress wd = progress wp ++ log
         /\ log = emitted cb (lit "Clearing previous pages")
                    (Some 0.35%float)
                  ++ emitted cb (lit "Storing pages") (Some 0.45%float).
Proof.
  cbv zeta. eexists. split.
  - unfold store_phase, bind, commit, utcnow, _progress_emitter, modify, ret.
    cbn [fs dbs calls clock progress collections uuids last_file_hash
         set_progress set_calls set_dbs set_clock fst snd flush fold_left].
    rewrite !at_base_same. reflexivity.
  - cbn [fs dbs calls clock progress collections uuids last_file_hash
         set_progress set_calls set_dbs set_clock fst snd].
    rewrite !at_base_same. repeat split.
    + rewrite <- !app_assoc. reflexivity.
    + eexists. split; [|reflexivity]. rewrite <- app_assoc. reflexivity.
Qed.

(** What [_get_or_create_document] does when the stored record is not up
    to date: one commit, of a record with the new hash and no page
    count. *)
Lemma get_or_create_stale (path base h : str) (w : World) :
  match stored w base path with
  | Some d => up_to_date d h
  | None => false
  end = false ->
  exists document wa,
    _get_or_create_document path base h w = (Ok document, wa)
    /\ Database.path document = path
    /\ Database.file_hash document = h
    /\ total_pages document = None
    /\ fs wa = fs w
    /\ collections wa = collections w
    /\ progress wa = progress w
    /\ dbs wa base = apply_write (dbs w base) (AddDocument document)
    /\ pages (dbs wa base) = pages (dbs w base)
    /\ first_by_path path (documents (dbs wa base)) = Some document
    /\ calls wa = calls w ++ [CCommit base (dbs wa base)].
Proof.
  intros Hstale. rewrite get_or_create_run. unfold stored in *.
  destruct (first_by_path path (documents (dbs w base))) as [d|] eqn:E.
  - rewrite Hstale. cbv zeta. eexists. eexists. split; [reflexivity|].
    unfold commit.
    cbn [fs dbs calls clock progress collections set_calls set_dbs set_clock
         fst snd flush fold_left Database.path Database.file_hash
         total_pages].
    rewrite !at_base_same. repeat split.
    cbn [apply_write documents].
    apply DatabaseFacts.first_by_path_save; [reflexivity|].
    rewrite E. reflexivity.
  - cbv zeta. eexists. eexists. split; [reflexivity|].
    unfold commit.
    cbn [fs dbs calls clock progress collections set_calls set_dbs set_clock
         fst snd flush fold_left Database.path Database.file_hash
         total_pages].
    rewrite !at_base_same. repeat split.
    cbn [apply_write documents].
    apply DatabaseFacts.first_by_path_save; [reflexivity|].
    rewrite E. reflexivity.
Qed.

Lemma get_or_create_fresh (path base h : str) (w : World) (d : Document) :
  stored w base path = Some d -> up_to_date d h = true ->
  _get_or_create_document path base h w = (Ok d, w).
Proof.
  intros Hs Hu. rewrite get_or_create_run, Hs, Hu. reflexivity.
Qed.

Lemma stored_started (cb : option ProgressCallback) (path p base : str)
  (w : World) :
  stored (started cb p w) base path = stored w base path.
Proof. reflexivity. Qed.

(** [_clear_document_vectors] with the default vector service deletes
    nothing: [QdrantService] has no [delete_document_chunks], and the
    [AttributeError] is handled by doing nothing. *)
Lemma clear_document_vectors_noop (dir : str) (cb0 : option ProgressCallback)
  (base path : str) (w : World) :
  _clear_document_vectors (default_indexer ext dir cb0) base path w
  = (Ok tt, w).
Proof. reflexivity. Qed.

Lemma quiet_log_app (cb : option ProgressCallback)
  (a b : list (str * option float)) :
  quiet_log cb a -> quiet_log cb b -> quiet_log cb (a ++ b).
Proof. intros Ha Hb. apply Forall_app. split; assumption. Qed.

Lemma quiet_log_emitted (cb : option ProgressCallback) (m : str)
  (p : option float) :
  not_failure m -> quiet_log cb (emitted cb m p).
Proof.
  intros Hm. apply Forall_forall. intros e He. exists m, p.
  split; assumption.
Qed.

Lemma ids_kept_same (w w' : World) :
  collections w' = collections w -> ids_kept w w'.
Proof.
  intros H b c i p Hc Hr. exists c, p. rewrite H. split; assumption.
Qed.

Lemma ids_kept_trans (a b c : World) :
  ids_kept a b -> ids_kept b c -> ids_kept a c.
Proof.
  intros Hab Hbc base coll i p Hc Hr.
  destruct (Hab base coll i p Hc Hr) as [c1 [p1 [Hc1 Hr1]]].
  apply (Hbc base c1 i p1 Hc1 Hr1).
Qed.

Lemma retrieve_upsert_point (q : Vectors.Stored) (i : str) :
  forall (c : Vectors.Collection) (p : Vectors.Stored),
    Vectors.retrieve i c = Some p ->
    exists p', Vectors.retrieve i (Vectors.upsert_point q c) = Some p'.
Proof.
  unfold Vectors.retrieve.
  induction c as [|r c IH]; intros p Hr; simpl in *; [discriminate|].
  destruct (str_eqb (Vectors.r_id r) (Vectors.r_id q)) eqn:Erq.
  - simpl. destruct (str_eqb (Vectors.r_id r) i) eqn:Eri.
    + apply str_eqb_eq in Erq. rewrite <- Erq, Eri. eexists; reflexivity.
    + apply str_eqb_eq in Erq. rewrite <- Erq, Eri.
      exists p. exact Hr.
  - simpl. destruct (str_eqb (Vectors.r_id r) i).
    + eexists; reflexivity.
    + apply (IH p Hr).
Qed.

(** An upsert removes no id. *)
Lemma retrieve_upsert (i : str) :
  forall (points : list Vectors.Point) (c : Vectors.Collection)
         (p : Vectors.Stored),
    Vectors.retrieve i c = Some p ->
    exists p', Vectors.retrieve i (Vectors.upsert points c) = Some p'.
Proof.
  unfold Vectors.upsert.
  induction points as [|q points IH]; intros c p Hr; simpl.
  - exists p. exact Hr.
  - destruct (retrieve_upsert_point (Vectors.stored_of q) i c p Hr)
      as [p1 Hp1].
    apply (IH _ p1 Hp1).
Qed.

(** Setting the collection of one base to [c'] keeps the ids when [c']
    holds those of the collection it replaces. *)
Lemma ids_kept_at_base (w w' : World) (base : str)
  (c' : Vectors.Collection) :
  collections w' = at_base (collections w) base (Some c') ->
  (forall c i p, collections w base = Some c ->
                 Vectors.retrieve i c = Some p ->
                 exists p', Vectors.retrieve i c' = Some p') ->
  ids_kept w w'.
Proof.
  intros Hw Hc' b c i p Hc Hr. rewrite Hw. unfold at_base.
  destruct (str_eqb b base) eqn:E.
  - apply str_eqb_eq in E. subst b.
    destruct (Hc' c i p Hc Hr) as [p' Hp']. exists c', p'.
    split; [reflexivity|exact Hp'].
  - exists c, p. split; assumption.
Qed.

Section Tail.
Variable callback : option ProgressCallback.

Lemma tail_frame_refl (w : World) : tail_frame callback w w.
Proof.
  split; [reflexivity|]. split; [reflexivity|]. split; [|split].
  - exists []. rewrite app_nil_r. split; [reflexivity|constructor].
  - exists []. rewrite app_nil_r. split; [reflexivity|constructor].
  - apply ids_kept_same. reflexivity.
Qed.

Lemma tail_frame_trans (a b c : World) :
  tail_frame callback a b -> tail_frame callback b c ->
  tail_frame callback a c.
Proof.
  intros [F1 [D1 [[cs1 [C1 V1]] [[l1 [P1 Q1]] K1]]]]
         [F2 [D2 [[cs2 [C2 V2]] [[l2 [P2 Q2]] K2]]]].
  split; [congruence|]. split; [congruence|]. split; [|split].
  - exists (cs1 ++ cs2). split.
    + rewrite C2, C1, app_assoc. reflexivity.
    + apply Forall_app. split; assumption.
  - exists (l1 ++ l2). split.
    + rewrite P2, P1, app_assoc. reflexivity.
    + apply quiet_log_app; assumption.
  - eapply ids_kept_trans; eassumption.
Qed.

(** A step that only adds calls of the vector phase and keeps the ids. *)
Lemma tail_frame_calls (cs : list call) (w w' : World) :
  Forall vector_call cs ->
  fs w' = fs w -> dbs w' = dbs w -> calls w' = calls w ++ cs ->
  progress w' = progress w -> ids_kept w w' -> tail_frame callback w w'.
Proof.
  intros Hcs Hf Hd Hc Hp Hk. split; [exact Hf|]. split; [exact Hd|].
  split; [|split].
  - exists cs. split; assumption.
  - exists []. rewrite app_nil_r. split; [exact Hp|constructor].
  - exact Hk.
Qed.

(** A step that changes neither files, databases, calls, collections nor
    the log. *)
Lemma tail_frame_same (w w' : World) :
  fs w' = fs w -> dbs w' = dbs w -> calls w' = calls w ->
  progress w' = progress w -> collections w' = collections w ->
  tail_frame callback w w'.
Proof.
  intros Hf Hd Hc Hp Hk.
  apply (tail_frame_calls []); try assumption.
  - constructor.
  - rewrite app_nil_r. exact Hc.
  - apply ids_kept_same. exact Hk.
Qed.

Lemma post_emit (m : str) (p : option float) :
  not_failure m ->
  post (tail_frame callback) any (_progress_emitter callback m p).
Proof.
  intros Hm. apply post_step. intros w.
  split; [reflexivity|]. split; [reflexivity|]. split; [|split].
  - exists []. rewrite app_nil_r. split; [reflexivity|constructor].
  - exists (emitted callback m p). split; [reflexivity|].
    apply quiet_log_emitted. exact Hm.
  - apply ids_kept_same. reflexivity.
Qed.

(** The vector phase of the default indexer touches neither the files nor
    the databases, and returns the document it was given. *)
Lemma vector_phase_post (dir : str) (cb0 : option ProgressCallback)
  (path base : str) (document : Document) (pages : list str) :
  post (tail_frame callback) (fun d => d = document)
    (vector_phase ext (default_indexer ext dir cb0) path base callback
       document pages).
Proof.
  pose proof tail_frame_refl as Hr. pose proof tail_frame_trans as Ht.
  assert (Hclear : post (tail_frame callback) any
                     (_clear_document_vectors (default_indexer ext dir cb0)
                        base path)).
  { unfold _clear_document_vectors. simpl.
    apply post_try; [assumption..| |].
    - apply post_raise; assumption.
    - intros e. destruct (e_class e);
        first [apply post_ret; [assumption..|exact I]
              | apply post_raise; assumption]. }
  assert (Hensure : post (tail_frame callback) any
                      (_ensure_collection (default_indexer ext dir cb0) base)).
  { apply post_step. intros w.
    unfold _ensure_collection, default_indexer, vectordb, get_collection,
      create_collection, VectorDB.QdrantService, try_except,
      VectorDB.client_get_collection, bind, get.
    destruct (collections w base) as [c|] eqn:Ec.
    - apply tail_frame_refl.
    - apply (tail_frame_calls [CCreateCollection base]);
        [constructor; [exact I|constructor]|reflexivity..|].
      apply (ids_kept_at_base _ _ base []); [reflexivity|].
      intros c i p Hc. congruence. }
  assert (Hembed : forall texts,
             post (tail_frame callback) any (Embeddings.embed_texts ext texts)).
  { intros texts. unfold Embeddings.embed_texts.
    eapply post_bind; [assumption..| |].
    - apply post_step. intros w.
      apply (tail_frame_calls [CEmbed texts]);
        [constructor; [exact I|constructor]|reflexivity..|].
      apply ids_kept_same. reflexivity.
    - intros _ _. destruct (is_empty texts).
      + apply post_ret; [assumption..|exact I].
      + destruct (model_embed ext texts);
          [apply post_ret; [assumption..|exact I]
          |apply post_raise; assumption]. }
  assert (Hadd : forall chunks embeddings metadata,
             post (tail_frame callback) any
               (VectorDB.add_documents ext base chunks embeddings
                  metadata)).
  { intros chunks embeddings metadata. unfold VectorDB.add_documents.
    destruct (negb _); [apply post_raise; assumption|].
    eapply post_bind; [assumption..|apply post_get; assumption|].
    intros n _.
    destruct (VectorDB.build_points ext n chunks embeddings metadata)
      as [points n'].
    eapply post_bind; [assumption..| |].
    { apply post_step. intros w. apply tail_frame_same; reflexivity. }
    intros _ _.
    apply post_step. intros w.
    unfold VectorDB.client_upsert, record_call, bind, get, modify, raise,
      ret.
    cbn [collections set_calls].
    destruct (collections w base) as [coll|] eqn:Ec.
    - assert (Hkept : forall taken c i p,
                 Some coll = Some c -> Vectors.retrieve i c = Some p ->
                 exists p',
                   Vectors.retrieve i (Vectors.upsert taken coll) = Some p').
      { intros taken c i p Hc0 Hr0. inversion Hc0; subst c.
        apply (retrieve_upsert i taken coll p Hr0). }
      destruct (upsert_fault ext points) as [[taken e]|];
        cbn [snd];
        (apply (tail_frame_calls [CUpsert base (map Vectors.p_id points)]);
         [constructor; [exact I|constructor]|reflexivity..|]).
      + apply (ids_kept_at_base _ _ base
                 (Vectors.upsert (firstn taken points) coll));
          [reflexivity|].
        intros c i p Hc0. rewrite Ec in Hc0. apply Hkept. exact Hc0.
      + apply (ids_kept_at_base _ _ base (Vectors.upsert points coll));
          [reflexivity|].
        intros c i p Hc0. rewrite Ec in Hc0. apply Hkept. exact Hc0.
    - cbn [snd].
      apply (tail_frame_calls [CUpsert base (map Vectors.p_id points)]);
        [constructor; [exact I|constructor]|reflexivity..|].
      apply ids_kept_same. reflexivity. }
  assert (Hchunk : post (tail_frame callback) any
                     (_chunk_pages path (id document) pages)).
  { unfold _chunk_pages.
    eapply post_bind; [assumption..| |].
    - apply post_step. intros w.
      apply (tail_frame_calls (map CChunk pages));
        [|reflexivity..|apply ids_kept_same; reflexivity].
      apply Forall_forall. intros c Hc.
      apply in_map_iff in Hc. destruct Hc as [x [<- _]]. exact I.
    - intros _ _. apply post_ret; [assumption..|exact I]. }
  unfold vector_phase.
  eapply post_bind; [assumption..|apply post_emit; reflexivity|].
  intros _ _.
  eapply post_bind; [assumption..|apply Hchunk|].
  intros [chunks metadata] _.
  eapply post_bind; [assumption..|apply Hensure|]. intros _ _.
  destruct (is_empty chunks).
  - eapply post_bind; [assumption..|apply post_emit; reflexivity|].
    intros _ _.
    eapply post_bind; [assumption..|apply Hclear|]. intros _ _.
    eapply post_bind; [assumption..|apply post_emit; reflexivity|].
    intros _ _.
    apply post_ret; [assumption..|reflexivity].
  - eapply post_bind; [assumption..|apply post_emit; reflexivity|].
    intros _ _.
    eapply post_bind; [assumption..|apply Hembed|]. intros embeddings _.
    eapply post_bind; [assumption..|apply post_emit; reflexivity|].
    intros _ _.
    eapply post_bind; [assumption..|apply Hclear|]. intros _ _.
    eapply post_bind; [assumption..|apply Hadd|]. intros _ _.
    eapply post_bind; [assumption..|apply post_emit; reflexivity|].
    intros _ _.
    apply post_ret; [assumption..|reflexivity].
Qed.

End Tail.

Lemma index_document_missing (self : DocumentIndexer) (path base : str)
  (cb : option ProgressCallback) (w : World) :
  (forall content, fs_lookup (fs w) path <> Some (File content)) ->
  index_document ext self path base cb w
  = (Raise (mkExn FileNotFoundError (lit "File not found: " ++ path)), w).
Proof.
  intros H. unfold index_document, bind, get.
  destruct (fs_lookup (fs w) path) as [[content|]|]; try reflexivity.
  exfalso. apply (H content). reflexivity.
Qed.

(** A run that skips: nothing is called and only the progress log
    changes. *)
Lemma skip_run (self : DocumentIndexer) (path base : str)
  (cb : option ProgressCallback) (w : World) (content : list byte)
  (d : Document) :
  fs_lookup (fs w) path = Some (File content) ->
  stored w base path = Some d ->
  up_to_date d (file_hash_bytes ext content 8192) = true ->
  let run := index_document ext self path base cb w in
  fst run = Ok d /\ fs (snd run) = fs w /\ dbs (snd run) = dbs w
  /\ collections (snd run) = collections w /\ calls (snd run) = calls w
  /\ exists log,
       progress (snd run) = progress w ++ log
       /\ quiet_log (or_else cb (progress_callback self)) log.
Proof.
  intros Hfs Hs Hu. cbv zeta. rewrite (index_document_run _ _ _ _ _ _ Hfs).
  cbv zeta. rewrite (get_or_create_fresh _ _ _ _ d); [|exact Hs|exact Hu].
  rewrite Hu.
  split; [reflexivity|]. split; [reflexivity|]. split; [reflexivity|].
  split; [reflexivity|]. split; [reflexivity|].
  eexists. split.
  - unfold _progress_emitter, modify, started.
    cbn [snd progress set_progress]. rewrite <- !app_assoc. reflexivity.
  - repeat apply quiet_log_app; apply quiet_log_emitted; reflexivity.
Qed.

(** A run that does not skip, with the default vector service: the commit
    of the record with the new hash and no page count, the call of the
    parser and, when the parser returns, the three commits of the store
    phase and then calls of the vector phase only. *)
Lemma reindex_run (dir : str) (cb0 cb : option ProgressCallback)
  (path base : str) (w : World) (content : list byte) :
  fs_lookup (fs w) path = Some (File content) ->
  unchanged ext w base path content = false ->
  let h := file_hash_bytes ext content 8192 in
  let run :=
    index_document ext (default_indexer ext dir cb0) path base cb w in
  exists document,
    let dbA := apply_write (dbs w base) (AddDocument document) in
    Database.path document = path
    /\ Database.file_hash document = h
    /\ total_pages document = None
    /\ first_by_path path (documents dbA) = Some document
    /\ (fs (snd run) = fs w
        /\ (exists log,
              progress (snd run) = progress w ++ log
              /\ quiet_log (or_else cb cb0) log)
        /\ ids_kept w (snd run))
    /\ ((exists e,
           fst run = Raise e
           /\ calls (snd run) = calls w ++ [CCommit base dbA; CParse path]
           /\ dbs (snd run) base = dbA)
        \/ (exists pages now cs,
              let document' :=
                mkDocument (id document) (filename document)
                  (Database.path document) (Database.base_name document)
                  (Some (len pages)) (Database.file_hash document) now in
              let dbB := apply_write dbA (DeletePages (id document)) in
              let dbC := apply_write dbB (AddDocument document') in
              let dbD := flush dbC (_store_pages (id document) pages) in
              (fst run = Ok document' \/ exists e, fst run = Raise e)
              /\ calls (snd run)
                 = calls w
                   ++ [CCommit base dbA; CParse path; CCommit base dbB;
                       CCommit base dbC; CCommit base dbD] ++ cs
              /\ Forall vector_call cs
              /\ dbs (snd run) base = dbD)).
Proof.
  intros Hfs Hun. cbv zeta. rewrite (index_document_run _ _ _ _ _ _ Hfs).
  cbv zeta.
  change (progress_callback (default_indexer ext dir cb0)) with cb0.
  set (callback := or_else cb cb0).
  set (h := file_hash_bytes ext content 8192).
  destruct (get_or_create_stale path base h (started callback path w))
    as [document [wa [Hg [Hp [Hh [Ht [Hf [Hc [Hpr [Hdb [Hpg [Hfirst Hcalls]]]]]]]]]]]].
  { rewrite stored_started. exact Hun. }
  rewrite Hg.
  assert (Hstale : up_to_date document h = false).
  { unfold up_to_date. rewrite Ht. apply andb_false_r. }
  rewrite Hstale.
  change (dbs (started callback path w) base) with (dbs w base) in Hdb.
  change (calls (started callback path w)) with (calls w) in Hcalls.
  change (fs (started callback path w)) with (fs w) in Hf.
  rewrite Hdb in Hfirst, Hcalls.
  assert (Hstart : exists log,
             progress wa = progress w ++ log /\ quiet_log callback log).
  { rewrite Hpr. unfold started. cbn [progress set_progress].
    eexists. split; [rewrite <- app_assoc; reflexivity|].
    apply quiet_log_app; apply quiet_log_emitted; reflexivity. }
  destruct Hstart as [log0 [Hlog0 Hq0]].
  exists document. cbv zeta.
  split; [exact Hp|]. split; [exact Hh|]. split; [exact Ht|].
  split; [exact Hfirst|].
  set (W := snd (_progress_emitter callback (lit "Parsing document")
                   (Some 0.2%float) wa)).
  assert (HW : fs W = fs wa /\ dbs W = dbs wa /\ calls W = calls wa
               /\ progress W
                  = progress wa
                    ++ emitted callback (lit "Parsing document")
                         (Some 0.2%float))
    by (repeat split).
  destruct HW as [HWf [HWd [HWc HWp]]].
  assert (Hq1 : quiet_log callback
                  (emitted callback (lit "Parsing document")
                     (Some 0.2%float)))
    by (apply quiet_log_emitted; reflexivity).
  pose proof (parse_frame path W) as Hpf. cbv zeta in Hpf.
  destruct (Parser.parse ext path W) as [[pages|e] wp] eqn:Ep;
    cbn [snd] in Hpf;
    destruct Hpf as [Pf [Pd [Pc [Ppr [Pcl Pcalls]]]]].
  - destruct (store_phase_run base callback document pages wp)
      as [wd [Hsp [Sf [Sd [Sc [Scalls [log2 [Slog Hlog2]]]]]]]].
    cbv zeta in Hsp, Sd, Scalls. rewrite Hsp.
    destruct (vector_phase_post callback dir cb0 path base
                (mkDocument (id document) (filename document)
                   (Database.path document) (Database.base_name document)
                   (Some (len pages)) (Database.file_hash document)
                   (clock wp)) pages wd)
      as [[Vf [Vd [[cs [Vcalls Vcs]] [[log3 [Vlog Vq]] Vk]]]] Vret].
    assert (Hbase : dbs wp base
                    = apply_write (dbs w base) (AddDocument document)).
    { rewrite Pd, HWd. exact Hdb. }
    rewrite Hbase in Sd, Scalls.
    split.
    { split; [congruence|]. split.
      - exists (log0 ++ emitted callback (lit "Parsing document")
                          (Some 0.2%float) ++ log2 ++ log3).
        split.
        + rewrite Vlog, Slog, Ppr, HWp, Hlog0. rewrite <- !app_assoc.
          reflexivity.
        + repeat apply quiet_log_app; try assumption.
          subst log2.
          apply quiet_log_app; apply quiet_log_emitted; reflexivity.
      - eapply ids_kept_trans; [|exact Vk].
        apply ids_kept_same. rewrite Sc, Pc. exact Hc. }
    right. exists pages, (clock wp), cs. cbv zeta.
    split; [|split; [|split]].
    + destruct (fst (vector_phase ext (default_indexer ext dir cb0) path base
                       callback
                       (mkDocument (id document) (filename document)
                          (Database.path document)
                          (Database.base_name document) (Some (len pages))
                          (Database.file_hash document) (clock wp))
                       pages wd)) as [d|e] eqn:Er.
      * left. f_equal. apply Vret. reflexivity.
      * right. exists e. reflexivity.
    + rewrite Vcalls, Scalls, Pcalls, HWc, Hcalls.
      rewrite <- !app_assoc. reflexivity.
    + exact Vcs.
    + rewrite Vd. exact Sd.
  - cbn [fst snd]. split.
    { split; [congruence|]. split.
      - exists (log0 ++ emitted callback (lit "Parsing document")
                          (Some 0.2%float)).
        split.
        + rewrite Ppr, HWp, Hlog0. rewrite <- app_assoc. reflexivity.
        + apply quiet_log_app; assumption.
      - apply ids_kept_same. rewrite Pc. exact Hc. }
    left. exists e. split; [reflexivity|]. split.
    + rewrite Pcalls, HWc, Hcalls. rewrite <- app_assoc. reflexivity.
    + rewrite Pd, HWd. exact Hdb.
Qed.

(** The databases of the three commits of the store phase. *)
Lemma store_commits (path : str) (document : Document) (pages : list str)
  (now : Z) (dbA : DB) :
  first_by_path path (documents dbA) = Some document ->
  Database.path document = path ->
  let document' :=
    mkDocument (id document) (filename document) (Database.path document)
      (Database.base_name document) (Some (len pages))
      (Database.file_hash document) now in
  let dbB := apply_write dbA (DeletePages (id document)) in
  let dbC := apply_write dbB (AddDocument document') in
  let dbD := flush dbC (_store_pages (id document) pages) in
  first_by_path path (documents dbB) = Some document
  /\ pages_of dbB (id document) = []
  /\ first_by_path path (documents dbC) = Some document'
  /\ pages_of dbC (id document) = []
  /\ first_by_path path (documents dbD) = Some document'
  /\ map content (pages_of dbD (id document)) = pages
  /\ map page_num (pages_of dbD (id document)) = map fst (enumerate 1 pages).
Proof.
  intros Hfirst Hp. cbv zeta.
  set (document' :=
         mkDocument (id document) (filename document)
           (Database.path document) (Database.base_name document)
           (Some (len pages)) (Database.file_hash document) now).
  set (dbB := apply_write dbA (DeletePages (id document))).
  set (dbC := apply_write dbB (AddDocument document')).
  assert (HB : first_by_path path (documents dbB) = Some document)
    by exact Hfirst.
  assert (HBp : pages_of dbB (id document) = [])
    by apply DatabaseFacts.pages_of_deleted.
  assert (HC : first_by_path path (documents dbC) = Some document').
  { apply DatabaseFacts.first_by_path_save; [exact Hp|].
    rewrite HB. reflexivity. }
  assert (HCp : pages_of dbC (id document) = []) by exact HBp.
  split; [exact HB|]. split; [exact HBp|]. split; [exact HC|].
  split; [exact HCp|].
  unfold _store_pages.
  destruct (DatabaseFacts.flush_pages_of (id document)
              (enumerate 1 pages) dbC) as [added [H1 [H2 H3]]].
  rewrite DatabaseFacts.flush_pages_documents.
  split; [exact HC|].
  rewrite H1, HCp. cbn [app].
  rewrite DatabaseFacts.enumerate_snd in H2. split; assumption.
Qed.

Lemma commits_of_vector_calls (base : str) (cs : list call) :
  Forall vector_call cs -> commits_of base cs = [].
Proof.
  induction 1 as [|c cs Hc _ IH]; [reflexivity|].
  unfold commits_of in *. cbn [flat_map]. rewrite IH.
  destruct c; try reflexivity; destruct Hc.
Qed.

(** After a run that returns a document, the document is the stored
    record of the path, and it is up to date with the file. *)
Lemma index_document_post (dir : str) (cb0 cb : option ProgressCallback)
  (path base : str) (w w1 : World) (d1 : Document) :
  index_document ext (default_indexer ext dir cb0) path base cb w
  = (Ok d1, w1) ->
  exists content,
    fs_lookup (fs w) path = Some (File content)
    /\ fs w1 = fs w
    /\ stored w1 base path = Some d1
    /\ up_to_date d1 (file_hash_bytes ext content 8192) = true.
Proof.
  intros Hrun.
  destruct (fs_lookup (fs w) path) as [[content|]|] eqn:Hfs;
    [|rewrite index_document_missing in Hrun;
      [discriminate | intros c; congruence]..].
  exists content. split; [reflexivity|].
  destruct (unchanged ext w base path content) eqn:Hun.
  - unfold unchanged in Hun.
    destruct (stored w base path) as [d|] eqn:Hs; [|discriminate].
    destruct (skip_run (default_indexer ext dir cb0) path base cb w content
                d Hfs Hs Hun) as [Hr [Hf [Hd _]]].
    rewrite Hrun in Hr, Hf, Hd. cbn [fst snd] in Hr, Hf, Hd.
    inversion Hr; subst d. unfold stored in *. rewrite Hd.
    repeat split; assumption.
  - destruct (reindex_run dir cb0 cb path base w content Hfs Hun)
      as [document [Hp [Hh [Ht [Hfirst [[Hf _] Hcases]]]]]].
    rewrite Hrun in Hf, Hcases. cbn [fst snd] in Hf, Hcases.
    split; [exact Hf|].
    destruct Hcases as [[e [He _]]|[pages [now [cs [Hr [_ [_ Hd]]]]]]];
      [discriminate|].
    destruct Hr as [Hr|[e He]]; [|discriminate].
    inversion Hr; subst d1.
    destruct (store_commits path document pages now
                (apply_write (dbs w base) (AddDocument document))
                Hfirst Hp) as [_ [_ [_ [_ [HD _]]]]].
    unfold stored. rewrite Hd. split; [exact HD|].
    unfold up_to_date. cbn [Database.file_hash total_pages is_some].
    rewrite Hh, str_eqb_refl. reflexivity.
Qed.

End WithExternals.
End IndexerFacts.

(** C3: [index_document] on a file that is there skips exactly when the
    stored record of the path has the hash of the file and a page count
    that is not null.  On a skip it returns the stored record and calls
    nothing (no parser, no chunker, no embedding, no commit, no vector
    store), and the databases and the collections are as they were;
    otherwise it calls the parser. *)
Theorem skip_exactly_when_unchanged (ext : Externals) (dir : str)
  (cb0 cb : option ProgressCallback) (path base : str) (w : World)
  (content : list byte) :
  fs_lookup (fs w) path = Some (File content) ->
  let run :=
    Indexer.index_document ext (IndexerSpec.default_indexer ext dir cb0)
      path base cb w in
  (IndexerSpec.unchanged ext w base path content = true ->
   (exists d, IndexerSpec.stored w base path = Some d /\ fst run = Ok d)
   /\ calls (snd run) = calls w
   /\ dbs (snd run) = dbs w
   /\ collections (snd run) = collections w)
  /\ (IndexerSpec.unchanged ext w base path content = false ->
      exists before after,
        calls (snd run) = calls w ++ before ++ CParse path :: after).
Proof.
  intros Hfs. cbv zeta. split.
  - intros Hun. unfold IndexerSpec.unchanged in Hun.
    destruct (IndexerSpec.stored w base path) as [d|] eqn:Hs;
      [|discriminate].
    destruct (IndexerFacts.skip_run ext
                (IndexerSpec.default_indexer ext dir cb0) path base cb w
                content d Hfs Hs Hun) as [Hr [_ [Hd [Hc [Hcalls _]]]]].
    split; [exists d; split; [reflexivity|exact Hr]|].
    repeat split; assumption.
  - intros Hun.
    destruct (IndexerFacts.reindex_run ext dir cb0 cb path base w content
                Hfs Hun) as [document [_ [_ [_ [_ [_ Hcases]]]]]].
    destruct Hcases as [[e [_ [Hcalls _]]]|[pages [now [cs [_ [Hcalls _]]]]]].
    + eexists [_], []. rewrite Hcalls. reflexivity.
    + eexists [_], _. rewrite Hcalls. reflexivity.
Qed.

(** Indexed once, the note is unchanged: the second run calls nothing. *)
Lemma skip_exactly_when_unchanged_witness :
  let w := snd (Scenario.index_a Scenario.small_world) in
  calls (snd (Scenario.index_a w)) = calls w.
Proof.
  cbv zeta.
  destruct (skip_exactly_when_unchanged Scenario.ext (lit "/data/bases")
              (Some recorder) None Scenario.a_txt Scenario.kb
              (snd (Scenario.index_a Scenario.small_world))
              (Scenario.bytes_of Scenario.short_text))
    as [Hskip _].
  - vm_compute. reflexivity.
  - destruct Hskip as [_ [Hcalls _]].
    + vm_compute. reflexivity.
    + exact Hcalls.
Defined.

(** C2, as the code has it: on a run that does not skip, the commits to
    the database of the base are, in this order and each one a transaction
    of its own, the record with the new hash and no page count; then, when
    the parser returns, the deletion of the pages of the document, the
    record with the page count, and the new pages.  So a committed record
    with a page count never stands beside pages of the previous version:
    its pages are none (third commit) or the new ones, numbered from 1
    (fourth commit), and the fourth commit is the database the run
    leaves. *)
Theorem page_count_committed_after_page_deletion (ext : Externals)
  (dir : str) (cb0 cb : option ProgressCallback) (path base : str)
  (w : World) (content : list byte) :
  fs_lookup (fs w) path = Some (File content) ->
  IndexerSpec.unchanged ext w base path content = false ->
  let h := Indexer.file_hash_bytes ext content 8192 in
  let run :=
    Indexer.index_document ext (IndexerSpec.default_indexer ext dir cb0)
      path base cb w in
  exists cs dA dbA,
    calls (snd run) = calls w ++ cs
    /\ Database.first_by_path path (Database.documents dbA) = Some dA
    /\ Database.file_hash dA = h
    /\ Database.total_pages dA = None
    /\ ((IndexerSpec.commits_of base cs = [dbA]
         /\ exists e, fst run = Raise e)
        \/ exists pages d dbB dbC dbD,
             IndexerSpec.commits_of base cs = [dbA; dbB; dbC; dbD]
             /\ Database.first_by_path path (Database.documents dbB)
                = Some dA
             /\ Database.pages_of dbB (Database.id dA) = []
             /\ Database.id d = Database.id dA
             /\ Database.file_hash d = h
             /\ Database.total_pages d = Some (len pages)
             /\ Database.first_by_path path (Database.documents dbC)
                = Some d
             /\ Database.pages_of dbC (Database.id d) = []
             /\ Database.first_by_path path (Database.documents dbD)
                = Some d
             /\ map Database.content (Database.pages_of dbD (Database.id d))
                = pages
             /\ map Database.page_num
                  (Database.pages_of dbD (Database.id d))
                = map fst (Indexer.enumerate 1 pages)
             /\ dbs (snd run) base = dbD
             /\ (fst run = Ok d \/ exists e, fst run = Raise e)).
Proof.
  intros Hfs Hun. cbv zeta.
  destruct (IndexerFacts.reindex_run ext dir cb0 cb path base w content
              Hfs Hun) as [document [Hp [Hh [Ht [Hfirst [_ Hcases]]]]]].
  destruct Hcases as [[e [He [Hcalls _]]]
                     |[pages [now [cs [Hr [Hcalls [Hcs Hd]]]]]]].
  - eexists _, document, _. split; [exact Hcalls|].
    split; [exact Hfirst|]. split; [exact Hh|]. split; [exact Ht|].
    left. split.
    + unfold IndexerSpec.commits_of. cbn [flat_map app].
      rewrite str_eqb_refl. reflexivity.
    + exists e. exact He.
  - destruct (IndexerFacts.store_commits path document pages now _
                Hfirst Hp) as [HB [HBp [HC [HCp [HD [HDc HDn]]]]]].
    eexists _, document, _. split; [exact Hcalls|].
    split; [exact Hfirst|]. split; [exact Hh|]. split; [exact Ht|].
    right.
    exists pages,
      (Database.mkDocument (Database.id document)
         (Database.filename document) (Database.path document)
         (Database.base_name document) (Some (len pages))
         (Database.file_hash document) now).
    eexists _, _, _.
    split.
    { unfold IndexerSpec.commits_of. cbn [flat_map app].
      rewrite str_eqb_refl. cbn [app].
      fold (IndexerSpec.commits_of base cs).
      rewrite (IndexerFacts.commits_of_vector_calls base cs Hcs).
      reflexivity. }
    split; [exact HB|]. split; [exact HBp|].
    split; [reflexivity|]. split; [exact Hh|]. split; [reflexivity|].
    split; [exact HC|]. split; [exact HCp|]. split; [exact HD|].
    split; [exact HDc|]. split; [exact HDn|]. split; [exact Hd|].
    exact Hr.
Qed.



(** The first indexing of the note [a.txt]. *)
Lemma page_count_committed_after_page_deletion_witness :
  exists cs,
    calls (snd (Scenario.index_a Scenario.small_world))
    = calls Scenario.small_world ++ cs.
Proof.
  destruct (page_count_committed_after_page_deletion Scenario.ext
              (lit "/data/bases") (Some recorder) None Scenario.a_txt
              Scenario.kb Scenario.small_world
              (Scenario.bytes_of Scenario.short_text))
    as [cs [dA [dbA [H _]]]].
  - vm_compute. reflexivity.
  - vm_compute. reflexivity.
  - exists cs. exact H.
Defined.

(** C2 as it is stated fails on the first indexing of the note [a.txt]:
    the third commit holds the record with the new hash and the page count
    1, and no page of the document; the page is committed after it. *)
Lemma page_count_committed_before_pages :
  ~ Forall
      (IndexerSpec.pages_follow_metadata Scenario.a_txt
         (Indexer.file_hash_bytes Scenario.ext
            (Scenario.bytes_of Scenario.short_text) 8192)
         [lit "Short text."])
      (IndexerSpec.commits_of Scenario.kb (calls Scenario.after_first)).
Proof.
  intros H. rewrite Forall_forall in H.
  assert (Hin : In Scenario.third_commit
                  (IndexerSpec.commits_of Scenario.kb
                     (calls Scenario.after_first))).
  { apply nth_In. vm_compute. lia. }
  pose proof (H _ Hin Scenario.third_record) as Hd.
  assert (Hpages : map Database.content
                     (Database.pages_of Scenario.third_commit
                        (Database.id Scenario.third_record))
                   = [lit "Short text."]).
  { apply Hd; vm_compute; reflexivity. }
  vm_compute in Hpages. discriminate.
Qed.

Example commits_of_first_indexing :
  map (fun db =>
         (map Database.total_pages (Database.documents db),
          map Database.page_num (Database.pages db)))
    (IndexerSpec.commits_of Scenario.kb (calls Scenario.after_first))
  = [([None], []); ([None], []); ([Some 1], []); ([Some 1], [1])].
Proof. vm_compute. reflexivity. Qed.

(** C8 fails on the note [a.txt], indexed twice in a row with the default
    vector service.  The first call commits the record of the document
    with its hash and its page count, then asks the vector store to write
    the chunk of the note under the id [1:1:0]; the store takes no such id,
    and the call raises [ValueError]: it returns no document, and no
    vector is stored.  The second call finds the record up to date, skips,
    and returns it. *)
Theorem first_indexing_raises_at_the_vector_store :
  let first := Scenario.index_a Scenario.small_world in
  let second := Scenario.index_a (snd first) in
  (exists e, fst first = Raise e /\ e_class e = ValueError)
  /\ Scenario.store_calls (calls (snd first))
     = [CCreateCollection Scenario.kb; CUpsert Scenario.kb [lit "1:1:0"]]
  /\ collections (snd first) Scenario.kb = Some []
  /\ fst second = Ok Scenario.first_document
  /\ Database.id Scenario.first_document = 1
  /\ Database.total_pages Scenario.first_document = Some 1
  /\ Database.file_hash Scenario.first_document
     = Indexer.file_hash_bytes Scenario.ext
         (Scenario.bytes_of Scenario.short_text) 8192
  /\ calls (snd second) = calls (snd first).
Proof.
  cbv zeta. split.
  { exists Scenario.first_error. split; vm_compute; reflexivity. }
  split; [vm_compute; reflexivity|].
  split; [vm_compute; reflexivity|].
  split; [vm_compute; reflexivity|].
  split; [vm_compute; reflexivity|].
  split; [vm_compute; reflexivity|].
  split; vm_compute; reflexivity.
Qed.

(** C1 as it is stated fails on the note [a.txt] when the store holds a
    vector written for its path and the file has lost its text.  The
    vector is written by [add_documents] under an id drawn from [uuid4], with
    the path of the note in its payload (the store takes none of the ids
    [index_document] builds).  The run on the emptied file returns the
    document, with no page; it asks nothing of the vector store, and the
    vector written for the path of the document is still in the
    collection. *)
Lemma emptied_document_keeps_its_vectors :
  let before := Scenario.note_emptied in
  let run := Scenario.index_a before in
  (exists d, fst run = Ok d /\ Database.total_pages d = Some 0)
  /\ Scenario.store_calls
       (skipn (length (calls before)) (calls (snd run))) = []
  /\ collections (snd run) Scenario.kb = Some Scenario.note_vectors
  /\ map Vectors.r_text
       (Scenario.written_for Scenario.a_txt Scenario.note_vectors)
     = [Scenario.short_text]
  /\ ~ IndexerSpec.no_orphans before (snd run) Scenario.kb [].
Proof.
  cbv zeta. split.
  { exists Scenario.emptied_document. split; vm_compute; reflexivity. }
  split; [vm_compute; reflexivity|].
  split; [vm_compute; reflexivity|].
  split; [vm_compute; reflexivity|].
  intros H.
  assert (Hfound : Vectors.retrieve (Scenario.nth_uuid 0)
                     Scenario.note_vectors <> None)
    by (vm_compute; discriminate).
  apply Hfound.
  apply (H Scenario.note_vectors Scenario.note_vectors).
  - vm_compute. reflexivity.
  - vm_compute. reflexivity.
  - exact Hfound.
  - reflexivity.
Qed.

(** C1, as the code has it: the cleanup of [index_document] is the call
    of [delete_document_chunks] of the vector service, for the base and
    the path of the document, when the service has that method.  The
    default vector service has none, so its cleanup does nothing, and a
    run removes no vector: every id found in a collection before the run,
    the ids written for the previous version of the document among them,
    is found in it after the run, whether the run returns or raises. *)
Theorem index_document_keeps_stored_vectors (ext : Externals) (dir : str)
  (cb0 cb : option ProgressCallback) (path base : str) (w : World) :
  let self := IndexerSpec.default_indexer ext dir cb0 in
  let run := Indexer.index_document ext self path base cb w in
  (forall (b document_path : str) (w0 : World),
     Indexer._clear_document_vectors self b document_path w0 = (Ok tt, w0))
  /\ (forall (b : str) (c : Vectors.Collection) (i : str)
             (p : Vectors.Stored),
        collections w b = Some c -> Vectors.retrieve i c = Some p ->
        exists c' p',
          collections (snd run) b = Some c'
          /\ Vectors.retrieve i c' = Some p')
  /\ (forall (other : Indexer.DocumentIndexer)
             (delete : str -> str -> M unit) (b document_path : str)
             (w0 w1 : World),
        delete_document_chunks (Indexer.vectordb other) = Some delete ->
        delete b document_path w0 = (Ok tt, w1) ->
        Indexer._clear_document_vectors other b document_path w0
        = (Ok tt, w1)).
Proof.
  cbv zeta. split; [intros; reflexivity|].
  split;
    [|intros other delete b document_path w0 w1 Hd Hrun;
      unfold Indexer._clear_document_vectors, try_except;
      rewrite Hd, Hrun; reflexivity].
  change (IndexerSpec.ids_kept w
            (snd (Indexer.index_document ext
                    (IndexerSpec.default_indexer ext dir cb0) path base cb
                    w))).
  destruct (fs_lookup (fs w) path) as [[content|]|] eqn:Hfs.
  - destruct (IndexerSpec.unchanged ext w base path content) eqn:Hun.
    + unfold IndexerSpec.unchanged in Hun.
      destruct (IndexerSpec.stored w base path) as [d|] eqn:Hs;
        [|discriminate].
      destruct (IndexerFacts.skip_run ext
                  (IndexerSpec.default_indexer ext dir cb0) path base cb w
                  content d Hfs Hs Hun) as [_ [_ [_ [Hc _]]]].
      apply IndexerFacts.ids_kept_same. exact Hc.
    + destruct (IndexerFacts.reindex_run ext dir cb0 cb path base w content
                  Hfs Hun) as [document [_ [_ [_ [_ [[_ [_ Hk]] _]]]]]].
      exact Hk.
  - rewrite IndexerFacts.index_document_missing; [|intros c; congruence].
    apply IndexerFacts.ids_kept_same. reflexivity.
  - rewrite IndexerFacts.index_document_missing; [|intros c; congruence].
    apply IndexerFacts.ids_kept_same. reflexivity.
Qed.

(** The vector written for the note, when the file has lost its text. *)
Lemma index_document_keeps_stored_vectors_witness :
  exists c' p',
    collections
      (snd (Indexer.index_document Scenario.ext
              (IndexerSpec.default_indexer Scenario.ext (lit "/data/bases")
                 (Some recorder))
              Scenario.a_txt Scenario.kb None Scenario.note_emptied))
      Scenario.kb = Some c'
    /\ Vectors.retrieve (Scenario.nth_uuid 0) c' = Some p'.
Proof.
  apply (proj1 (proj2 (index_document_keeps_stored_vectors Scenario.ext
                         (lit "/data/bases") (Some recorder) None
                         Scenario.a_txt Scenario.kb
                         Scenario.note_emptied))
           Scenario.kb Scenario.note_vectors (Scenario.nth_uuid 0)
           Scenario.note_record).
  - vm_compute. reflexivity.
  - vm_compute. reflexivity.
Defined.

(** ** The folder scan *)

Module SortFacts.
Import IndexerSpec.

Lemma str_leb_total (a b : str) : str_leb a b = false -> str_leb b a = true.
Proof.
  revert b. induction a as [|x a IH]; intros [|y b]; simpl;
    try discriminate; try reflexivity.
  destruct (code x <? code y)%N eqn:Exy; [discriminate|].
  destruct (code y <? code x)%N eqn:Eyx; [reflexivity|].
  apply IH.
Qed.

Lemma insert_sorted_perm (p : str) (l : list str) :
  Permutation (insert_sorted p l) (p :: l).
Proof.
  induction l as [|q l IH]; simpl; [apply Permutation_refl|].
  destruct (str_leb p q); [apply Permutation_refl|].
  eapply Permutation_trans; [apply perm_skip, IH|apply perm_swap].
Qed.

Lemma sorted_perm (l : list str) : Permutation (sorted l) l.
Proof.
  induction l as [|p l IH]; simpl; [constructor|].
  eapply Permutation_trans; [apply insert_sorted_perm|].
  apply perm_skip, IH.
Qed.

Lemma insert_sorted_hd (p q : str) (l : list str) :
  lex_le q p -> HdRel lex_le q l -> HdRel lex_le q (insert_sorted p l).
Proof.
  intros Hqp Hl. destruct l as [|r l]; simpl; [constructor; exact Hqp|].
  destruct (str_leb p r); constructor; [exact Hqp|].
  inversion Hl; assumption.
Qed.

Lemma insert_sorted_sorted (p : str) (l : list str) :
  Sorted lex_le l -> Sorted lex_le (insert_sorted p l).
Proof.
  induction 1 as [|q l Hs IH Hh]; simpl.
  - constructor; constructor.
  - destruct (str_leb p q) eqn:E.
    + constructor; [constructor; assumption|]. constructor. exact E.
    + constructor; [exact IH|].
      apply insert_sorted_hd; [|exact Hh].
      apply str_leb_total. exact E.
Qed.

Lemma sorted_sorted (l : list str) : Sorted lex_le (sorted l).
Proof.
  induction l as [|p l IH]; simpl; [constructor|].
  apply insert_sorted_sorted, IH.
Qed.

End SortFacts.

Module ScanFacts.
Import Database Indexer IndexerSpec.
Section WithExternals.
Variable ext : Externals.

Lemma failures_app (a b : list (str * option float)) :
  failures (a ++ b) = failures a ++ failures b.
Proof. unfold failures. rewrite map_app, filter_app. reflexivity. Qed.

(** What [index_document] reports through the callback the scan gives it
    holds no failure message. *)
Lemma failures_quiet (total idx : Z) (log : list (str * option float)) :
  quiet_log (Some (nested_callback (Some recorder) total idx)) log ->
  failures log = [].
Proof.
  unfold failures. induction 1 as [|e log He _ IH]; [reflexivity|].
  cbn [map filter]. rewrite IH.
  destruct He as [m [p [Hm Hin]]].
  assert (Hfst : fst e = m).
  { unfold emitted, nested_callback, recorder in Hin.
    destruct p; destruct (negb (total =? 0)); simpl in Hin;
      destruct Hin as [<-|[]]; reflexivity. }
  rewrite Hfst, Hm. reflexivity.
Qed.

(** The progress log of a run of [index_document] holds no failure
    message of its own. *)
Lemma index_document_quiet (dir : str) (cb0 cb : option ProgressCallback)
  (path base : str) (w : World) :
  exists log,
    progress
      (snd (index_document ext (default_indexer ext dir cb0) path base cb w))
    = progress w ++ log
    /\ quiet_log (or_else cb cb0) log.
Proof.
  destruct (fs_lookup (fs w) path) as [[content|]|] eqn:Hfs.
  - destruct (unchanged ext w base path content) eqn:Hun.
    + unfold unchanged in Hun.
      destruct (stored w base path) as [d|] eqn:Hs; [|discriminate].
      destruct (IndexerFacts.skip_run ext (default_indexer ext dir cb0) path
                  base cb w content d Hfs Hs Hun)
        as [_ [_ [_ [_ [_ Hlog]]]]].
      exact Hlog.
    + destruct (IndexerFacts.reindex_run ext dir cb0 cb path base w content
                  Hfs Hun) as [document [_ [_ [_ [_ [[_ [Hlog _]] _]]]]]].
      exact Hlog.
  - rewrite IndexerFacts.index_document_missing; [|intros c; congruence].
    exists []. rewrite app_nil_r. split; [reflexivity|constructor].
  - rewrite IndexerFacts.index_document_missing; [|intros c; congruence].
    exists []. rewrite app_nil_r. split; [reflexivity|constructor].
Qed.

Lemma index_document_path (dir : str) (cb0 cb : option ProgressCallback)
  (path base : str) (w w1 : World) (d : Document) :
  index_document ext (default_indexer ext dir cb0) path base cb w
  = (Ok d, w1) ->
  Database.path d = path.
Proof.
  intros Hrun.
  destruct (IndexerFacts.index_document_post ext dir cb0 cb path base w w1 d
              Hrun) as [content [_ [_ [Hs _]]]].
  apply DatabaseFacts.first_by_path_in in Hs. tauto.
Qed.

(** The loop of the scan never raises; each file adds a document to the
    result or a failure message to the log, in the order of the files. *)
Lemma scan_loop_run (dir : str) (cb0 : option ProgressCallback) (base : str)
  (total : Z) :
  forall (files : list str) (idx : Z) (acc : list Document) (w : World),
  exists docs messages w',
    scanned ext (default_indexer ext dir cb0) base (Some recorder) total
      files idx w docs messages w'
    /\ scan_loop ext (default_indexer ext dir cb0) base (Some recorder)
         total files idx acc w = (Ok (acc ++ docs), w')
    /\ (exists log,
          progress w' = progress w ++ log /\ failures log = messages)
    /\ subsequence (map Database.path docs) files
    /\ (length docs + length messages = length files)%nat.
Proof.
  induction files as [|f files IH]; intros idx acc w.
  - exists [], [], w. cbn [scan_loop]. unfold ret.
    rewrite !app_nil_r. split; [constructor|]. split; [reflexivity|].
    split; [exists []; rewrite app_nil_r; split; reflexivity|].
    split; [constructor|reflexivity].
  - cbn [scan_loop].
    rewrite bind_run. unfold _progress_emitter at 1, modify at 1.
    cbv beta iota.
    change (set_progress _ w) with (announced (Some recorder) total idx f w).
    set (w1 := announced (Some recorder) total idx f w).
    set (entry :=
           (lit "Indexing " ++ path_name f ++ lit " (" ++ str_of_Z idx
            ++ lit "/" ++ str_of_Z total ++ lit ")",
            if negb (total =? 0)
            then Some (PrimFloat.div (float_of_Z (idx - 1))
                         (float_of_Z total))
            else None)).
    assert (Hw1 : progress w1 = progress w ++ [entry]) by reflexivity.
    rewrite bind_run, try_except_run, bind_run.
    destruct (index_document_quiet dir cb0
                (Some (nested_callback (Some recorder) total idx)) f base w1)
      as [log1 [Hlog1 Hq1]].
    cbn [or_else] in Hq1. apply failures_quiet in Hq1.
    assert (Hnone : failures (entry :: log1) = []).
    { change (failures (entry :: log1)) with (failures ([entry] ++ log1)).
      rewrite failures_app, Hq1. reflexivity. }
    destruct (index_document ext (default_indexer ext dir cb0) f base
                (Some (nested_callback (Some recorder) total idx)) w1)
      as [[d|e] w2] eqn:Erun; cbn [snd] in Hlog1.
    + unfold ret at 1. cbv beta iota.
      destruct (IH (idx + 1) (acc ++ [d]) w2)
        as [docs [messages [w' [Hs [Hr [[log [Hp Hf]] [Hsub Hlen]]]]]]].
      exists (d :: docs), messages, w'.
      split; [apply (scanned_indexed _ _ _ _ _ _ _ _ w w2 w'); assumption|].
      split; [rewrite Hr, <- app_assoc; reflexivity|].
      split.
      { exists ((entry :: log1) ++ log). split.
        - rewrite Hp, Hlog1, Hw1. rewrite <- !app_assoc. reflexivity.
        - rewrite failures_app, Hnone. exact Hf. }
      split.
      { cbn [map]. rewrite (index_document_path _ _ _ _ _ _ _ _ Erun).
        apply sub_take. exact Hsub. }
      cbn [length]. lia.
    + rewrite bind_run. unfold _progress_emitter at 1, modify at 1.
      cbv beta iota. unfold ret at 1.
      change (set_progress _ w2) with (reported (Some recorder) f e w2).
      set (w3 := reported (Some recorder) f e w2).
      assert (Hw3 : progress w3
                    = progress w2 ++ [(failure_message f e, None)])
        by reflexivity.
      destruct (IH (idx + 1) acc w3)
        as [docs [messages [w' [Hs [Hr [[log [Hp Hf]] [Hsub Hlen]]]]]]].
      exists docs, (failure_message f e :: messages), w'.
      split; [apply (scanned_failed _ _ _ _ _ _ _ _ w w2 w'); assumption|].
      split; [exact Hr|].
      split.
      { exists ((entry :: log1) ++ [(failure_message f e, None)] ++ log).
        split.
        - rewrite Hp, Hw3, Hlog1, Hw1. rewrite <- !app_assoc. reflexivity.
        - rewrite !failures_app, Hnone, Hf. reflexivity. }
      split; [apply sub_skip; exact Hsub|].
      cbn [length]. lia.
Qed.

End WithExternals.
End ScanFacts.

(** C4, as the code has it: the scan takes the regular files of the
    documents directory that have a supported extension, in the order of
    their paths, and never raises.  It calls [index_document] on each of
    these files in turn, in the world the call before it left: a call
    that returns gives a document of the returned list, a call that raises
    gives one failure message, with the message of the exception, and the
    scan goes on; the documents and the failure messages come in the order
    of the files, and the log holds no other failure message.  A file
    with another extension is left out before the loop: it is neither
    indexed nor reported. *)
Theorem scan_indexes_supported_files (ext : Externals) (dir : str)
  (cb0 : option ProgressCallback) (base : str) (w : World) :
  let self := IndexerSpec.default_indexer ext dir cb0 in
  let files := Indexer.scan_files self base (fs w) in
  let callback := Some recorder in
  let run := Indexer.scan_and_index_folder ext self base callback w in
  Sorted IndexerSpec.lex_le files
  /\ Permutation files
       (map fst
          (filter (Indexer.scan_candidate (Indexer.documents_dir_of self base))
             (fs w)))
  /\ Forall IndexerSpec.supported files
  /\ exists docs messages w' log,
       IndexerSpec.scanned ext self base callback (len files) files 1
         (IndexerSpec.found callback self base (len files) w) docs messages w'
       /\ run = (Ok docs, IndexerSpec.finished callback (len files) w')
       /\ progress (snd run) = progress w ++ log
       /\ IndexerSpec.failures log = messages
       /\ IndexerSpec.subsequence (map Database.path docs) files
       /\ (length docs + length messages = length files)%nat.
Proof.
  cbv zeta.
  set (self := IndexerSpec.default_indexer ext dir cb0).
  set (files := Indexer.scan_files self base (fs w)).
  assert (Hperm : Permutation files
                    (map fst
                       (filter
                          (Indexer.scan_candidate
                             (Indexer.documents_dir_of self base)) (fs w))))
    by apply SortFacts.sorted_perm.
  split; [apply SortFacts.sorted_sorted|]. split; [exact Hperm|]. split.
  { apply Forall_forall. intros f Hf.
    apply (Permutation_in _ Hperm) in Hf.
    apply in_map_iff in Hf. destruct Hf as [[p n] [Hp Hin]].
    apply filter_In in Hin. destruct Hin as [_ Hc].
    simpl in Hp. subst p. unfold Indexer.scan_candidate in Hc.
    apply andb_prop in Hc. destruct Hc as [_ Hc]. exact Hc. }
  set (w1 := IndexerSpec.found (Some recorder) self base (len files) w).
  destruct (ScanFacts.scan_loop_run ext dir cb0 base (len files) files 1
              [] w1)
    as [docs [messages [w' [Hs [Hr [[log [Hp Hf]] [Hsub Hlen]]]]]]].
  fold self in Hs, Hr. cbn [app] in Hr.
  assert (Hrun : Indexer.scan_and_index_folder ext self base (Some recorder)
                   w
                 = (Ok docs,
                    IndexerSpec.finished (Some recorder) (len files) w')).
  { unfold Indexer.scan_and_index_folder. cbv zeta.
    rewrite bind_run. unfold get at 1. cbv beta iota.
    fold self. fold files.
    rewrite bind_run. unfold Indexer._progress_emitter at 1, modify at 1.
    cbv beta iota. cbn [Indexer.or_else].
    change (set_progress _ w) with w1.
    rewrite bind_run, Hr, bind_run.
    unfold IndexerSpec.finished.
    destruct (negb (len files =? 0)); reflexivity. }
  exists docs, messages, w'.
  exists ((Indexer.emitted (Some recorder)
             (lit "Found " ++ str_of_Z (len files)
              ++ lit " file(s) to evaluate in "
              ++ Indexer.documents_dir_of self base)
             (Some (if negb (len files =? 0) then 0.0%float else 1.0%float))
           ++ log)
          ++ (if negb (len files =? 0)
              then Indexer.emitted (Some recorder)
                     (lit "Folder scan complete") (Some 1.0%float)
              else [])).
  split; [exact Hs|]. split; [exact Hrun|].
  split.
  { rewrite Hrun. cbn [snd]. unfold IndexerSpec.finished.
    unfold w1, IndexerSpec.found in Hp. cbn [progress set_progress] in Hp.
    destruct (negb (len files =? 0)).
    - cbn [progress set_progress]. rewrite Hp.
      rewrite <- !app_assoc. reflexivity.
    - rewrite Hp. rewrite <- !app_assoc, app_nil_r. reflexivity. }
  split.
  { rewrite !ScanFacts.failures_app, Hf.
    match goal with
    | |- context [IndexerSpec.failures
                    (Indexer.emitted ?c (lit "Found " ++ ?m) ?p)] =>
        change (IndexerSpec.failures
                  (Indexer.emitted c (lit "Found " ++ m) p))
          with (@nil str)
    end.
    cbn [app].
    destruct (negb (len files =? 0)); [|apply app_nil_r].
    change (IndexerSpec.failures
              (Indexer.emitted (Some recorder)
                 (lit "Folder scan complete") (Some 1%float)))
      with (@nil str).
    apply app_nil_r. }
  split; [exact Hsub|exact Hlen].
Qed.

(** C4 as it is stated fails on a folder of two supported files, here
    without text, and the file [c.docx]: both supported files are indexed,
    and no failure message is reported, for [c.docx] or any file. *)
Lemma unsupported_file_is_not_reported :
  match fst Scenario.scan_blank_folder with
  | Ok docs => map Database.filename docs
  | Raise _ => []
  end = [lit "a.txt"; lit "b.md"]
  /\ IndexerSpec.failures (progress (snd Scenario.scan_blank_folder)) = []
  /\ length
       (IndexerSpec.failures (progress (snd Scenario.scan_blank_folder)))
     <> 1%nat.
Proof.
  split; [vm_compute; reflexivity|].
  assert (H : IndexerSpec.failures
                (progress (snd Scenario.scan_blank_folder)) = [])
    by (vm_compute; reflexivity).
  split; [exact H|]. rewrite H. discriminate.
Qed.

(** The same folder when the two supported files have a text: the store
    does not take the ids of their chunks, each of the two runs raises,
    and the scan goes on; it returns no document and reports the two
    failures, and nothing for [c.docx]. *)
Example scan_folder_reports_store_failures :
  fst Scenario.scan_folder = Ok []
  /\ map (IndexerSpec.starts_with (lit "Failed to index a.txt: "))
       (IndexerSpec.failures (progress (snd Scenario.scan_folder)))
     = [true; false]
  /\ map (IndexerSpec.starts_with (lit "Failed to index b.md: "))
       (IndexerSpec.failures (progress (snd Scenario.scan_folder)))
     = [false; true].
Proof. split; [|split]; vm_compute; reflexivity. Qed.

(** ** More of the chunker *)

Module ChunkingMore.
Import Chunking ChunkingSpec ChunkingProps.

Lemma skipn_next {A} (t : list A) (c : A) (r : list A) :
  forall pos, skipn pos t = c :: r -> skipn (S pos) t = r.
Proof.
  induction t as [|a t IH]; intros pos H.
  - destruct pos; discriminate.
  - destruct pos as [|pos].
    + simpl in H. inversion H. reflexivity.
    + simpl in H. simpl. apply IH. exact H.
Qed.

Lemma skipn_past {A} (t m rest : list A) (pos : nat) :
  skipn pos t = m ++ rest -> skipn (pos + length m) t = rest.
Proof.
  intros H. rewrite Nat.add_comm, <- skipn_skipn, H.
  rewrite skipn_app, skipn_all, Nat.sub_diag. reflexivity.
Qed.

Lemma finditer_fuel_groups (t : str) :
  forall fuel pos l ms,
    skipn pos t = l -> finditer_fuel fuel pos l = Some ms ->
    Forall (group_of t) ms.
Proof.
  induction fuel as [|f IH]; intros pos l ms Hl H.
  - destruct l; simpl in H; [|discriminate].
    inversion H. constructor.
  - destruct l as [|c r]; simpl in H; [inversion H; constructor|].
    destruct (match_here (c :: r)) as [[m rest]|] eqn:E.
    + destruct (finditer_fuel f (pos + length m) rest) as [ms'|] eqn:E';
        [|discriminate].
      inversion H; subst ms.
      apply ChunkingFacts.match_here_app in E. destruct E as [Eapp _].
      rewrite Eapp in Hl.
      constructor.
      * unfold group_of. cbn [m_group m_start m_end].
        rewrite Hl. replace (pos + length m - pos)%nat with (length m) by lia.
        rewrite firstn_app, firstn_all, Nat.sub_diag. simpl.
        rewrite app_nil_r. reflexivity.
      * apply (IH (pos + length m)%nat rest ms'); [|exact E'].
        apply skipn_past. exact Hl.
    + apply (IH (S pos) r ms); [|exact H].
      apply (skipn_next t c r). exact Hl.
Qed.

Lemma collect_slices (t : str) (ms : list Match) :
  Forall (group_of t) ms ->
  Forall (text_at_offsets t) (collect_sentences ms).
Proof.
  induction 1 as [|m ms Hm _ IH]; simpl; [constructor|].
  destruct (sentence_of_match m) as [s|] eqn:E; [|exact IH].
  constructor; [|exact IH].
  unfold sentence_of_match in E.
  destruct (strip (m_group m)) as [|c0 g] eqn:Eg; [discriminate|].
  inversion E; subst s. unfold text_at_offsets. cbn [s_text s_start s_end].
  rewrite <- Eg. unfold slice. rewrite Nat2Z.id.
  replace (Z.to_nat (Z.of_nat (m_end m) - Z.of_nat (m_start m)))
    with (m_end m - m_start m)%nat by lia.
  rewrite <- Hm. reflexivity.
Qed.

Lemma split_not_empty (t : str) : _split_into_sentences t <> [].
Proof.
  unfold _split_into_sentences.
  destruct (collect_sentences (finditer t)); discriminate.
Qed.

Lemma fold_current (cs ov : Z) :
  forall rest st,
    is_empty (current st) = false ->
    is_empty (current (fold_left (chunk_step cs ov) rest st)) = false.
Proof.
  induction rest as [|s rest IH]; intros st H; [exact H|].
  simpl. apply IH. apply ChunkingFacts.chunk_step_current.
Qed.

Lemma indexes_snoc (l : list ChunkMetadata) (c : ChunkMetadata) :
  numbered l -> index c = len l -> numbered (l ++ [c]).
Proof.
  unfold numbered, len. intros Hl Hc.
  rewrite map_app, length_app, Nat.add_1_r, seq_S, map_app, Hl.
  simpl. rewrite Hc. reflexivity.
Qed.

Lemma chunk_step_numbered (cs ov : Z) (st : LoopState) (s : Sentence) :
  numbered (chunks st) -> numbered (chunks (chunk_step cs ov st s)).
Proof.
  intros H. unfold chunk_step.
  destruct (negb (is_empty (current st))
            && (current_tokens st + s_tokens s >? cs)).
  - destruct (_apply_overlap (current st) ov) as [cur toks]. simpl.
    apply indexes_snoc; [exact H|reflexivity].
  - exact H.
Qed.

Lemma fold_numbered (cs ov : Z) :
  forall rest st,
    numbered (chunks st) ->
    numbered (chunk_flush (fold_left (chunk_step cs ov) rest st)).
Proof.
  induction rest as [|s rest IH]; intros st H; simpl.
  - unfold chunk_flush. destruct (negb (is_empty (current st))).
    + apply indexes_snoc; [exact H|reflexivity].
    + exact H.
  - apply IH, chunk_step_numbered, H.
Qed.

Lemma sum_from (l : list Sentence) :
  forall a, fold_left (fun acc s => acc + s_tokens s) l a = a + sum_tokens l.
Proof.
  unfold sum_tokens.
  induction l as [|s l IH]; intros a; cbn [fold_left]; [lia|].
  rewrite (IH (a + s_tokens s)), (IH (0 + s_tokens s)). lia.
Qed.

Lemma sum_tokens_cons (s : Sentence) (l : list Sentence) :
  sum_tokens (s :: l) = s_tokens s + sum_tokens l.
Proof. unfold sum_tokens at 1. simpl. rewrite sum_from. lia. Qed.

Lemma sum_tokens_app (a b : list Sentence) :
  sum_tokens (a ++ b) = sum_tokens a + sum_tokens b.
Proof.
  induction a as [|s a IH]; [reflexivity|].
  rewrite <- app_comm_cons, !sum_tokens_cons, IH. lia.
Qed.

Lemma sum_tokens_rev (l : list Sentence) :
  sum_tokens (rev l) = sum_tokens l.
Proof.
  induction l as [|s l IH]; [reflexivity|].
  simpl. rewrite sum_tokens_app, IH, !sum_tokens_cons.
  change (sum_tokens []) with 0. lia.
Qed.

(** The loop of [_apply_overlap] takes a prefix of the reversed sentences:
    it goes on while the tokens taken are below the overlap. *)
Lemma overlap_loop_prefix :
  forall rs acc t ov,
  exists r1 r2,
    rs = r1 ++ r2
    /\ overlap_loop rs acc t ov = (rev r1 ++ acc, t + sum_tokens r1)
    /\ (r2 <> [] -> t + sum_tokens r1 >= ov)
    /\ (rs <> [] -> r1 <> [])
    /\ (forall p q, r1 = p ++ q -> p <> [] -> q <> [] ->
                    t + sum_tokens p < ov).
Proof.
  induction rs as [|s rs IH]; intros acc t ov.
  - exists [], []. split; [reflexivity|]. split.
    + simpl. change (sum_tokens []) with 0. rewrite Z.add_0_r. reflexivity.
    + split; [congruence|]. split; [congruence|].
      intros p q H Hp _. destruct p; [congruence|discriminate].
  - cbn [overlap_loop]. destruct (t + s_tokens s >=? ov) eqn:E.
    + exists [s], rs. split; [reflexivity|].
      rewrite sum_tokens_cons. change (sum_tokens []) with 0.
      rewrite Z.add_0_r. split; [reflexivity|]. split.
      * intros _. rewrite Z.geb_leb in E. apply Z.leb_le in E. lia.
      * split; [discriminate|].
        intros p q H Hp Hq.
        destruct p as [|x p]; [congruence|].
        destruct p; destruct q; try discriminate; congruence.
    + destruct (IH (s :: acc) (t + s_tokens s) ov)
        as [r1 [r2 [E1 [E2 [H2 [_ Hpre]]]]]].
      exists (s :: r1), r2. split; [simpl; f_equal; exact E1|].
      rewrite sum_tokens_cons. split.
      * rewrite E2. simpl. rewrite <- app_assoc. simpl.
        f_equal. lia.
      * split; [intros H; specialize (H2 H); lia|].
        split; [discriminate|].
        intros p q H Hp Hq.
        destruct p as [|x p]; [congruence|].
        simpl in H. inversion H; subst x.
        rewrite sum_tokens_cons.
        destruct p as [|y p].
        -- change (sum_tokens []) with 0.
           rewrite Z.geb_leb in E. apply Z.leb_gt in E. lia.
        -- assert (Hlt : t + s_tokens s + sum_tokens (y :: p) < ov).
           { apply (Hpre (y :: p) q); [assumption|discriminate|assumption]. }
           lia.
Qed.

Lemma finalize_covers (n : Z) (l : list Sentence) (i : Z) (d : Sentence) :
  sentences_ok n l -> In d l -> covers (_finalize_chunk l i) d.
Proof.
  intros [F S] Hin. unfold covers, _finalize_chunk.
  cbn [start_char end_char].
  assert (Hd : sentence_ok n d) by (rewrite Forall_forall in F; auto).
  split.
  - destruct l as [|x l']; [destruct Hin|].
    destruct Hin as [<-|Hin]; [lia|].
    apply StronglySorted_inv in S. destruct S as [_ Sf].
    rewrite Forall_forall in Sf. specialize (Sf d Hin).
    assert (Hx : sentence_ok n x) by (apply (Forall_inv F)).
    unfold before, sentence_ok in *. lia.
  - destruct (rev l) as [|y r] eqn:E.
    + apply (f_equal (@rev _)) in E. rewrite rev_involutive in E.
      subst l. destruct Hin.
    + assert (E' : l = rev r ++ [y]).
      { rewrite <- (rev_involutive l), E. reflexivity. }
      subst l. apply in_app_or in Hin. destruct Hin as [Hin|[<-|[]]]; [|lia].
      apply ChunkingFacts.sorted_app_inv in S.
      destruct S as [_ [_ Hab]].
      assert (Hy : sentence_ok n y).
      { rewrite Forall_forall in F. apply F, in_or_app. right. left.
        reflexivity. }
      specialize (Hab d y Hin (or_introl eq_refl)).
      unfold before, sentence_ok in *. lia.
Qed.

Lemma chunk_step_kept (n cs ov : Z) (st : LoopState) (s : Sentence)
  (rest done : list Sentence) :
  sentences_ok n (current st ++ s :: rest) ->
  Forall (placed st) done ->
  Forall (placed (chunk_step cs ov st s)) (done ++ [s]).
Proof.
  intros Hs Hd. unfold chunk_step.
  destruct (negb (is_empty (current st))
            && (current_tokens st + s_tokens s >? cs)) eqn:B.
  - destruct (_apply_overlap (current st) ov) as [cur toks] eqn:Eo.
    apply Forall_app. split.
    + eapply Forall_impl; [|exact Hd]. intros d [Hc|Hc]; left.
      * cbn [chunks]. apply Exists_app. left. exact Hc.
      * cbn [chunks]. apply Exists_app. right. constructor.
        apply (finalize_covers n); [|exact Hc].
        apply ChunkingFacts.sentences_ok_app in Hs. tauto.
    + constructor; [|constructor]. right. cbn [current].
      apply in_or_app. right. left. reflexivity.
  - apply Forall_app. split.
    + eapply Forall_impl; [|exact Hd]. intros d [Hc|Hc].
      * left. exact Hc.
      * right. cbn [current]. apply in_or_app. left. exact Hc.
    + constructor; [|constructor]. right. cbn [current].
      apply in_or_app. right. left. reflexivity.
Qed.

Lemma fold_kept (n cs ov : Z) :
  forall rest st done,
    sentences_ok n (current st ++ rest) ->
    Forall (placed st) done ->
    Forall
      (fun s =>
         Exists (fun c => covers c s)
           (chunk_flush (fold_left (chunk_step cs ov) rest st)))
      (done ++ rest).
Proof.
  induction rest as [|s rest IH]; intros st done Hs Hd.
  - rewrite app_nil_r in *. simpl. unfold chunk_flush.
    eapply Forall_impl; [|exact Hd]. intros d [Hc|Hc].
    + destruct (negb (is_empty (current st))); [|exact Hc].
      apply Exists_app. left. exact Hc.
    + destruct (current st) as [|x l] eqn:E; [destruct Hc|].
      cbn [is_empty negb]. apply Exists_app. right. constructor.
      apply (finalize_covers n); assumption.
  - simpl.
    replace (done ++ s :: rest) with ((done ++ [s]) ++ rest)
      by (rewrite <- app_assoc; reflexivity).
    apply IH.
    + destruct (ChunkingFacts.chunk_step_ok n cs ov
                  (mkLoop [] (current st) (current_tokens st)) s rest)
        as [H _]; [exact Hs|constructor|].
      unfold chunk_step in *. cbn [current current_tokens chunks] in *.
      destruct (negb (is_empty (current st))
                && (current_tokens st + s_tokens s >? cs));
        [|exact H].
      destruct (_apply_overlap (current st) ov). exact H.
    + apply (chunk_step_kept n cs ov st s rest done Hs Hd).
Qed.

Lemma estimate_tokens_positive (t : str) : 1 <= _estimate_tokens t.
Proof. unfold _estimate_tokens. lia. Qed.

Lemma collect_tokens (ms : list Match) :
  Forall (fun s => 1 <= s_tokens s) (collect_sentences ms).
Proof.
  induction ms as [|m ms IH]; simpl; [constructor|].
  destruct (sentence_of_match m) as [s|] eqn:E; [|exact IH].
  constructor; [|exact IH].
  unfold sentence_of_match in E.
  destruct (strip (m_group m)); [discriminate|].
  inversion E. cbn [s_tokens]. apply estimate_tokens_positive.
Qed.

Lemma split_tokens (t : str) :
  Forall (fun s => 1 <= s_tokens s) (_split_into_sentences t).
Proof.
  unfold _split_into_sentences.
  pose proof (collect_tokens (finditer t)) as H.
  destruct (collect_sentences (finditer t)); [|exact H].
  constructor; [|constructor]. cbn [s_tokens].
  apply estimate_tokens_positive.
Qed.

Lemma sum_tokens_nonneg (l : list Sentence) :
  Forall (fun s => 1 <= s_tokens s) l -> 0 <= sum_tokens l.
Proof.
  induction 1 as [|s l Hs _ IH]; [reflexivity|].
  rewrite sum_tokens_cons. lia.
Qed.

(** While the tokens stay within the chunk size, the loop of [chunk] only
    appends to the chunk being built. *)
Lemma fold_within_size (cs ov : Z) :
  forall rest cur,
    Forall (fun s => 1 <= s_tokens s) rest ->
    sum_tokens cur + sum_tokens rest <= cs ->
    fold_left (chunk_step cs ov) rest (mkLoop [] cur (sum_tokens cur))
    = mkLoop [] (cur ++ rest) (sum_tokens (cur ++ rest)).
Proof.
  induction rest as [|s rest IH]; intros cur Hpos Hsum.
  - rewrite app_nil_r. reflexivity.
  - pose proof (Forall_inv Hpos) as Hs.
    pose proof (Forall_inv_tail Hpos) as Hrest.
    pose proof (sum_tokens_nonneg rest Hrest) as Hnn.
    rewrite sum_tokens_cons in Hsum.
    cbn [fold_left]. unfold chunk_step at 2.
    cbn [current current_tokens chunks].
    replace (sum_tokens cur + s_tokens s >? cs) with false
      by (symmetry; rewrite Z.gtb_ltb; apply Z.ltb_ge; lia).
    rewrite andb_false_r. cbn [current current_tokens chunks].
    replace (sum_tokens cur + s_tokens s) with (sum_tokens (cur ++ [s]))
      by (rewrite sum_tokens_app, sum_tokens_cons;
          change (sum_tokens []) with 0; lia).
    rewrite IH; [|exact Hrest|].
    + rewrite <- app_assoc. reflexivity.
    + rewrite sum_tokens_app, sum_tokens_cons.
      change (sum_tokens []) with 0. lia.
Qed.

End ChunkingMore.

(** X1: every sentence [_split_into_sentences] returns has for text the
    stripped text between its two offsets: [text[start:end].strip()]. *)
Theorem sentence_text_is_stripped_slice (t : str) :
  Forall (ChunkingProps.text_at_offsets t) (Chunking._split_into_sentences t).
Proof.
  unfold Chunking._split_into_sentences.
  destruct (Chunking.collect_sentences (Chunking.finditer t))
    as [|s l] eqn:E.
  - constructor; [|constructor].
    unfold ChunkingProps.text_at_offsets, slice, len.
    cbn [Chunking.s_text Chunking.s_start Chunking.s_end].
    rewrite Z.sub_0_r, Nat2Z.id. simpl. rewrite firstn_all. reflexivity.
  - rewrite <- E. apply ChunkingMore.collect_slices.
    destruct (ChunkingFacts.finditer_ok t) as [Hf _].
    apply (ChunkingMore.finditer_fuel_groups t (length t) 0 t);
      [reflexivity|exact Hf].
Qed.

(** X2: [chunk] returns at least one chunk for every text that is not empty,
    a text of white space included. *)
Theorem chunk_of_text_is_not_empty (t : str) (chunk_size overlap : Z) :
  t <> [] -> Chunking.chunk t chunk_size overlap <> [].
Proof.
  intros Ht. unfold Chunking.chunk. destruct t as [|c0 t0]; [congruence|].
  destruct (Chunking._split_into_sentences (c0 :: t0)) as [|s rest] eqn:E;
    [exfalso; exact (ChunkingMore.split_not_empty _ E)|].
  simpl.
  pose proof (ChunkingMore.fold_current chunk_size overlap rest
                (Chunking.chunk_step chunk_size overlap
                   (Chunking.mkLoop [] [] 0) s)
                (ChunkingFacts.chunk_step_current _ _ _ _)) as H.
  unfold Chunking.chunk_flush. rewrite H. simpl.
  intros Hnil. apply app_eq_nil in Hnil. destruct Hnil as [_ Hnil].
  discriminate.
Qed.

Lemma chunk_of_text_is_not_empty_witness :
  Chunking.chunk (lit "   ") 512 50 <> [].
Proof. apply chunk_of_text_is_not_empty. discriminate. Defined.

(** X3: a text whose sentences have, together, no more tokens than the
    chunk size is not split: [chunk] returns one chunk, of index 0, made
    of all the sentences, from the start of the first to the end of the
    last, whatever the overlap. *)
Theorem small_text_is_one_chunk (t : str) (chunk_size overlap : Z) :
  t <> [] ->
  Chunking.sum_tokens (Chunking._split_into_sentences t) <= chunk_size ->
  Chunking.chunk t chunk_size overlap
  = [Chunking._finalize_chunk (Chunking._split_into_sentences t) 0].
Proof.
  intros Ht Hsum. unfold Chunking.chunk.
  destruct t as [|c0 t0]; [congruence|].
  pose proof (ChunkingMore.fold_within_size chunk_size overlap
                (Chunking._split_into_sentences (c0 :: t0)) []
                (ChunkingMore.split_tokens (c0 :: t0))) as H.
  change (Chunking.sum_tokens []) with 0 in H.
  rewrite H by lia. cbn [app]. unfold Chunking.chunk_flush.
  cbn [Chunking.current Chunking.chunks].
  destruct (Chunking._split_into_sentences (c0 :: t0)) eqn:E;
    [exfalso; exact (ChunkingMore.split_not_empty _ E)|].
  reflexivity.
Qed.

(** Three sentences of two tokens each, in chunks of 512 tokens. *)
Lemma small_text_is_one_chunk_witness :
  Chunking.chunk (lit "A. B. C.") 512 0
  = [Chunking._finalize_chunk
       (Chunking._split_into_sentences (lit "A. B. C.")) 0].
Proof.
  apply (small_text_is_one_chunk (lit "A. B. C.") 512 0).
  - discriminate.
  - vm_compute. discriminate.
Defined.

(** X4: the [index] of the chunks [chunk] returns counts from zero: the chunk
    at position [k] of the list has index [k]. *)
Theorem chunk_indexes_count_from_zero (t : str) (chunk_size overlap : Z) :
  map Chunking.index (Chunking.chunk t chunk_size overlap)
  = map Z.of_nat (seq 0 (length (Chunking.chunk t chunk_size overlap))).
Proof.
  unfold Chunking.chunk. destruct t as [|c0 t0]; [reflexivity|].
  apply (ChunkingMore.fold_numbered chunk_size overlap). reflexivity.
Qed.

(** X5: no sentence is lost: for a text that is not empty, every sentence of
    the text lies between the offsets of one of the chunks. *)
Theorem every_sentence_is_in_a_chunk (t : str) (chunk_size overlap : Z) :
  t <> [] ->
  Forall
    (fun s =>
       Exists (fun c => ChunkingProps.covers c s)
         (Chunking.chunk t chunk_size overlap))
    (Chunking._split_into_sentences t).
Proof.
  intros Ht. unfold Chunking.chunk. destruct t as [|c0 t0]; [congruence|].
  apply (ChunkingMore.fold_kept (len (c0 :: t0)) chunk_size overlap
           (Chunking._split_into_sentences (c0 :: t0))
           (Chunking.mkLoop [] [] 0) []).
  - apply ChunkingFacts.split_ok.
  - constructor.
Qed.

Lemma every_sentence_is_in_a_chunk_witness :
  Forall
    (fun s =>
       Exists (fun c => ChunkingProps.covers c s)
         (Chunking.chunk (lit "A. B. C.") 2 0))
    (Chunking._split_into_sentences (lit "A. B. C.")).
Proof. apply every_sentence_is_in_a_chunk. discriminate. Defined.

(** X6: the window [_apply_overlap] carries into the next chunk is the
    shortest suffix of the closed chunk, of one sentence at least, whose
    tokens reach the overlap, and the whole chunk when its tokens do not
    reach it; the count returned is the sum of the tokens of the window. *)
Theorem overlap_window_is_shortest_suffix
  (sentences : list Chunking.Sentence) (overlap : Z) :
  let window := fst (Chunking._apply_overlap sentences overlap) in
  let tokens := snd (Chunking._apply_overlap sentences overlap) in
  (exists dropped,
     sentences = dropped ++ window
     /\ (dropped <> [] -> tokens >= overlap))
  /\ tokens = Chunking.sum_tokens window
  /\ (sentences <> [] -> window <> [])
  /\ (forall s rest,
        window = s :: rest -> rest <> [] ->
        Chunking.sum_tokens rest < overlap).
Proof.
  cbv zeta. unfold Chunking._apply_overlap.
  destruct (ChunkingMore.overlap_loop_prefix (rev sentences) [] 0 overlap)
    as [r1 [r2 [E1 [E2 [H2 [Hne Hpre]]]]]].
  rewrite E2. cbn [fst snd]. rewrite app_nil_r.
  assert (Es : sentences = rev r2 ++ rev r1).
  { rewrite <- rev_app_distr, <- E1, rev_involutive. reflexivity. }
  split; [|split; [|split]].
  - exists (rev r2). split; [exact Es|].
    intros Hd. apply H2. intros ->. apply Hd. reflexivity.
  - rewrite ChunkingMore.sum_tokens_rev. lia.
  - intros Hs Hw. apply Hne.
    + intros Hr. apply Hs. rewrite <- (rev_involutive sentences), Hr.
      reflexivity.
    + rewrite <- (rev_involutive r1), Hw. reflexivity.
  - intros s rest Hw Hrest.
    assert (Er : r1 = rev rest ++ [s]).
    { rewrite <- (rev_involutive r1), Hw. reflexivity. }
    pose proof (Hpre (rev rest) [s] Er) as H.
    rewrite ChunkingMore.sum_tokens_rev in H.
    assert (Hlt : 0 + Chunking.sum_tokens rest < overlap).
    { apply H; [|discriminate].
      intros Hr. apply Hrest. rewrite <- (rev_involutive rest), Hr.
      reflexivity. }
    lia.
Qed.

(** ** More of the parser *)

Module ParserMore.
Import ParserProps.

Lemma length_dropwhile (p : ascii -> bool) (l : str) :
  (length (dropwhile p l) <= length l)%nat.
Proof.
  induction l as [|c l IH]; simpl; [lia|].
  destruct (p c); simpl; lia.
Qed.

Lemma length_strip (l : str) : (length (strip l) <= length l)%nat.
Proof.
  unfold strip. rewrite length_rev.
  pose proof (length_dropwhile is_space (rev (dropwhile is_space l))) as H1.
  pose proof (length_dropwhile is_space l) as H2.
  rewrite length_rev in H1. lia.
Qed.

Lemma non_space_dropwhile (l : str) :
  non_space (dropwhile is_space l) = non_space l.
Proof.
  unfold non_space. induction l as [|c l IH]; [reflexivity|].
  simpl. destruct (is_space c) eqn:E; simpl; [exact IH|].
  rewrite E. reflexivity.
Qed.

Lemma non_space_rev (l : str) : non_space (rev l) = rev (non_space l).
Proof.
  unfold non_space. induction l as [|c l IH]; [reflexivity|].
  simpl. rewrite filter_app, IH. simpl.
  destruct (negb (is_space c)); simpl; [reflexivity|].
  rewrite app_nil_r. reflexivity.
Qed.

Lemma non_space_strip (l : str) : non_space (strip l) = non_space l.
Proof.
  unfold strip.
  rewrite non_space_rev, non_space_dropwhile, non_space_rev, rev_involutive.
  apply non_space_dropwhile.
Qed.

Lemma firstn_plus {A} (l : list A) :
  forall a b, firstn (a + b) l = firstn a l ++ firstn b (skipn a l).
Proof.
  induction l as [|x l IH]; intros a b.
  - rewrite !firstn_nil, skipn_nil, firstn_nil. reflexivity.
  - destruct a as [|a]; [reflexivity|].
    simpl. f_equal. apply IH.
Qed.

Lemma concat_blocks {A} (t : list A) (n : nat) :
  forall k,
    concat (map (fun i => firstn n (skipn (i * n) t)) (seq 0 k))
    = firstn (k * n) t.
Proof.
  induction k as [|k IH]; [reflexivity|].
  rewrite seq_S, map_app, concat_app, IH. simpl.
  rewrite app_nil_r, <- firstn_plus. f_equal. lia.
Qed.

Lemma pages_as_blocks (t : str) (page_size : Z) :
  0 < page_size ->
  Parser._split_text t page_size
  = map (fun i => strip (firstn (Z.to_nat page_size)
                           (skipn (i * Z.to_nat page_size) t)))
      (seq 0 (Z.to_nat ((len t + page_size - 1) / page_size))).
Proof.
  intros Hp. unfold Parser._split_text, Parser.py_range.
  rewrite map_map. apply map_ext. intros k. unfold slice.
  f_equal. f_equal; [f_equal; lia|]. f_equal.
  rewrite Z2Nat.inj_mul, Nat2Z.id; lia.
Qed.

Lemma pages_reach_the_end (t : str) (page_size : Z) :
  0 < page_size ->
  (length t
   <= Z.to_nat ((len t + page_size - 1) / page_size) * Z.to_nat page_size)%nat.
Proof.
  intros Hp. unfold len.
  pose proof (Z.div_mod (Z.of_nat (length t) + page_size - 1) page_size) as H.
  pose proof (Z.mod_pos_bound (Z.of_nat (length t) + page_size - 1)
                page_size Hp) as Hm.
  assert (Hq : 0 <= (Z.of_nat (length t) + page_size - 1) / page_size)
    by (apply Z.div_pos; lia).
  rewrite <- Z2Nat.inj_mul by lia.
  apply Nat2Z.inj_le. rewrite Z2Nat.id by nia. nia.
Qed.

Lemma split_text_count (t : str) (page_size : Z) :
  0 < page_size ->
  len (Parser._split_text t page_size) = (len t + page_size - 1) / page_size.
Proof.
  intros Hp. unfold Parser._split_text, Parser.py_range, len.
  rewrite !length_map, length_seq. apply Z2Nat.id.
  apply Z.div_pos; lia.
Qed.

Lemma split_text_sizes (t : str) (page_size : Z) :
  0 < page_size ->
  Forall (fun p => len p <= page_size) (Parser._split_text t page_size).
Proof.
  intros Hp. rewrite pages_as_blocks by exact Hp.
  apply Forall_forall. intros p Hin. apply in_map_iff in Hin.
  destruct Hin as [k [<- _]]. unfold len.
  pose proof (length_strip
                (firstn (Z.to_nat page_size)
                   (skipn (k * Z.to_nat page_size) t))) as H.
  rewrite length_firstn in H. lia.
Qed.

Lemma split_text_content (t : str) (page_size : Z) :
  0 < page_size ->
  non_space t = concat (map non_space (Parser._split_text t page_size)).
Proof.
  intros Hp. rewrite pages_as_blocks by exact Hp.
  rewrite map_map.
  rewrite (map_ext _
             (fun i => non_space
                         (firstn (Z.to_nat page_size)
                            (skipn (i * Z.to_nat page_size) t))))
    by (intros k; apply non_space_strip).
  rewrite <- (map_map
                (fun i => firstn (Z.to_nat page_size)
                            (skipn (i * Z.to_nat page_size) t)) non_space).
  unfold non_space at 2. rewrite concat_filter_map.
  rewrite concat_blocks, firstn_all2; [reflexivity|].
  apply pages_reach_the_end. exact Hp.
Qed.

Section WithExternals.
Variable ext : Externals.

Lemma read_parts (handle : list byte) (n : Z) :
  n <> 0 ->
  fst (Parser.read handle n) ++ snd (Parser.read handle n) = handle
  /\ (fst (Parser.read handle n) = [] -> handle = []).
Proof.
  intros Hn. unfold Parser.read. destruct (n <? 0) eqn:E; simpl.
  - rewrite app_nil_r. split; [reflexivity|auto].
  - rewrite firstn_skipn. split; [reflexivity|].
    apply Z.ltb_ge in E. destruct (Z.to_nat n) as [|k] eqn:Ek; [lia|].
    destruct handle; [reflexivity|discriminate].
Qed.

Lemma hash_loop_whole (Hs : streaming ext) (n : Z) :
  n <> 0 ->
  forall fuel digest handle,
    (length handle < fuel)%nat ->
    Parser.hash_loop ext fuel digest handle n
    = Some match handle with
           | [] => digest
           | _ :: _ => update ext digest handle
           end.
Proof.
  intros Hn.
  induction fuel as [|f IH]; intros digest handle Hlt; [lia|].
  cbn [Parser.hash_loop].
  destruct (read_parts handle n Hn) as [Happ Hnil].
  destruct (Parser.read handle n) as [chunk handle'] eqn:E.
  cbn [fst snd] in Happ, Hnil.
  destruct chunk as [|b chunk].
  - rewrite (Hnil eq_refl). reflexivity.
  - apply ParserFacts.read_shrinks in E.
    rewrite IH by lia. f_equal.
    destruct handle' as [|b' handle'].
    + rewrite app_nil_r in Happ. subst handle. reflexivity.
    + rewrite Hs, Happ. rewrite <- Happ. reflexivity.
Qed.

End WithExternals.
End ParserMore.

(** X7: [_split_text] with a positive page size cuts the text into
    [ceil(len(text) / page_size)] pages, none for the empty text; no page
    is longer than the page size; and it loses white space only: the
    characters of the pages that are not white space are, page after
    page, those of the text. *)
Theorem split_text_pages_cover_the_text (t : str) (page_size : Z) :
  0 < page_size ->
  len (Parser._split_text t page_size) = (len t + page_size - 1) / page_size
  /\ Forall (fun p => len p <= page_size) (Parser._split_text t page_size)
  /\ ParserProps.non_space t
     = concat (map ParserProps.non_space (Parser._split_text t page_size)).
Proof.
  intros Hp. split; [|split].
  - apply ParserMore.split_text_count. exact Hp.
  - apply ParserMore.split_text_sizes. exact Hp.
  - apply ParserMore.split_text_content. exact Hp.
Qed.

(** Eight characters in pages of three: [ab], [cd], [e]. *)
Lemma split_text_pages_cover_the_text_witness :
  len (Parser._split_text (lit "ab  cd e") 3) = (8 + 3 - 1) / 3
  /\ Forall (fun p => len p <= 3) (Parser._split_text (lit "ab  cd e") 3)
  /\ ParserProps.non_space (lit "ab  cd e")
     = concat (map ParserProps.non_space
                 (Parser._split_text (lit "ab  cd e") 3)).
Proof.
  apply (split_text_pages_cover_the_text (lit "ab  cd e") 3). lia.
Defined.

(** X8: [parse] does not raise on a regular file named [.txt] or [.md],
    whatever its bytes: it returns the pages of the decoded text, of 3000
    characters at most, no page at all when the text is empty, and it
    records the hash of the file. *)
Theorem parse_of_text_file (ext : Externals) (w : World) (path : str)
  (content : list byte) :
  fs_lookup (fs w) path = Some (File content) ->
  lower (path_suffix path) = lit ".txt"
  \/ lower (path_suffix path) = lit ".md" ->
  let text := utf8_ignore ext content in
  exists pages w',
    Parser.parse ext path w = (Ok pages, w')
    /\ len pages = (len text + 2999) / 3000
    /\ Forall (fun p => len p <= 3000) pages
    /\ ParserProps.non_space text = concat (map ParserProps.non_space pages)
    /\ last_file_hash w' = Some (Parser.hash_bytes ext content 8192).
Proof.
  intros Hfs Hsuffix. cbv zeta. rewrite ParserFacts.parse_run. cbv zeta.
  rewrite Hfs.
  assert (Hs : str_eqb (lower (path_suffix path)) (lit ".pdf") = false
               /\ str_eqb (lower (path_suffix path)) (lit ".txt")
                  || str_eqb (lower (path_suffix path)) (lit ".md") = true).
  { destruct Hsuffix as [-> | ->]; split; reflexivity. }
  destruct Hs as [Hpdf Htxt]. rewrite Hpdf, Htxt.
  eexists. eexists. split; [reflexivity|].
  destruct (utf8_ignore ext content) as [|c0 text] eqn:E.
  - cbn [is_empty]. repeat split; constructor.
  - cbn [is_empty]. split; [|split; [|split]].
    + rewrite ParserMore.split_text_count by lia. f_equal. lia.
    + apply ParserMore.split_text_sizes. lia.
    + apply ParserMore.split_text_content. lia.
    + reflexivity.
Qed.

Lemma parse_of_text_file_witness :
  let text :=
    utf8_ignore Scenario.ext (Scenario.bytes_of Scenario.long_text) in
  exists pages w',
    Parser.parse Scenario.ext Scenario.a_txt Scenario.first_version
    = (Ok pages, w')
    /\ len pages = (len text + 2999) / 3000
    /\ Forall (fun p => len p <= 3000) pages
    /\ ParserProps.non_space text = concat (map ParserProps.non_space pages)
    /\ last_file_hash w'
       = Some (Parser.hash_bytes Scenario.ext
                 (Scenario.bytes_of Scenario.long_text) 8192).
Proof.
  apply (parse_of_text_file Scenario.ext Scenario.first_version
           Scenario.a_txt (Scenario.bytes_of Scenario.long_text)).
  - vm_compute. reflexivity.
  - left. vm_compute. reflexivity.
Defined.

(** X9: a [parse] that raises leaves [last_file_hash] as it was: the hash is
    recorded only when the pages are returned. *)
Theorem failed_parse_keeps_last_hash (ext : Externals) (w : World)
  (path : str) (e : exn) :
  fst (Parser.parse ext path w) = Raise e ->
  last_file_hash (snd (Parser.parse ext path w)) = last_file_hash w.
Proof.
  rewrite ParserFacts.parse_run. cbv zeta.
  destruct (fs_lookup (fs w) path) as [[content|]|]; try reflexivity.
  destruct (str_eqb (lower (path_suffix path)) (lit ".pdf")).
  - destruct (PdfReader ext content); [discriminate|reflexivity].
  - destruct (str_eqb (lower (path_suffix path)) (lit ".txt")
              || str_eqb (lower (path_suffix path)) (lit ".md"));
      [discriminate|reflexivity].
Qed.

Lemma failed_parse_keeps_last_hash_witness :
  last_file_hash
    (snd (Parser.parse Scenario.ext Scenario.c_docx Scenario.folder))
  = last_file_hash Scenario.folder.
Proof.
  apply (failed_parse_keeps_last_hash Scenario.ext Scenario.folder
           Scenario.c_docx
           (mkExn ValueError (lit "Unsupported file type: .docx"))).
  vm_compute. reflexivity.
Defined.

(** X10: with a digest that takes its data block after block, the hash
    [_compute_hash] and [_compute_file_hash] return for a content is the
    digest of the whole content whatever the block size, positive or
    negative; with a block size of 0 the first read is empty and the hash
    is the digest of no data, whatever the content. *)
Theorem file_hash_is_digest_of_content (ext : Externals)
  (content : list byte) (chunk_size : Z) :
  ParserProps.streaming ext ->
  (chunk_size <> 0 ->
   Parser.hash_bytes ext content chunk_size
   = ParserProps.digest_of ext content
   /\ Indexer.file_hash_bytes ext content chunk_size
      = ParserProps.digest_of ext content)
  /\ Parser.hash_bytes ext content 0 = ParserProps.digest_of ext []
  /\ Indexer.file_hash_bytes ext content 0 = ParserProps.digest_of ext [].
Proof.
  intros Hs. split; [|split; reflexivity].
  intros Hn.
  assert (H : Parser.hash_bytes ext content chunk_size
              = ParserProps.digest_of ext content).
  { unfold Parser.hash_bytes, ParserProps.digest_of.
    rewrite (ParserMore.hash_loop_whole ext Hs chunk_size Hn) by lia.
    reflexivity. }
  split; [exact H|].
  etransitivity; [symmetry; apply ParserFacts.hash_bytes_agree|exact H].
Qed.

Lemma file_hash_is_digest_of_content_witness :
  Parser.hash_bytes Scenario.ext (Scenario.bytes_of Scenario.short_text) 4
  = ParserProps.digest_of Scenario.ext (Scenario.bytes_of Scenario.short_text).
Proof.
  apply (proj1 (file_hash_is_digest_of_content Scenario.ext
                  (Scenario.bytes_of Scenario.short_text) 4
                  (fun d a b => eq_sym (app_assoc d a b)))).
  discriminate.
Defined.

(** ** More of the vector store *)

Module VectorMore.
Import Vectors VectorProps.

Lemma str_eqb_neq (a b : str) : str_eqb a b = false <-> a <> b.
Proof.
  split.
  - intros H E. apply str_eqb_eq in E. congruence.
  - intros H. destruct (str_eqb a b) eqn:E; [|reflexivity].
    apply str_eqb_eq in E. contradiction.
Qed.

Lemma str_eqb_sym (a b : str) : str_eqb a b = str_eqb b a.
Proof.
  destruct (str_eqb a b) eqn:E.
  - apply str_eqb_eq in E. subst. symmetry. apply str_eqb_refl.
  - symmetry. apply str_eqb_neq. apply str_eqb_neq in E. congruence.
Qed.

(** The point read back under an id after one point is written. *)
Lemma retrieve_upsert_point_eq (q : Stored) (i : str) :
  forall c,
    retrieve i (upsert_point q c)
    = if str_eqb (r_id q) i then Some q else retrieve i c.
Proof.
  unfold retrieve. induction c as [|r c IH]; cbn [upsert_point find].
  - destruct (str_eqb (r_id q) i); reflexivity.
  - destruct (str_eqb (r_id r) (r_id q)) eqn:Erq.
    + apply str_eqb_eq in Erq. cbn [find]. rewrite Erq.
      destruct (str_eqb (r_id q) i); reflexivity.
    + cbn [find]. rewrite IH.
      destruct (str_eqb (r_id r) i) eqn:Eri; [|reflexivity].
      destruct (str_eqb (r_id q) i) eqn:Eqi; [|reflexivity].
      apply str_eqb_eq in Eri, Eqi. subst i.
      apply str_eqb_neq in Erq. congruence.
Qed.

Lemma find_snoc {A} (f : A -> bool) (l : list A) (x : A) :
  find f (l ++ [x])
  = match find f l with
    | Some y => Some y
    | None => if f x then Some x else None
    end.
Proof.
  induction l as [|y l IH]; simpl; [reflexivity|].
  destruct (f y); [reflexivity|exact IH].
Qed.

Lemma retrieve_upsert_eq (i : str) :
  forall points c,
    retrieve i (upsert points c)
    = match last_with_id i points with
      | Some q => Some (stored_of q)
      | None => retrieve i c
      end.
Proof.
  unfold upsert, last_with_id.
  induction points as [|q points IH]; intros c; [reflexivity|].
  cbn [fold_left rev]. rewrite IH, find_snoc, retrieve_upsert_point_eq.
  destruct (find (fun q0 => str_eqb (p_id q0) i) (rev points));
    [reflexivity|].
  cbn [stored_of r_id].
  destruct (str_eqb (p_id q) i); reflexivity.
Qed.

Lemma last_with_id_in (i : str) (points : list Point) :
  In i (map p_id points) <-> last_with_id i points <> None.
Proof.
  unfold last_with_id. split.
  - intros Hin. apply in_map_iff in Hin. destruct Hin as [q [Hq Hin]].
    destruct (find (fun q0 => str_eqb (p_id q0) i) (rev points)) eqn:E;
      [discriminate|].
    apply in_rev in Hin. apply (find_none _ _ E q) in Hin.
    rewrite Hq, str_eqb_refl in Hin. discriminate.
  - intros H.
    destruct (find (fun q0 => str_eqb (p_id q0) i) (rev points)) as [q|] eqn:E;
      [|congruence].
    apply find_some in E. destruct E as [Hin Hq].
    apply str_eqb_eq in Hq. apply in_map_iff. exists q.
    split; [exact Hq|]. apply in_rev. exact Hin.
Qed.

Lemma find_unique (i : str) (q : Point) :
  forall l,
    NoDup (map p_id l) -> In q l -> p_id q = i ->
    find (fun x => str_eqb (p_id x) i) l = Some q.
Proof.
  induction l as [|x l IH]; intros Hnd Hin Hq; [destruct Hin|].
  cbn [map] in Hnd. apply NoDup_cons_iff in Hnd. destruct Hnd as [Hx Hnd].
  cbn [find]. destruct Hin as [->|Hin].
  - rewrite Hq, str_eqb_refl. reflexivity.
  - destruct (str_eqb (p_id x) i) eqn:E; [|apply IH; assumption].
    apply str_eqb_eq in E. exfalso. apply Hx.
    apply in_map_iff. exists q. split; [congruence|exact Hin].
Qed.

Lemma last_with_id_unique (q : Point) (points : list Point) :
  NoDup (map p_id points) -> In q points ->
  last_with_id (p_id q) points = Some q.
Proof.
  intros Hnd Hin. unfold last_with_id. apply find_unique.
  - rewrite map_rev. apply NoDup_rev. exact Hnd.
  - apply in_rev in Hin. exact Hin.
  - reflexivity.
Qed.

Lemma retrieve_delete_ids (i d : str) (c : Collection) :
  retrieve i (delete_ids [d] c)
  = if str_eqb i d then None else retrieve i c.
Proof.
  unfold retrieve, delete_ids.
  rewrite (filter_ext _ (fun q => negb (str_eqb (r_id q) d)))
    by (intros q; simpl; rewrite orb_false_r; reflexivity).
  induction c as [|r c IH]; cbn [filter find].
  - destruct (str_eqb i d); reflexivity.
  - destruct (str_eqb (r_id r) d) eqn:Erd; cbn [negb].
    + rewrite IH. destruct (str_eqb i d) eqn:Eid; [reflexivity|].
      destruct (str_eqb (r_id r) i) eqn:Eri; [|reflexivity].
      apply str_eqb_eq in Eri, Erd. subst.
      rewrite str_eqb_refl in Eid. discriminate.
    + cbn [find]. rewrite IH.
      destruct (str_eqb (r_id r) i) eqn:Eri; [|reflexivity].
      apply str_eqb_eq in Eri. subst i. rewrite Erd. reflexivity.
Qed.

Section WithExternals.
Variable ext : Externals.

(** The points [add_documents] builds, one for each chunk. *)
Lemma build_points_nth :
  forall chunks embeddings metadata n,
    length chunks = length embeddings ->
    length embeddings = length metadata ->
    let points :=
      fst (VectorDB.build_points ext n chunks embeddings metadata) in
    length points = length chunks
    /\ forall k chunk embedding meta,
         nth_error chunks k = Some chunk ->
         nth_error embeddings k = Some embedding ->
         nth_error metadata k = Some meta ->
         exists i,
           nth_error points k = Some (mkPoint i embedding chunk meta)
           /\ forall wanted, wanted_id meta = Some wanted -> i = wanted.
Proof.
  induction chunks as [|chunk0 chunks IH];
    intros embeddings metadata n He Hm; cbv zeta.
  - split; [reflexivity|]. intros k ? ? ? H. destruct k; discriminate.
  - destruct embeddings as [|embedding0 embeddings]; [discriminate|].
    destruct metadata as [|meta0 metadata]; [discriminate|].
    cbn [VectorDB.build_points].
    set (given := match meta0 with Some m => md_id m | None => [] end).
    destruct (if is_empty given then (uuid4 ext n, S n) else (given, n))
      as [document_id n'] eqn:Eid.
    specialize (IH embeddings metadata n').
    destruct (VectorDB.build_points ext n' chunks embeddings metadata)
      as [points n''].
    cbn [fst] in *. cbn [length] in He, Hm.
    destruct IH as [Hlen Hnth]; [lia|lia|].
    split; [cbn [length]; lia|].
    intros k chunk embedding meta Hc Hemb Hmeta.
    destruct k as [|k].
    + cbn [nth_error] in *. inversion Hc; inversion Hemb; inversion Hmeta.
      subst. exists document_id. split; [reflexivity|].
      intros wanted Hw. unfold wanted_id in Hw. subst given.
      destruct meta as [m|]; [|discriminate].
      destruct (is_empty (md_id m)); [discriminate|].
      inversion Hw; subst wanted. inversion Eid. reflexivity.
    + cbn [nth_error] in *. apply (Hnth k); assumption.
Qed.

(** No id is drawn when every chunk comes with its own. *)
Lemma build_points_given :
  forall chunks embeddings metadata n,
    Forall (fun meta => wanted_id meta <> None) metadata ->
    snd (VectorDB.build_points ext n chunks embeddings metadata) = n.
Proof.
  induction chunks as [|chunk0 chunks IH];
    intros embeddings metadata n Hw; [reflexivity|].
  destruct embeddings as [|embedding0 embeddings]; [reflexivity|].
  destruct metadata as [|meta0 metadata]; [reflexivity|].
  cbn [VectorDB.build_points].
  pose proof (Forall_inv Hw) as H0. pose proof (Forall_inv_tail Hw) as Ht.
  unfold wanted_id in H0.
  destruct meta0 as [m|]; [|congruence].
  destruct (is_empty (md_id m)); [congruence|].
  specialize (IH embeddings metadata n Ht).
  destruct (VectorDB.build_points ext n chunks embeddings metadata)
    as [points n''].
  exact IH.
Qed.

(** [add_documents] on lists of one length and a collection that is
    there: one call of [client.upsert], which writes the points the store
    takes. *)
Lemma add_documents_run (base : str) (chunks : list str)
  (embeddings : list (list float)) (metadata : list (option Metadata))
  (w : World) (coll : Collection) :
  length chunks = length embeddings ->
  length embeddings = length metadata ->
  collections w base = Some coll ->
  let built := VectorDB.build_points ext (uuids w) chunks embeddings metadata in
  let called :=
    set_calls (calls w ++ [CUpsert base (map p_id (fst built))])
      (set_uuids (snd built) w) in
  VectorDB.add_documents ext base chunks embeddings metadata w
  = match upsert_fault ext (fst built) with
    | None =>
        (Ok (map p_id (fst built)),
         set_collections
           (at_base (collections w) base (Some (upsert (fst built) coll)))
           called)
    | Some (taken, e) =>
        (Raise e,
         set_collections
           (at_base (collections w) base
              (Some (upsert (firstn taken (fst built)) coll)))
           called)
    end.
Proof.
  intros He Hm Hc. cbv zeta. unfold VectorDB.add_documents, len.
  rewrite He, Hm, !Z.eqb_refl. cbn [andb negb].
  rewrite bind_run. unfold get at 1. cbv beta iota.
  destruct (VectorDB.build_points ext (uuids w) chunks embeddings metadata)
    as [points n'].
  cbn [fst snd].
  unfold VectorDB.client_upsert, record_call, bind, modify, get, ret, raise.
  cbn [collections set_uuids set_calls]. rewrite Hc.
  destruct (upsert_fault ext points) as [[taken e]|]; reflexivity.
Qed.

Lemma add_documents_lengths (base : str) (chunks : list str)
  (embeddings : list (list float)) (metadata : list (option Metadata))
  (w : World) :
  length chunks <> length embeddings
  \/ length embeddings <> length metadata ->
  VectorDB.add_documents ext base chunks embeddings metadata w
  = (Raise (mkExn ValueError
              (lit "chunks, embeddings, and metadata must be the same length")),
     w).
Proof.
  intros H. unfold VectorDB.add_documents, len.
  assert (E : (Z.of_nat (length chunks) =? Z.of_nat (length embeddings))
              && (Z.of_nat (length embeddings)
                  =? Z.of_nat (length metadata)) = false).
  { apply andb_false_iff.
    destruct H as [H|H]; [left|right]; apply Z.eqb_neq; lia. }
  rewrite E. reflexivity.
Qed.

(** A call of [add_documents] that returns was given lists of one length
    and a collection that is there, and the store took every point. *)
Lemma add_documents_ok (base : str) (chunks : list str)
  (embeddings : list (list float)) (metadata : list (option Metadata))
  (w w' : World) (ids : list str) :
  VectorDB.add_documents ext base chunks embeddings metadata w
  = (Ok ids, w') ->
  length chunks = length embeddings
  /\ length embeddings = length metadata
  /\ (exists coll, collections w base = Some coll)
  /\ upsert_fault ext
       (fst (VectorDB.build_points ext (uuids w) chunks embeddings metadata))
     = None.
Proof.
  intros Hrun.
  destruct (Nat.eq_dec (length chunks) (length embeddings)) as [He|He];
    [|rewrite add_documents_lengths in Hrun by (left; exact He);
      discriminate].
  destruct (Nat.eq_dec (length embeddings) (length metadata)) as [Hm|Hm];
    [|rewrite add_documents_lengths in Hrun by (right; exact Hm);
      discriminate].
  split; [exact He|]. split; [exact Hm|].
  destruct (collections w base) as [coll|] eqn:Hc.
  - split; [exists coll; reflexivity|].
    rewrite (add_documents_run base chunks embeddings metadata w coll
               He Hm Hc) in Hrun.
    cbv zeta in Hrun.
    destruct (upsert_fault ext _) as [[taken e]|];
      [discriminate|reflexivity].
  - exfalso. revert Hrun. unfold VectorDB.add_documents, len.
    rewrite He, Hm, !Z.eqb_refl. cbn [andb negb].
    rewrite bind_run. unfold get at 1. cbv beta iota.
    destruct (VectorDB.build_points ext (uuids w) chunks embeddings metadata)
      as [points n'].
    unfold VectorDB.client_upsert, record_call, bind, modify, get, raise.
    cbn [collections set_uuids set_calls].
    rewrite Hc. discriminate.
Qed.

(** What a call of [add_documents] that returns has done. *)
Lemma add_documents_returned (base : str) (chunks : list str)
  (embeddings : list (list float)) (metadata : list (option Metadata))
  (w w' : World) (ids : list str) :
  VectorDB.add_documents ext base chunks embeddings metadata w
  = (Ok ids, w') ->
  let built := VectorDB.build_points ext (uuids w) chunks embeddings metadata in
  exists coll,
    length chunks = length embeddings
    /\ length embeddings = length metadata
    /\ collections w base = Some coll
    /\ ids = map p_id (fst built)
    /\ w' = set_collections
              (at_base (collections w) base (Some (upsert (fst built) coll)))
              (set_calls (calls w ++ [CUpsert base (map p_id (fst built))])
                 (set_uuids (snd built) w)).
Proof.
  intros Hrun. cbv zeta.
  destruct (add_documents_ok base chunks embeddings metadata w w' ids Hrun)
    as [He [Hm [[coll Hc] Hnone]]].
  exists coll. split; [exact He|]. split; [exact Hm|]. split; [exact Hc|].
  rewrite (add_documents_run base chunks embeddings metadata w coll
             He Hm Hc) in Hrun.
  cbv zeta in Hrun. rewrite Hnone in Hrun.
  inversion Hrun. split; reflexivity.
Qed.

(** What [add_documents] writes under distinct ids is read back. *)
Lemma add_documents_reads_back (base : str)
  (chunks : list str) (embeddings : list (list float))
  (metadata : list (option Metadata)) (w w' : World)
  (ids : list str) :
  VectorDB.add_documents ext base chunks embeddings metadata w
  = (Ok ids, w') ->
  NoDup ids ->
  exists coll',
    collections w' base = Some coll'
    /\ forall k chunk meta,
         nth_error chunks k = Some chunk ->
         nth_error metadata k = Some meta ->
         exists i,
           nth_error ids k = Some i
           /\ retrieve i coll' = Some (mkStored i chunk meta).
Proof.
  intros Hrun Hnd.
  destruct (add_documents_returned base chunks embeddings metadata
              w w' ids Hrun) as [coll [He [Hm [Hc [Hids Hw]]]]].
  destruct (build_points_nth chunks embeddings metadata
              (uuids w) He Hm) as [Hlen Hnth].
  set (points := fst (VectorDB.build_points ext (uuids w) chunks embeddings
                        metadata)) in *.
  exists (upsert points coll). split.
  - rewrite Hw. cbn [collections set_calls set_collections].
    apply at_base_same.
  - intros k chunk meta Ec Ek.
    assert (Hlt : (k < length embeddings)%nat).
    { rewrite <- He. apply nth_error_Some. congruence. }
    destruct (nth_error embeddings k) as [embedding|] eqn:Ee;
      [|apply nth_error_None in Ee; lia].
    destruct (Hnth k chunk embedding meta Ec Ee Ek) as [i [Hi _]].
    exists i. split.
    + rewrite Hids, nth_error_map, Hi. reflexivity.
    + rewrite retrieve_upsert_eq.
      change i with (p_id (mkPoint i embedding chunk meta)).
      rewrite last_with_id_unique; [reflexivity| |].
      * rewrite <- Hids. exact Hnd.
      * apply nth_error_In in Hi. exact Hi.
Qed.

End WithExternals.
End VectorMore.

(** X11: [add_documents] checks the lengths before anything else: given
    lists of different lengths it raises [ValueError] and writes nothing
    (no id is drawn, the collections are as they were), and whenever it
    returns, the three lists had one length. *)
Theorem add_documents_checks_lengths_first (ext : Externals)
  (base : str) (chunks : list str) (embeddings : list (list float))
  (metadata : list (option Vectors.Metadata)) (w : World) :
  (length chunks <> length embeddings
   \/ length embeddings <> length metadata ->
   VectorDB.add_documents ext base chunks embeddings metadata w
   = (Raise
        (mkExn ValueError
           (lit "chunks, embeddings, and metadata must be the same length")),
      w))
  /\ (forall ids w',
        VectorDB.add_documents ext base chunks embeddings metadata w
        = (Ok ids, w') ->
        length chunks = length embeddings
        /\ length embeddings = length metadata
        /\ length ids = length chunks).
Proof.
  split; [apply VectorMore.add_documents_lengths|].
  intros ids w' Hrun.
  destruct (VectorMore.add_documents_returned ext base chunks embeddings
              metadata w w' ids Hrun) as [coll [He [Hm [Hc [Hids Hw]]]]].
  split; [exact He|]. split; [exact Hm|].
  rewrite Hids, length_map.
  apply (VectorMore.build_points_nth ext chunks embeddings metadata (uuids w)
           He Hm).
Qed.

(** X12: [add_documents] on lists of one length, in a collection that is
    there, when the store takes every point it is given: it returns one
    id for each chunk; every id returned is found in the collection
    afterwards, every id that was found before still is, and no other id
    is; the other collections are as they were. *)
Theorem add_documents_stores_every_id (ext : Externals) (base : str)
  (chunks : list str) (embeddings : list (list float))
  (metadata : list (option Vectors.Metadata)) (w : World)
  (coll : Vectors.Collection) :
  length chunks = length embeddings ->
  length embeddings = length metadata ->
  collections w base = Some coll ->
  upsert_fault ext
    (fst (VectorDB.build_points ext (uuids w) chunks embeddings metadata))
  = None ->
  exists ids w' coll',
    VectorDB.add_documents ext base chunks embeddings metadata w
    = (Ok ids, w')
    /\ length ids = length chunks
    /\ collections w' base = Some coll'
    /\ (forall i,
          VectorProps.stored_id coll' i
          <-> VectorProps.stored_id coll i \/ In i ids)
    /\ (forall b, b <> base -> collections w' b = collections w b).
Proof.
  intros He Hm Hc Htaken.
  rewrite (VectorMore.add_documents_run ext base chunks embeddings metadata
             w coll He Hm Hc).
  cbv zeta. rewrite Htaken.
  destruct (VectorMore.build_points_nth ext chunks embeddings metadata
              (uuids w) He Hm) as [Hlen _].
  set (points := fst (VectorDB.build_points ext (uuids w) chunks embeddings
                        metadata)) in *.
  eexists. eexists. eexists. split; [reflexivity|].
  split; [rewrite length_map; exact Hlen|].
  split; [cbn [collections set_calls set_collections]; apply at_base_same|].
  split.
  - intros i. unfold VectorProps.stored_id.
    rewrite VectorMore.retrieve_upsert_eq.
    rewrite (VectorMore.last_with_id_in i points).
    destruct (VectorProps.last_with_id i points); split.
    + intros _. right. discriminate.
    + intros _. discriminate.
    + intros H. left. exact H.
    + intros [H|H]; [exact H|congruence].
  - intros b Hb. cbn [collections set_calls set_collections set_uuids].
    unfold at_base. apply VectorMore.str_eqb_neq in Hb. rewrite Hb.
    reflexivity.
Qed.

(** Two texts with vectors of 384 floats and no id of their own, written
    to the collection the indexing of the note has created. *)
Lemma add_documents_stores_every_id_witness :
  exists ids w' coll',
    VectorDB.add_documents Scenario.ext Scenario.kb [lit "a"; lit "b"]
      [Scenario.some_vector; Scenario.some_vector] [None; None]
      Scenario.after_first
    = (Ok ids, w')
    /\ length ids = 2%nat
    /\ collections w' Scenario.kb = Some coll'
    /\ (forall i,
          VectorProps.stored_id coll' i
          <-> VectorProps.stored_id
                (Scenario.collection_of
                   (collections Scenario.after_first Scenario.kb)) i
              \/ In i ids)
    /\ (forall b, b <> Scenario.kb ->
                  collections w' b = collections Scenario.after_first b).
Proof.
  apply (add_documents_stores_every_id Scenario.ext Scenario.kb
           [lit "a"; lit "b"] [Scenario.some_vector; Scenario.some_vector]
           [None; None] Scenario.after_first).
  - reflexivity.
  - reflexivity.
  - vm_compute. reflexivity.
  - vm_compute. reflexivity.
Defined.

(** X13: the ids of [add_documents]: a chunk whose metadata has an id is
    stored under that id, and when every chunk has one no id is drawn
    from [uuid4]. *)
Theorem add_documents_uses_given_ids (ext : Externals) (base : str)
  (chunks : list str) (embeddings : list (list float))
  (metadata : list (option Vectors.Metadata)) (w w' : World)
  (ids : list str) :
  VectorDB.add_documents ext base chunks embeddings metadata w
  = (Ok ids, w') ->
  (forall k meta wanted,
     nth_error metadata k = Some meta ->
     VectorProps.wanted_id meta = Some wanted ->
     nth_error ids k = Some wanted)
  /\ (Forall (fun meta => VectorProps.wanted_id meta <> None) metadata ->
      uuids w' = uuids w).
Proof.
  intros Hrun.
  destruct (VectorMore.add_documents_returned ext base chunks embeddings
              metadata w w' ids Hrun) as [coll [He [Hm [Hc [Hids Hw]]]]].
  destruct (VectorMore.build_points_nth ext chunks embeddings metadata
              (uuids w) He Hm) as [Hlen Hnth].
  split.
  - intros k meta wanted Hk Hwanted.
    assert (Hlt : (k < length metadata)%nat)
      by (apply nth_error_Some; congruence).
    destruct (nth_error chunks k) as [chunk|] eqn:Ec;
      [|apply nth_error_None in Ec; lia].
    destruct (nth_error embeddings k) as [embedding|] eqn:Ee;
      [|apply nth_error_None in Ee; lia].
    destruct (Hnth k chunk embedding meta Ec Ee Hk) as [i [Hi Hgiven]].
    rewrite Hids, nth_error_map, Hi. cbn [option_map Vectors.p_id].
    rewrite (Hgiven wanted Hwanted). reflexivity.
  - intros Hall. rewrite Hw. cbn [uuids set_calls set_collections set_uuids].
    apply VectorMore.build_points_given. exact Hall.
Qed.

(** A text with a vector of 384 floats, whose metadata asks for a UUID. *)
Lemma add_documents_uses_given_ids_witness :
  let metadata := [Some Scenario.own_metadata] in
  let run :=
    VectorDB.add_documents Scenario.ext Scenario.kb [lit "a"]
      [Scenario.some_vector] metadata Scenario.after_first in
  fst run = Ok [Scenario.own_id]
  /\ (forall k meta wanted,
        nth_error metadata k = Some meta ->
        VectorProps.wanted_id meta = Some wanted ->
        nth_error [Scenario.own_id] k = Some wanted)
  /\ (Forall (fun meta => VectorProps.wanted_id meta <> None) metadata ->
      uuids (snd run) = uuids Scenario.after_first).
Proof.
  cbv zeta.
  assert (Hrun : VectorDB.add_documents Scenario.ext Scenario.kb [lit "a"]
                   [Scenario.some_vector] [Some Scenario.own_metadata]
                   Scenario.after_first
                 = (Ok [Scenario.own_id], Scenario.own_stored))
    by (vm_compute; reflexivity).
  split; [rewrite Hrun; reflexivity|].
  rewrite Hrun. cbn [snd].
  apply (add_documents_uses_given_ids Scenario.ext Scenario.kb [lit "a"]
           [Scenario.some_vector] [Some Scenario.own_metadata]
           Scenario.after_first Scenario.own_stored [Scenario.own_id] Hrun).
Defined.

(** X14: the payload that is written is read back: when the ids
    [add_documents] returns are all different, each chunk is found
    afterwards under the id returned for it, with its text and its
    metadata (a record of the keys [_chunk_pages] writes, which has no
    [text] key to replace the text of the chunk). *)
Theorem add_documents_round_trip (ext : Externals) (base : str)
  (chunks : list str) (embeddings : list (list float))
  (metadata : list (option Vectors.Metadata)) (w w' : World)
  (ids : list str) :
  VectorDB.add_documents ext base chunks embeddings metadata w
  = (Ok ids, w') ->
  NoDup ids ->
  exists coll',
    collections w' base = Some coll'
    /\ forall k chunk meta,
         nth_error chunks k = Some chunk ->
         nth_error metadata k = Some meta ->
         exists i,
           nth_error ids k = Some i
           /\ Vectors.retrieve i coll' = Some (Vectors.mkStored i chunk meta).
Proof. apply VectorMore.add_documents_reads_back. Qed.

(** Two texts with vectors of 384 floats, under the two ids drawn. *)
Lemma add_documents_round_trip_witness :
  exists coll',
    collections Scenario.two_stored Scenario.kb = Some coll'
    /\ forall k chunk meta,
         nth_error [lit "a"; lit "b"] k = Some chunk ->
         nth_error [None; None] k = Some meta ->
         exists i,
           nth_error [Scenario.nth_uuid 0; Scenario.nth_uuid 1] k = Some i
           /\ Vectors.retrieve i coll' = Some (Vectors.mkStored i chunk meta).
Proof.
  apply (add_documents_round_trip Scenario.ext Scenario.kb
           [lit "a"; lit "b"] [Scenario.some_vector; Scenario.some_vector]
           [None; None] Scenario.after_first Scenario.two_stored
           [Scenario.nth_uuid 0; Scenario.nth_uuid 1]).
  - vm_compute. reflexivity.
  - repeat constructor; simpl; intuition discriminate.
Defined.

(** X15: [delete_document] on a collection that is there removes the point of
    the id it is given and no other: that id is no longer found, and
    every other id is found as before. *)
Theorem delete_document_removes_one_id (document_id base : str) (w : World)
  (coll : Vectors.Collection) :
  collections w base = Some coll ->
  exists w' coll',
    VectorDB.delete_document document_id base w = (Ok tt, w')
    /\ collections w' base = Some coll'
    /\ Vectors.retrieve document_id coll' = None
    /\ (forall i, i <> document_id ->
                  Vectors.retrieve i coll' = Vectors.retrieve i coll)
    /\ (forall b, b <> base -> collections w' b = collections w b).
Proof.
  intros Hc. unfold VectorDB.delete_document, bind, get, modify.
  rewrite Hc. eexists. eexists. split; [reflexivity|].
  cbn [collections set_calls set_collections].
  split; [apply at_base_same|]. split; [|split].
  - rewrite VectorMore.retrieve_delete_ids, str_eqb_refl. reflexivity.
  - intros i Hi. rewrite VectorMore.retrieve_delete_ids.
    apply VectorMore.str_eqb_neq in Hi. rewrite Hi. reflexivity.
  - intros b Hb. unfold at_base. apply VectorMore.str_eqb_neq in Hb.
    rewrite Hb. reflexivity.
Qed.

(** One of two texts written under ids drawn from [uuid4]. *)
Lemma delete_document_removes_one_id_witness :
  exists w' coll',
    VectorDB.delete_document (Scenario.nth_uuid 0) Scenario.kb
      Scenario.two_stored
    = (Ok tt, w')
    /\ collections w' Scenario.kb = Some coll'
    /\ Vectors.retrieve (Scenario.nth_uuid 0) coll' = None
    /\ (forall i, i <> Scenario.nth_uuid 0 ->
                  Vectors.retrieve i coll'
                  = Vectors.retrieve i Scenario.two_vectors)
    /\ (forall b, b <> Scenario.kb ->
                  collections w' b = collections Scenario.two_stored b).
Proof.
  apply (delete_document_removes_one_id (Scenario.nth_uuid 0) Scenario.kb
           Scenario.two_stored Scenario.two_vectors).
  vm_compute. reflexivity.
Defined.

(** ** The chunks of the pages *)

Module PagesMore.
Import Vectors Indexer PagesProps.

Lemma digits_no_colon (d : Decimal.uint) :
  Forall no_colon (lit (NilEmpty.string_of_uint d)).
Proof.
  induction d; simpl; constructor; (discriminate || assumption).
Qed.

Lemma str_of_Z_no_colon (z : Z) : Forall no_colon (str_of_Z z).
Proof.
  unfold str_of_Z, NilZero.string_of_int, NilZero.string_of_uint.
  destruct (Z.to_int z) as [d|d].
  - destruct d; try apply (digits_no_colon (_ d));
      simpl; repeat constructor; discriminate.
  - change (lit (String "-" ?s)) with ("-"%char :: lit s).
    constructor; [discriminate|].
    destruct d; try apply (digits_no_colon (_ d));
      simpl; repeat constructor; discriminate.
Qed.

Lemma lit_inj (a b : string) : lit a = lit b -> a = b.
Proof.
  unfold lit. intros H.
  rewrite <- (string_of_list_ascii_of_string a),
    <- (string_of_list_ascii_of_string b), H.
  reflexivity.
Qed.

Lemma to_int_not_nil (z : Z) :
  Z.to_int z <> Decimal.Pos Decimal.Nil
  /\ Z.to_int z <> Decimal.Neg Decimal.Nil.
Proof.
  destruct z as [|p|p]; simpl; split; try discriminate;
    intros H; inversion H as [E];
    exact (DecimalPos.Unsigned.to_uint_nonnil p E).
Qed.

Lemma str_of_Z_inj (a b : Z) : str_of_Z a = str_of_Z b -> a = b.
Proof.
  unfold str_of_Z. intros H. apply lit_inj in H.
  apply (f_equal NilZero.int_of_string) in H.
  destruct (to_int_not_nil a) as [Ha1 Ha2].
  destruct (to_int_not_nil b) as [Hb1 Hb2].
  rewrite !NilZero.isi in H by assumption.
  inversion H as [E]. apply DecimalZ.to_int_inj. exact E.
Qed.

(** Two texts without a colon, each followed by a colon and more. *)
Lemma split_at_colon :
  forall a b x y : str,
    Forall no_colon a -> Forall no_colon b ->
    a ++ ":"%char :: x = b ++ ":"%char :: y -> a = b /\ x = y.
Proof.
  induction a as [|c a IH]; intros b x y Ha Hb H.
  - destruct b as [|c' b]; simpl in H.
    + inversion H. split; reflexivity.
    + inversion H; subst c'. exfalso. apply (Forall_inv Hb). reflexivity.
  - destruct b as [|c' b]; simpl in H.
    + inversion H; subst c. exfalso. apply (Forall_inv Ha). reflexivity.
    + inversion H; subst c'.
      destruct (IH b x y (Forall_inv_tail Ha) (Forall_inv_tail Hb))
        as [E1 E2]; [assumption|].
      subst. split; reflexivity.
Qed.

Lemma chunk_id_of_inj (d p k p' k' : Z) :
  chunk_id_of d p k = chunk_id_of d p' k' -> p = p' /\ k = k'.
Proof.
  unfold chunk_id_of. intros H. apply app_inv_head in H.
  change (lit ":" ++ ?s) with (":"%char :: s) in H.
  inversion H as [E]. clear H.
  apply split_at_colon in E; try apply str_of_Z_no_colon.
  destruct E as [Ep Ek]. split; apply str_of_Z_inj; assumption.
Qed.

Lemma inner_kept (path : str) (document_id count page_num : Z)
  (st : ChunkState) (chunk : Chunking.ChunkMetadata) :
  1 <= page_num <= count ->
  kept path document_id count st ->
  kept path document_id count
    (chunk_pages_inner path document_id page_num st chunk).
Proof.
  intros Hp [Hl Hc Hi Ht Hm]. unfold chunk_pages_inner.
  destruct (strip (Chunking.text chunk)) as [|c0 t] eqn:E;
    [constructor; assumption|].
  cbn [is_empty]. constructor; cbn [cs_chunks cs_metadata chunk_counter].
  - rewrite !length_app, Hl. reflexivity.
  - unfold len in *. rewrite length_app, Hc. simpl. lia.
  - rewrite map_app, length_app, Nat.add_1_r, seq_S, map_app, Hi.
    cbn [map md_chunk_index Nat.add]. rewrite Hc, <- Hl. reflexivity.
  - apply Forall_app. split; [exact Ht|].
    constructor; [discriminate|constructor].
  - apply Forall_app. split; [exact Hm|].
    constructor; [|constructor].
    unfold describes. cbn. repeat split; try lia.
Qed.

Lemma inner_fold_kept (path : str) (document_id count page_num : Z) :
  1 <= page_num <= count ->
  forall chunks st,
    kept path document_id count st ->
    kept path document_id count
      (fold_left (chunk_pages_inner path document_id page_num) chunks st).
Proof.
  intros Hp. induction chunks as [|c chunks IH]; intros st H; [exact H|].
  simpl. apply IH, inner_kept; assumption.
Qed.

Lemma outer_fold_kept (path : str) (document_id count : Z) :
  forall pages start st,
    1 <= start -> start + len pages <= count + 1 ->
    kept path document_id count st ->
    kept path document_id count
      (fold_left (chunk_pages_outer path document_id)
         (enumerate start pages) st).
Proof.
  induction pages as [|page pages IH]; intros start st Hs He H; [exact H|].
  cbn [enumerate fold_left]. unfold len in He. cbn [length] in He.
  apply IH; [lia|unfold len; lia|].
  unfold chunk_pages_outer. apply inner_fold_kept; [lia|exact H].
Qed.

Lemma chunk_pages_kept (path : str) (document_id : Z) (pages : list str) :
  kept path document_id (len pages)
    (chunk_pages_pure path document_id pages).
Proof.
  unfold chunk_pages_pure. apply outer_fold_kept; [lia|lia|].
  constructor; try reflexivity; constructor.
Qed.

(** The loops of [_chunk_pages] only add chunks, and add one for a chunk
    whose text is not blank. *)
Lemma inner_grows (path : str) (document_id page_num : Z)
  (st : ChunkState) (chunk : Chunking.ChunkMetadata) :
  exists l,
    cs_chunks (chunk_pages_inner path document_id page_num st chunk)
    = cs_chunks st ++ l
    /\ (strip (Chunking.text chunk) <> [] -> l <> []).
Proof.
  unfold chunk_pages_inner.
  destruct (strip (Chunking.text chunk)) as [|c0 t] eqn:E; cbn [is_empty].
  - exists []. rewrite app_nil_r. split; [reflexivity|congruence].
  - exists [c0 :: t]. split; [reflexivity|discriminate].
Qed.

Lemma inner_fold_grows (path : str) (document_id page_num : Z) :
  forall chunks st,
  exists l,
    cs_chunks (fold_left (chunk_pages_inner path document_id page_num)
                 chunks st)
    = cs_chunks st ++ l
    /\ (Exists (fun c => strip (Chunking.text c) <> []) chunks -> l <> []).
Proof.
  induction chunks as [|c chunks IH]; intros st; cbn [fold_left].
  - exists []. rewrite app_nil_r. split; [reflexivity|].
    intros H. inversion H.
  - destruct (inner_grows path document_id page_num st c) as [l1 [H1 N1]].
    destruct (IH (chunk_pages_inner path document_id page_num st c))
      as [l2 [H2 N2]].
    exists (l1 ++ l2). split; [rewrite H2, H1, app_assoc; reflexivity|].
    intros H E. apply app_eq_nil in E. destruct E as [E1 E2].
    inversion H as [c' l' Hc|c' l' Hcs];
      [apply (N1 Hc E1)|apply (N2 Hcs E2)].
Qed.

Lemma outer_fold_grows (path : str) (document_id : Z) :
  forall pages start st,
  exists l,
    cs_chunks (fold_left (chunk_pages_outer path document_id)
                 (enumerate start pages) st)
    = cs_chunks st ++ l
    /\ (has_chunk pages -> l <> []).
Proof.
  induction pages as [|page pages IH]; intros start st;
    cbn [enumerate fold_left].
  - exists []. rewrite app_nil_r. split; [reflexivity|].
    intros H. inversion H.
  - destruct (inner_fold_grows path document_id start
                (Chunking.chunk page Chunking.default_chunk_size
                   Chunking.default_overlap) st) as [l1 [H1 N1]].
    destruct (IH (start + 1)
                (chunk_pages_outer path document_id st (start, page)))
      as [l2 [H2 N2]].
    exists (l1 ++ l2). split.
    + rewrite H2. unfold chunk_pages_outer at 1. rewrite H1, app_assoc.
      reflexivity.
    + intros H E. apply app_eq_nil in E. destruct E as [E1 E2].
      unfold has_chunk in H, N2.
      inversion H as [c' l' Hc|c' l' Hcs];
        [apply (N1 Hc E1)|apply (N2 Hcs E2)].
Qed.

(** Pages with a chunk give a chunk to store. *)
Lemma has_chunk_chunks (path : str) (document_id : Z) (pages : list str) :
  has_chunk pages ->
  cs_chunks (chunk_pages_pure path document_id pages) <> [].
Proof.
  intros H. unfold chunk_pages_pure.
  destruct (outer_fold_grows path document_id pages 1
              (mkChunkState [] [] 0)) as [l [Hl Hn]].
  rewrite Hl. cbn [cs_chunks app]. apply Hn. exact H.
Qed.

Lemma NoDup_map_of {A B C} (f : A -> B) (g : A -> C) (l : list A) :
  (forall x y, In x l -> In y l -> g x = g y -> f x = f y) ->
  NoDup (map f l) -> NoDup (map g l).
Proof.
  induction l as [|x l IH]; intros H Hnd; [constructor|].
  cbn [map] in *. apply NoDup_cons_iff in Hnd. destruct Hnd as [Hx Hnd].
  constructor.
  - intros Hin. apply Hx. apply in_map_iff in Hin.
    destruct Hin as [y [Hy Hin]]. apply in_map_iff. exists y.
    split; [|exact Hin].
    apply H; [right; exact Hin|left; reflexivity|exact Hy].
  - apply IH; [|exact Hnd].
    intros a b Ha Hb. apply H; right; assumption.
Qed.

Lemma chunk_ids_distinct (path : str) (document_id : Z) (pages : list str) :
  NoDup (map md_id (cs_metadata (chunk_pages_pure path document_id pages))).
Proof.
  destruct (chunk_pages_kept path document_id pages) as [_ _ Hi _ Hm].
  apply (NoDup_map_of md_chunk_index).
  - intros x y Hx Hy E. rewrite Forall_forall in Hm.
    destruct (Hm x Hx) as [_ [_ [_ [_ Ex]]]].
    destruct (Hm y Hy) as [_ [_ [_ [_ Ey]]]].
    rewrite Ex, Ey in E. apply (chunk_id_of_inj document_id) in E. tauto.
  - rewrite Hi. apply (NoDup_map_of (fun n : nat => n)).
    + intros a b _ _. apply Nat2Z.inj.
    + rewrite map_id. apply seq_NoDup.
Qed.

End PagesMore.

(** X16: [_chunk_pages] returns as many metadata records as chunk texts; no
    chunk text is empty; the chunks are counted from 0 through the whole
    document; and each record names the document, its path and file name,
    a page from 1 to the number of pages, and carries the id
    [document_id:page_num:chunk_index]. *)
Theorem chunk_pages_describes_every_chunk (path : str) (document_id : Z)
  (pages : list str) (w : World) :
  exists chunks metadata,
    fst (Indexer._chunk_pages path document_id pages w)
    = Ok (chunks, metadata)
    /\ length chunks = length metadata
    /\ Forall (fun t => t <> []) chunks
    /\ map Vectors.md_chunk_index metadata
       = map Z.of_nat (seq 0 (length metadata))
    /\ Forall (PagesProps.describes path document_id (len pages)) metadata.
Proof.
  destruct (PagesMore.chunk_pages_kept path document_id pages)
    as [Hl _ Hi Ht Hm].
  eexists. eexists. split; [reflexivity|].
  repeat split; assumption.
Qed.

(** X17: the ids [_chunk_pages] gives the chunks of a document are all
    different. *)
Theorem chunk_ids_are_distinct (path : str) (document_id : Z)
  (pages : list str) (w : World) :
  exists chunks metadata,
    fst (Indexer._chunk_pages path document_id pages w)
    = Ok (chunks, metadata)
    /\ NoDup (map Vectors.md_id metadata).
Proof.
  eexists. eexists. split; [reflexivity|].
  apply PagesMore.chunk_ids_distinct.
Qed.

(** ** More of the indexer *)

Lemma bind_ok {A B} (m : M A) (k : A -> M B) (w w' : World) (b : B) :
  bind m k w = (Ok b, w') ->
  exists a w1, m w = (Ok a, w1) /\ k a w1 = (Ok b, w').
Proof.
  unfold bind. destruct (m w) as [[a|e] w1]; [|discriminate].
  intros H. exists a, w1. split; [reflexivity|exact H].
Qed.

Module RunMore.
Import Database Indexer IndexerSpec RunProps.
Section WithExternals.
Variable ext : Externals.

Section Ends.
Variable callback : option ProgressCallback.
Variable path : str.

Lemma ends_bind {A B} (m : M A) (k : A -> M B) :
  (forall a, ends_at_full callback path (k a)) ->
  ends_at_full callback path (bind m k).
Proof.
  intros Hk w b w' H. apply bind_ok in H.
  destruct H as [a [w1 [_ H]]]. apply (Hk a w1 b w' H).
Qed.

Lemma ends_raise {A} (e : exn) :
  ends_at_full callback path (@raise A e).
Proof. intros w a w' H. discriminate. Qed.

Lemma ends_final {A} (message : str) (a : A) :
  closing_message path message ->
  ends_at_full callback path
    (bind (_progress_emitter callback message (Some 1.0%float))
       (fun _ => ret a)).
Proof.
  intros Hm w a' w' H. exists message. split; [exact Hm|].
  exists w. unfold bind, _progress_emitter, modify, ret in H.
  inversion H. reflexivity.
Qed.

End Ends.

(** What [parse] returns depends on the files only. *)
Lemma parse_result (path : str) (w w0 : World) :
  fs w0 = fs w ->
  fst (Parser.parse ext path w0) = fst (Parser.parse ext path w).
Proof.
  intros Hfs. rewrite !ParserFacts.parse_run. cbv zeta. rewrite Hfs.
  destruct (fs_lookup (fs w) path) as [[content|]|]; try reflexivity.
  destruct (str_eqb (lower (path_suffix path)) (lit ".pdf")).
  - destruct (PdfReader ext content); reflexivity.
  - destruct (str_eqb (lower (path_suffix path)) (lit ".txt")
              || str_eqb (lower (path_suffix path)) (lit ".md"));
      reflexivity.
Qed.

Lemma length_save_document (d : Document) (rows : list Document) :
  length (save_document d rows)
  = if existsb (has_id (id d)) rows then length rows else S (length rows).
Proof.
  unfold save_document. destruct (existsb (has_id (id d)) rows).
  - apply length_map.
  - rewrite length_app. simpl. lia.
Qed.

Lemma save_document_others (d r : Document) (rows : list Document) :
  In r rows -> id r <> id d -> In r (save_document d rows).
Proof.
  intros Hin Hid. unfold save_document.
  destruct (existsb (has_id (id d)) rows).
  - apply in_map_iff. exists r. split; [|exact Hin].
    unfold has_id. destruct (id r =? id d) eqn:E; [|reflexivity].
    apply Z.eqb_eq in E. contradiction.
  - apply in_or_app. left. exact Hin.
Qed.

End WithExternals.
End RunMore.

(** X18: [index_document] on a path that is missing, or is a directory, raises
    [FileNotFoundError] before anything else: no progress is reported, no
    record is made, nothing is called. *)
Theorem index_document_needs_a_regular_file (ext : Externals)
  (self : Indexer.DocumentIndexer) (path base : str)
  (cb : option ProgressCallback) (w : World) :
  fs_lookup (fs w) path = None \/ fs_lookup (fs w) path = Some Dir ->
  Indexer.index_document ext self path base cb w
  = (Raise (mkExn FileNotFoundError (lit "File not found: " ++ path)), w).
Proof.
  intros H. apply IndexerFacts.index_document_missing.
  intros content E. destruct H as [H|H]; congruence.
Qed.

Lemma index_document_needs_a_regular_file_witness :
  Indexer.index_document Scenario.ext Scenario.indexer (lit "/data") Scenario.kb
    None (Scenario.world_of [(lit "/data", Dir)])
  = (Raise (mkExn FileNotFoundError (lit "File not found: /data")),
     Scenario.world_of [(lit "/data", Dir)]).
Proof.
  apply (index_document_needs_a_regular_file Scenario.ext Scenario.indexer
           (lit "/data") Scenario.kb None
           (Scenario.world_of [(lit "/data", Dir)])).
  right. reflexivity.
Defined.

(** X19: [_clear_document_vectors] never raises [AttributeError], whatever the
    vector service: when it raises, the service has the method
    [delete_document_chunks], and the exception is the one the method
    raised, of another class. *)
Theorem clear_document_vectors_hides_attribute_errors
  (self : Indexer.DocumentIndexer) (base path : str) (w : World) (e : exn) :
  fst (Indexer._clear_document_vectors self base path w) = Raise e ->
  e_class e <> AttributeError
  /\ exists delete,
       delete_document_chunks (Indexer.vectordb self) = Some delete
       /\ delete base path w
          = (Raise e, snd (Indexer._clear_document_vectors self base path w)).
Proof.
  unfold Indexer._clear_document_vectors, try_except.
  destruct (delete_document_chunks (Indexer.vectordb self)) as [delete|].
  - destruct (delete base path w) as [[[]|e0] w0] eqn:E; [discriminate|].
    destruct (e_class e0) eqn:Ec; cbn [fst snd raise ret];
      intros H; inversion H; subst e0;
      (split; [congruence|];
       exists delete; split; [reflexivity|exact E]).
  - discriminate.
Qed.

(** A vector service whose deletion fails: the error comes through. *)
Lemma clear_document_vectors_hides_attribute_errors_witness :
  let e := mkExn RuntimeError (lit "store is down") in
  let self :=
    Indexer.mkIndexer
      (mkVectorService None VectorDB.create_collection
         (VectorDB.add_documents Scenario.ext)
         (Some (fun _ _ => raise e)))
      (lit "/data/bases") None in
  e_class e <> AttributeError
  /\ exists delete,
       delete_document_chunks (Indexer.vectordb self) = Some delete
       /\ delete Scenario.kb Scenario.a_txt Scenario.small_world
          = (Raise e,
             snd (Indexer._clear_document_vectors self Scenario.kb
                    Scenario.a_txt Scenario.small_world)).
Proof.
  apply (clear_document_vectors_hides_attribute_errors
           (Indexer.mkIndexer
              (mkVectorService None VectorDB.create_collection
                 (VectorDB.add_documents Scenario.ext)
                 (Some (fun _ _ =>
                          raise (mkExn RuntimeError (lit "store is down")))))
              (lit "/data/bases") None)
           Scenario.kb Scenario.a_txt Scenario.small_world
           (mkExn RuntimeError (lit "store is down"))).
  reflexivity.
Defined.

(** X20: [scan_and_index_folder] on a base whose documents directory holds no
    supported file returns the empty list, reports the one message
    "Found 0 file(s) ..." with the progress 1.0 and no "Folder scan
    complete", and indexes nothing: the databases, the collections and the
    calls are as they were. *)
Theorem scan_of_empty_folder (ext : Externals)
  (self : Indexer.DocumentIndexer) (base : str)
  (cb : option ProgressCallback) (w : World) :
  Indexer.scan_files self base (fs w) = [] ->
  Indexer.scan_and_index_folder ext self base cb w
  = (Ok [],
     set_progress
       (progress w
        ++ Indexer.emitted (Indexer.or_else cb (Indexer.progress_callback self))
             (lit "Found 0 file(s) to evaluate in "
              ++ Indexer.documents_dir_of self base)
             (Some 1.0%float)) w).
Proof.
  intros H. unfold Indexer.scan_and_index_folder. cbv zeta.
  rewrite bind_run. unfold get at 1. cbv beta iota. rewrite H.
  reflexivity.
Qed.

Lemma scan_of_empty_folder_witness :
  Indexer.scan_and_index_folder Scenario.ext Scenario.indexer Scenario.kb None
    (Scenario.world_of [(Scenario.c_docx, File [])])
  = (Ok [],
     set_progress
       [(lit "Found 0 file(s) to evaluate in /data/bases/kb/documents",
         Some 1.0%float)]
       (Scenario.world_of [(Scenario.c_docx, File [])])).
Proof.
  apply (scan_of_empty_folder Scenario.ext Scenario.indexer Scenario.kb None
           (Scenario.world_of [(Scenario.c_docx, File [])])).
  vm_compute. reflexivity.
Defined.

(** X21: whenever [index_document] returns a document, the last thing it did
    was to report the progress 1.0, with the message "Indexing complete"
    or, on a skip, "No changes detected for <name>. Skipping.". *)
Theorem index_document_ends_at_full_progress (ext : Externals)
  (self : Indexer.DocumentIndexer) (path base : str)
  (cb : option ProgressCallback) (w w1 : World) (d : Database.Document) :
  Indexer.index_document ext self path base cb w = (Ok d, w1) ->
  exists message,
    RunProps.closing_message path message
    /\ RunProps.told_last
         (Indexer.or_else cb (Indexer.progress_callback self)) message w1.
Proof.
  revert w d w1.
  change (RunProps.ends_at_full
            (Indexer.or_else cb (Indexer.progress_callback self)) path
            (Indexer.index_document ext self path base cb)).
  unfold Indexer.index_document. cbv zeta.
  apply RunMore.ends_bind. intros n.
  destruct n as [[content|]|]; [|apply RunMore.ends_raise..].
  do 4 (apply RunMore.ends_bind; intros ?).
  match goal with
  | |- context [if ?b then _ else _] => destruct b
  end.
  - apply RunMore.ends_final. right. reflexivity.
  - do 10 (apply RunMore.ends_bind; intros ?).
    match goal with
    | cm : (list str * list Vectors.Metadata)%type |- _ =>
        destruct cm as [chunks metadata]
    end.
    apply RunMore.ends_bind; intros ?.
    destruct (is_empty chunks).
    + do 2 (apply RunMore.ends_bind; intros ?).
      apply RunMore.ends_final. left. reflexivity.
    + do 5 (apply RunMore.ends_bind; intros ?).
      apply RunMore.ends_final. left. reflexivity.
Qed.

(** The second indexing of the note, which skips. *)
Lemma index_document_ends_at_full_progress_witness :
  exists message,
    RunProps.closing_message Scenario.a_txt message
    /\ RunProps.told_last (Some recorder) message Scenario.after_second.
Proof.
  apply (index_document_ends_at_full_progress Scenario.ext Scenario.indexer
           Scenario.a_txt Scenario.kb None Scenario.after_first
           Scenario.after_second Scenario.first_document).
  vm_compute. reflexivity.
Defined.

(** X22: when the parser raises, [index_document] raises the same exception
    and the document is left pending: its record carries the new hash and
    no page count, so the next run does not skip it, while the pages
    stored for it and the collections are untouched. *)
Theorem failed_parse_leaves_document_pending (ext : Externals)
  (self : Indexer.DocumentIndexer) (path base : str)
  (cb : option ProgressCallback) (w : World) (content : list byte)
  (e : exn) :
  fs_lookup (fs w) path = Some (File content) ->
  IndexerSpec.unchanged ext w base path content = false ->
  fst (Parser.parse ext path w) = Raise e ->
  let run := Indexer.index_document ext self path base cb w in
  fst run = Raise e
  /\ (exists d,
        IndexerSpec.stored (snd run) base path = Some d
        /\ Database.file_hash d = Indexer.file_hash_bytes ext content 8192
        /\ Database.total_pages d = None)
  /\ IndexerSpec.unchanged ext (snd run) base path content = false
  /\ Database.pages (dbs (snd run) base) = Database.pages (dbs w base)
  /\ collections (snd run) = collections w.
Proof.
  intros Hfs Hun Hparse. cbv zeta.
  rewrite (IndexerFacts.index_document_run ext self path base cb w content
             Hfs).
  cbv zeta.
  set (callback := Indexer.or_else cb (Indexer.progress_callback self)).
  set (h := Indexer.file_hash_bytes ext content 8192).
  destruct (IndexerFacts.get_or_create_stale path base h
              (IndexerSpec.started callback path w))
    as [document [wa [Hg [Hp [Hh [Ht [Hf [Hc [Hpr [Hdb [Hpg
          [Hfirst _]]]]]]]]]]]].
  { rewrite IndexerFacts.stored_started. exact Hun. }
  rewrite Hg.
  assert (Hup : Indexer.up_to_date document h = false).
  { unfold Indexer.up_to_date. rewrite Ht. apply andb_false_r. }
  rewrite Hup.
  set (wq := snd (Indexer._progress_emitter callback (lit "Parsing document")
                    (Some 0.2%float) wa)).
  assert (Hq : fs wq = fs w) by exact Hf.
  pose proof (RunMore.parse_result ext path w wq Hq) as Hres.
  rewrite Hparse in Hres.
  destruct (IndexerFacts.parse_frame ext path wq)
    as [_ [Pd [Pc _]]].
  destruct (Parser.parse ext path wq) as [r wp].
  cbn [fst snd] in Hres, Pd, Pc. subst r. cbn [fst snd].
  assert (Hdbs : dbs wp base = dbs wa base) by (rewrite Pd; reflexivity).
  split; [reflexivity|]. split; [|split; [|split]].
  - exists document. unfold IndexerSpec.stored. rewrite Hdbs.
    repeat split; assumption.
  - unfold IndexerSpec.unchanged, IndexerSpec.stored.
    rewrite Hdbs, Hfirst. exact Hup.
  - rewrite Hdbs. exact Hpg.
  - rewrite Pc. exact Hc.
Qed.

(** The PDF that cannot be opened: the run fails as the parser does. *)
Lemma failed_parse_leaves_document_pending_witness :
  let path := lit "/data/bases/kb/documents/e.pdf" in
  let e := mkExn RuntimeError (lit "Failed to parse file " ++ path) in
  let run :=
    Indexer.index_document Scenario.ext Scenario.indexer path Scenario.kb
      None Scenario.pdf_world in
  fst run = Raise e
  /\ (exists d,
        IndexerSpec.stored (snd run) Scenario.kb path = Some d
        /\ Database.file_hash d
           = Indexer.file_hash_bytes Scenario.ext [] 8192
        /\ Database.total_pages d = None)
  /\ IndexerSpec.unchanged Scenario.ext (snd run) Scenario.kb path [] = false
  /\ Database.pages (dbs (snd run) Scenario.kb)
     = Database.pages (dbs Scenario.pdf_world Scenario.kb)
  /\ collections (snd run) = collections Scenario.pdf_world.
Proof.
  apply (failed_parse_leaves_document_pending Scenario.ext Scenario.indexer
           (lit "/data/bases/kb/documents/e.pdf") Scenario.kb None
           Scenario.pdf_world []).
  - vm_compute. reflexivity.
  - vm_compute. reflexivity.
  - vm_compute. reflexivity.
Defined.

(** X23: [_get_or_create_document] always returns a record of the path with
    the hash it is given, which is then the stored record of the path.
    A path that has a record keeps its id and no row is added; a path
    that has none gets one new row, under an id no row has.  The rows of
    the other ids and the pages are untouched. *)
Theorem get_or_create_document_keeps_one_record (path base h : str)
  (w : World) :
  exists d w',
    Indexer._get_or_create_document path base h w = (Ok d, w')
    /\ Database.path d = path
    /\ Database.file_hash d = h
    /\ IndexerSpec.stored w' base path = Some d
    /\ match IndexerSpec.stored w base path with
       | Some d0 =>
           Database.id d = Database.id d0
           /\ length (Database.documents (dbs w' base))
              = length (Database.documents (dbs w base))
       | None =>
           Forall (fun r => Database.id r <> Database.id d)
             (Database.documents (dbs w base))
           /\ length (Database.documents (dbs w' base))
              = S (length (Database.documents (dbs w base)))
       end
    /\ (forall r,
          In r (Database.documents (dbs w base)) ->
          Database.id r <> Database.id d ->
          In r (Database.documents (dbs w' base)))
    /\ Database.pages (dbs w' base) = Database.pages (dbs w base).
Proof.
  rewrite IndexerFacts.get_or_create_run. unfold IndexerSpec.stored.
  destruct (Database.first_by_path path (Database.documents (dbs w base)))
    as [d0|] eqn:E.
  - destruct (DatabaseFacts.first_by_path_in _ _ _ E) as [Hin Hpath].
    destruct (Indexer.up_to_date d0 h) eqn:Hup.
    + exists d0, w. split; [reflexivity|]. split; [exact Hpath|].
      split.
      { unfold Indexer.up_to_date in Hup. apply andb_prop in Hup.
        destruct Hup as [Hh _]. apply str_eqb_eq in Hh. exact Hh. }
      split; [exact E|]. split; [split; reflexivity|].
      split; [intros r Hr _; exact Hr|reflexivity].
    + cbv zeta. eexists. eexists. split; [reflexivity|].
      unfold commit.
      cbn [dbs set_calls set_dbs set_clock snd Database.flush fold_left
           Database.path Database.file_hash Database.id].
      rewrite !at_base_same.
      cbn [Database.apply_write Database.documents Database.pages].
      split; [reflexivity|]. split; [reflexivity|]. split.
      { apply DatabaseFacts.first_by_path_save; [reflexivity|].
        rewrite E. reflexivity. }
      assert (Hex : existsb (Database.has_id (Database.id d0))
                      (Database.documents (dbs w base)) = true).
      { apply existsb_exists. exists d0. split; [exact Hin|].
        unfold Database.has_id. apply Z.eqb_refl. }
      split.
      { split; [reflexivity|].
        rewrite RunMore.length_save_document.
        cbn [Database.id]. rewrite Hex. reflexivity. }
      split; [|reflexivity].
      intros r Hr Hid. apply RunMore.save_document_others; assumption.
  - cbv zeta. eexists. eexists. split; [reflexivity|].
    unfold commit.
    cbn [dbs set_calls set_dbs set_clock snd Database.flush fold_left
         Database.path Database.file_hash Database.id].
    rewrite !at_base_same.
    cbn [Database.apply_write Database.documents Database.pages].
    split; [reflexivity|]. split; [reflexivity|]. split.
    { apply DatabaseFacts.first_by_path_save; [reflexivity|].
      rewrite E. reflexivity. }
    split.
    { split.
      - pose proof (DatabaseFacts.next_id_above
                      (map Database.id (Database.documents (dbs w base))))
          as Habove.
        rewrite Forall_map in Habove.
        eapply Forall_impl; [|exact Habove]. cbv beta. intros r Hr. lia.
      - rewrite RunMore.length_save_document. cbn [Database.id].
        rewrite DatabaseFacts.next_id_fresh. reflexivity. }
    split; [|reflexivity].
    intros r Hr Hid. apply RunMore.save_document_others; assumption.
Qed.

(** X24: flushing the pages [_store_pages] adds to a session adds one row for
    each page, after the rows that are there: the rows are of the
    document, numbered from 1 in the order of the pages, each with its
    text and the length of its text; the documents are untouched. *)
Theorem store_pages_numbers_pages_from_one (db : Database.DB)
  (document_id : Z) (pages : list str) :
  let db' := Database.flush db (Indexer._store_pages document_id pages) in
  Database.documents db' = Database.documents db
  /\ exists added,
       Database.pages db' = Database.pages db ++ added
       /\ map Database.content added = pages
       /\ map Database.page_num added
          = map Z.of_nat (seq 1 (length pages))
       /\ Forall
            (fun p =>
               Database.document_id p = document_id
               /\ Database.char_count p = len (Database.content p))
            added.
Proof.
  cbv zeta. unfold Indexer._store_pages.
  split; [apply DatabaseFacts.flush_pages_documents|].
  assert (H : forall entries start db0,
             exists added,
               Database.pages
                 (Database.flush db0
                    (map (fun '(n, c) =>
                            Database.AddPage document_id n c (len c))
                       (Indexer.enumerate (Z.of_nat start) entries)))
               = Database.pages db0 ++ added
               /\ map Database.content added = entries
               /\ map Database.page_num added
                  = map Z.of_nat (seq start (length entries))
               /\ Forall
                    (fun p =>
                       Database.document_id p = document_id
                       /\ Database.char_count p = len (Database.content p))
                    added).
  { induction entries as [|c entries IH]; intros start db0.
    - exists []. rewrite app_nil_r. repeat split; constructor.
    - cbn [Indexer.enumerate map Database.flush fold_left].
      replace (Z.of_nat start + 1) with (Z.of_nat (S start)) by lia.
      destruct (IH (S start)
                  (Database.apply_write db0
                     (Database.AddPage document_id (Z.of_nat start) c
                        (len c))))
        as [added [H1 [H2 [H3 H4]]]].
      eexists (_ :: added). split.
      + unfold Database.flush in H1. rewrite H1.
        cbn [Database.apply_write Database.pages].
        rewrite <- app_assoc. reflexivity.
      + cbn [map Database.content Database.page_num length seq].
        split; [f_equal; exact H2|]. split; [f_equal; exact H3|].
        constructor; [split; reflexivity|exact H4]. }
  apply (H pages 1%nat db).
Qed.

Module StoreMore.
Import Database Indexer IndexerSpec.
Section WithExternals.
Variable ext : Externals.

(** [_ensure_collection] with the default vector service. *)
Lemma ensure_collection_run (dir : str) (cb0 : option ProgressCallback)
  (base : str) (w : World) :
  _ensure_collection (default_indexer ext dir cb0) base w
  = (Ok tt,
     match collections w base with
     | Some _ => w
     | None =>
         set_calls (calls w ++ [CCreateCollection base])
           (set_collections (at_base (collections w) base (Some [])) w)
     end).
Proof.
  unfold _ensure_collection, default_indexer, VectorDB.QdrantService.
  cbn [get_collection vectordb create_collection].
  unfold try_except, VectorDB.client_get_collection, bind, get.
  destruct (collections w base); reflexivity.
Qed.

(** The points [add_documents] builds for the chunks of some pages have
    the ids [_chunk_pages] built. *)
Lemma chunk_points (path : str) (document_id : Z) (pages : list str)
  (embeddings : list (list float)) (n : nat) :
  let st := chunk_pages_pure path document_id pages in
  length (cs_chunks st) = length embeddings ->
  let points :=
    fst (VectorDB.build_points ext n (cs_chunks st) embeddings
           (map Some (cs_metadata st))) in
  length points = length (cs_chunks st)
  /\ Forall (fun p =>
               exists d page_num counter,
                 Vectors.p_id p = chunk_id_of d page_num counter) points.
Proof.
  cbv zeta. intros He.
  set (st := chunk_pages_pure path document_id pages) in *.
  destruct (PagesMore.chunk_pages_kept path document_id pages)
    as [Hl _ _ _ Hm].
  fold st in Hl, Hm.
  assert (Hmeta : length embeddings = length (map Some (cs_metadata st)))
    by (rewrite length_map; congruence).
  destruct (VectorMore.build_points_nth ext (cs_chunks st) embeddings
              (map Some (cs_metadata st)) n He Hmeta) as [Hlen Hnth].
  split; [exact Hlen|].
  apply Forall_forall. intros p Hin.
  apply In_nth_error in Hin. destruct Hin as [k Hk].
  assert (Hlt : (k < length (cs_chunks st))%nat).
  { rewrite <- Hlen. apply nth_error_Some. congruence. }
  destruct (nth_error (cs_chunks st) k) as [text|] eqn:Et;
    [|apply nth_error_None in Et; lia].
  destruct (nth_error embeddings k) as [embedding|] eqn:Ee;
    [|apply nth_error_None in Ee; lia].
  destruct (nth_error (cs_metadata st) k) as [m|] eqn:Em;
    [|apply nth_error_None in Em; lia].
  assert (Em' : nth_error (map Some (cs_metadata st)) k = Some (Some m))
    by (rewrite nth_error_map, Em; reflexivity).
  destruct (Hnth k text embedding (Some m) Et Ee Em') as [i [Hi Hgiven]].
  rewrite Hi in Hk. inversion Hk; subst p. cbn [Vectors.p_id].
  apply nth_error_In in Em. rewrite Forall_forall in Hm.
  destruct (Hm m Em) as [_ [_ [_ [_ Hid]]]].
  exists document_id, (Vectors.md_page_num m), (Vectors.md_chunk_index m).
  unfold chunk_id_of. rewrite <- Hid. apply Hgiven.
  unfold VectorProps.wanted_id. rewrite Hid.
  destruct (str_of_Z document_id); reflexivity.
Qed.

(** On a store that takes none of the ids [_chunk_pages] builds, the
    vector phase of pages with a chunk raises, and leaves in the collection
    of the base what was there. *)
Lemma vector_phase_refused (dir : str) (cb0 callback : option ProgressCallback)
  (path base : str) (document : Document) (pages : list str) (wd : World) :
  PagesProps.refuses_chunk_ids ext ->
  PagesProps.has_chunk pages ->
  let run :=
    vector_phase ext (default_indexer ext dir cb0) path base callback
      document pages wd in
  (exists e, fst run = Raise e)
  /\ collections (snd run) base
     = Some match collections wd base with Some c => c | None => [] end.
Proof.
  intros Href Hchunk. cbv zeta.
  pose proof (PagesMore.has_chunk_chunks path (id document) pages Hchunk)
    as Hne.
  set (c0 := match collections wd base with Some c => c | None => [] end).
  destruct (vector_phase ext (default_indexer ext dir cb0) path base callback
              document pages wd) as [r w'] eqn:E.
  cbn [fst snd].
  assert (Hgoal : exists e, r = Raise e /\ collections w' base = Some c0);
    [|destruct Hgoal as [e [-> Hc]]; split; [exists e; reflexivity|exact Hc]].
  unfold vector_phase in E.
  rewrite bind_run in E. unfold _progress_emitter at 1, modify at 1 in E.
  cbv beta iota in E.
  rewrite bind_run in E. unfold _chunk_pages at 1 in E.
  rewrite bind_run in E. unfold record_call at 1, modify at 1 in E.
  cbv beta iota in E. unfold ret at 1 in E. cbv beta iota zeta in E.
  set (st := chunk_pages_pure path (id document) pages) in *.
  rewrite bind_run in E.
  match type of E with
  | context [_ensure_collection _ _ ?x] => set (w3 := x) in E
  end.
  assert (H4 : exists w4,
             _ensure_collection (default_indexer ext dir cb0) base w3
             = (Ok tt, w4)
             /\ collections w4 base = Some c0).
  { rewrite ensure_collection_run. eexists. split; [reflexivity|].
    unfold c0. change (collections w3) with (collections wd).
    destruct (collections wd base) as [c|] eqn:Ec.
    - exact Ec.
    - cbn [collections set_calls set_collections]. apply at_base_same. }
  destruct H4 as [w4 [E4 Hc4]]. rewrite E4 in E. clear E4. clearbody w3.
  cbv beta iota in E.
  destruct (is_empty (cs_chunks st)) eqn:Hempty;
    [destruct (cs_chunks st); [congruence|discriminate]|].
  rewrite bind_run in E. unfold _progress_emitter at 1, modify at 1 in E.
  cbv beta iota in E.
  rewrite bind_run in E. unfold Embeddings.embed_texts at 1 in E.
  rewrite bind_run in E. unfold record_call at 1, modify at 1 in E.
  cbv beta iota in E. rewrite Hempty in E.
  destruct (model_embed ext (cs_chunks st)) as [embeddings|e].
  2:{ unfold raise in E. inversion E. exists e. split; [reflexivity|].
      cbn [collections set_calls set_progress]. exact Hc4. }
  unfold ret at 1 in E. cbv beta iota in E.
  rewrite bind_run in E. unfold _progress_emitter at 1, modify at 1 in E.
  cbv beta iota in E.
  rewrite bind_run, IndexerFacts.clear_document_vectors_noop in E.
  rewrite bind_run in E.
  change (add_documents (vectordb (default_indexer ext dir cb0)))
    with (VectorDB.add_documents ext) in E.
  match type of E with
  | context [VectorDB.add_documents ext base _ _ _ ?x] => set (w6 := x) in E
  end.
  assert (Hc6 : collections w6 base = Some c0) by exact Hc4.
  clearbody w6.
  destruct (Nat.eq_dec (length (cs_chunks st)) (length embeddings))
    as [He|He].
  2:{ rewrite VectorMore.add_documents_lengths in E by (left; exact He).
      inversion E. eexists. split; [reflexivity|]. subst w'. exact Hc6. }
  destruct (chunk_points path (id document) pages embeddings (uuids w6) He)
    as [Hlen Hids].
  fold st in Hlen, Hids.
  destruct (PagesMore.chunk_pages_kept path (id document) pages)
    as [Hl _ _ _ _].
  fold st in Hl.
  rewrite (VectorMore.add_documents_run ext base (cs_chunks st) embeddings
             (map Some (cs_metadata st)) w6 c0 He
             ltac:(rewrite length_map; congruence) Hc6) in E.
  cbv zeta in E.
  set (points := fst (VectorDB.build_points ext (uuids w6) (cs_chunks st)
                        embeddings (map Some (cs_metadata st)))) in *.
  destruct (Href points) as [e Hfault]; [|exact Hids|].
  { intros En. rewrite En in Hlen. cbn [length] in Hlen.
    destruct (cs_chunks st); [congruence|discriminate]. }
  rewrite Hfault in E. inversion E. exists e. split; [reflexivity|].
  cbn [firstn Vectors.upsert fold_left collections set_collections].
  apply at_base_same.
Qed.

End WithExternals.

(** The text of a UUID has no colon. *)
Lemma uuid_shape_no_colon :
  forall (shape : list bool) (s : str),
    (length s <= length shape)%nat ->
    forallb (fun ch : ascii * bool =>
               if snd ch then Ascii.eqb (fst ch) "-"
               else Scenario.is_hex (fst ch))
      (combine s shape) = true ->
    ~ In ":"%char s.
Proof.
  induction shape as [|b shape IH]; intros s Hlen Hall Hin.
  - destruct s; [destruct Hin|simpl in Hlen; lia].
  - destruct s as [|c s]; [destruct Hin|].
    cbn [combine forallb fst snd] in Hall.
    apply andb_prop in Hall. destruct Hall as [Hc Hall].
    destruct Hin as [->|Hin].
    + destruct b; vm_compute in Hc; discriminate.
    + apply (IH s); [simpl in Hlen; lia|exact Hall|exact Hin].
Qed.

Lemma chunk_id_is_no_uuid (document_id page_num counter : Z) :
  Scenario.is_uuid (chunk_id_of document_id page_num counter) = false.
Proof.
  destruct (Scenario.is_uuid (chunk_id_of document_id page_num counter))
    eqn:E; [|reflexivity].
  exfalso. unfold Scenario.is_uuid in E.
  apply andb_prop in E. destruct E as [Hlen Hall].
  apply Nat.eqb_eq in Hlen.
  apply (uuid_shape_no_colon Scenario.uuid_shape _) in Hall.
  - apply Hall. unfold chunk_id_of. apply in_or_app. right. left.
    reflexivity.
  - rewrite Hlen. apply Nat.leb_le. vm_compute. reflexivity.
Qed.

(** The store of the examples takes none of the ids [_chunk_pages]
    builds. *)
Lemma scenario_refuses_chunk_ids : PagesProps.refuses_chunk_ids Scenario.ext.
Proof.
  intros points Hne Hids.
  destruct points as [|p points]; [congruence|].
  apply Forall_inv in Hids. destruct Hids as [d [page_num [counter Hid]]].
  cbn [upsert_fault Scenario.ext Scenario.store_fault Scenario.first_refusal].
  unfold Scenario.refusal. rewrite Hid, chunk_id_is_no_uuid. cbn [negb].
  eexists. reflexivity.
Qed.

End StoreMore.

(** X25: [_ensure_collection] with the default vector service never empties a
    collection: a collection that is there is left as it is and nothing
    is called, a missing one is created empty; afterwards the collection
    of the base is there, and the other collections are as they were.  A
    vector service without [_get_client] is left alone. *)
Theorem ensure_collection_creates_only_when_missing (ext : Externals)
  (dir : str) (cb0 : option ProgressCallback) (base : str) (w : World) :
  let self := IndexerSpec.default_indexer ext dir cb0 in
  let run := Indexer._ensure_collection self base w in
  fst run = Ok tt
  /\ collections (snd run) base
     = Some match collections w base with Some c => c | None => [] end
  /\ (forall b, b <> base -> collections (snd run) b = collections w b)
  /\ calls (snd run)
     = calls w
       ++ match collections w base with
          | Some _ => []
          | None => [CCreateCollection base]
          end
  /\ (forall other : Indexer.DocumentIndexer,
        get_collection (Indexer.vectordb other) = None ->
        Indexer._ensure_collection other base w = (Ok tt, w)).
Proof.
  cbv zeta. rewrite StoreMore.ensure_collection_run. cbn [fst snd].
  split; [reflexivity|].
  destruct (collections w base) as [c|] eqn:Ec.
  - split; [exact Ec|]. split; [reflexivity|].
    split; [rewrite app_nil_r; reflexivity|].
    intros other Ho. unfold Indexer._ensure_collection. rewrite Ho.
    reflexivity.
  - cbn [collections calls set_calls set_collections].
    split; [rewrite at_base_same; reflexivity|]. split.
    + intros b Hb. unfold at_base. apply VectorMore.str_eqb_neq in Hb.
      rewrite Hb. reflexivity.
    + split; [reflexivity|].
      intros other Ho. unfold Indexer._ensure_collection. rewrite Ho.
      reflexivity.
Qed.

(** X26: with the default vector service, on a store that takes none of
    the ids [_chunk_pages] builds, no run of [index_document] stores a
    chunk.  A run that does not skip, on a file of which the parser gives
    pages with a chunk, raises, at the embedding or at the write to the
    store, after the record of the document has been committed with the
    hash of the file and the page count: so the next run on the same
    bytes skips, and the collection of the base holds what it held before
    the run, or nothing when the run has created it. *)
Theorem index_document_stores_no_chunk (ext : Externals) (dir : str)
  (cb0 cb : option ProgressCallback) (path base : str) (w : World)
  (content : list byte) (pages : list str) :
  PagesProps.refuses_chunk_ids ext ->
  fs_lookup (fs w) path = Some (File content) ->
  IndexerSpec.unchanged ext w base path content = false ->
  fst (Parser.parse ext path w) = Ok pages ->
  PagesProps.has_chunk pages ->
  let run :=
    Indexer.index_document ext (IndexerSpec.default_indexer ext dir cb0) path
      base cb w in
  (exists e, fst run = Raise e)
  /\ (exists d,
        IndexerSpec.stored (snd run) base path = Some d
        /\ Database.file_hash d = Indexer.file_hash_bytes ext content 8192
        /\ Database.total_pages d = Some (len pages))
  /\ IndexerSpec.unchanged ext (snd run) base path content = true
  /\ collections (snd run) base
     = Some match collections w base with Some c => c | None => [] end.
Proof.
  intros Href Hfs Hun Hparse Hchunk. cbv zeta.
  rewrite (IndexerFacts.index_document_run ext _ path base cb w content Hfs).
  cbv zeta.
  change (Indexer.progress_callback (IndexerSpec.default_indexer ext dir cb0))
    with cb0.
  set (callback := Indexer.or_else cb cb0).
  set (h := Indexer.file_hash_bytes ext content 8192).
  destruct (IndexerFacts.get_or_create_stale path base h
              (IndexerSpec.started callback path w))
    as [document [wa [Hg [Hp [Hh [Ht [Hf [Hc [_ [_ [_ [Hfirst _]]]]]]]]]]]].
  { rewrite IndexerFacts.stored_started. exact Hun. }
  rewrite Hg.
  assert (Hup : Indexer.up_to_date document h = false).
  { unfold Indexer.up_to_date. rewrite Ht. apply andb_false_r. }
  rewrite Hup.
  set (wq := snd (Indexer._progress_emitter callback (lit "Parsing document")
                    (Some 0.2%float) wa)).
  assert (Hq : fs wq = fs w) by exact Hf.
  pose proof (RunMore.parse_result ext path w wq Hq) as Hres.
  pose proof (IndexerFacts.parse_frame ext path wq) as Hframe.
  cbv zeta in Hframe.
  destruct (Parser.parse ext path wq) as [[pages'|e] wp];
    cbn [fst snd] in Hres, Hframe;
    [|rewrite Hparse in Hres; discriminate].
  assert (pages' = pages) by congruence. subst pages'.
  destruct Hframe as [_ [Pd [Pc _]]].
  destruct (IndexerFacts.store_phase_run base callback document pages wp)
    as [wd [Hstore [_ [Sd [Sc _]]]]].
  cbv zeta in Hstore, Sd. rewrite Hstore.
  set (document' :=
         Database.mkDocument (Database.id document)
           (Database.filename document) (Database.path document)
           (Database.base_name document) (Some (len pages))
           (Database.file_hash document) (clock wp)) in *.
  destruct (StoreMore.vector_phase_refused ext dir cb0 callback path base
              document' pages wd Href Hchunk) as [Hraise Hcoll].
  destruct (IndexerFacts.vector_phase_post ext callback dir cb0 path base
              document' pages wd) as [[_ [Vd _]] _].
  set (run := IndexerSpec.vector_phase ext
                (IndexerSpec.default_indexer ext dir cb0) path base callback
                document' pages wd) in *.
  assert (Hstored : IndexerSpec.stored (snd run) base path = Some document').
  { unfold IndexerSpec.stored. rewrite Vd, Sd.
    assert (Hbase : Database.first_by_path path
                      (Database.documents (dbs wp base)) = Some document).
    { rewrite Pd. exact Hfirst. }
    destruct (IndexerFacts.store_commits path document pages (clock wp)
                (dbs wp base) Hbase Hp) as [_ [_ [_ [_ [HD _]]]]].
    exact HD. }
  split; [exact Hraise|]. split.
  { exists document'. split; [exact Hstored|]. split; [exact Hh|reflexivity]. }
  split.
  { unfold IndexerSpec.unchanged. rewrite Hstored.
    unfold Indexer.up_to_date.
    cbn [document' Database.file_hash Database.total_pages].
    fold h. rewrite Hh, str_eqb_refl. reflexivity. }
  rewrite Hcoll, Sc, Pc. unfold wq.
  cbn [snd Indexer._progress_emitter modify collections set_progress].
  rewrite Hc. reflexivity.
Qed.

(** The first indexing of the note, on a store of UUIDs. *)
Lemma index_document_stores_no_chunk_witness :
  let run := Scenario.index_a Scenario.small_world in
  (exists e, fst run = Raise e)
  /\ (exists d,
        IndexerSpec.stored (snd run) Scenario.kb Scenario.a_txt = Some d
        /\ Database.file_hash d
           = Indexer.file_hash_bytes Scenario.ext
               (Scenario.bytes_of Scenario.short_text) 8192
        /\ Database.total_pages d = Some (len [Scenario.short_text]))
  /\ IndexerSpec.unchanged Scenario.ext (snd run) Scenario.kb Scenario.a_txt
       (Scenario.bytes_of Scenario.short_text) = true
  /\ collections (snd run) Scenario.kb
     = Some match collections Scenario.small_world Scenario.kb with
            | Some c => c
            | None => []
            end.
Proof.
  apply (index_document_stores_no_chunk Scenario.ext (lit "/data/bases")
           (Some recorder) None Scenario.a_txt Scenario.kb
           Scenario.small_world (Scenario.bytes_of Scenario.short_text)
           [Scenario.short_text]).
  - exact StoreMore.scenario_refuses_chunk_ids.
  - vm_compute. reflexivity.
  - vm_compute. reflexivity.
  - vm_compute. reflexivity.
  - apply Exists_cons_hd. vm_compute. apply Exists_cons_hd. discriminate.
Defined.

(** ** The text operations *)

Module OperationsMore.
Import Operations OperationsProps.

Lemma length_slice (text : str) (a b : Z) :
  0 <= a -> a <= b -> b <= len text -> len (slice text a b) = b - a.
Proof.
  unfold slice, len. intros Ha Hab Hb.
  rewrite length_firstn, length_skipn. lia.
Qed.

Section Loop.
Variables (text : str) (max_chars overlap : Z).
Hypothesis Hmax : 0 < max_chars.

Lemma split_loop_ends (Hov : overlap < max_chars) :
  forall fuel start chunks,
    0 <= start ->
    (Z.to_nat (len text - start) < fuel)%nat ->
    exists more,
      split_loop fuel text max_chars overlap start chunks
      = Some (chunks ++ more)
      /\ Forall (sized max_chars) more
      /\ (start < len text -> more <> []).
Proof.
  induction fuel as [|f IH]; intros start chunks Hs Hf; [lia|].
  cbn [split_loop]. cbv zeta.
  destruct (start <? len text) eqn:E.
  - apply Z.ltb_lt in E.
    assert (Hc : sized max_chars (slice text start
                          (Z.min (start + max_chars) (len text)))).
    { unfold sized. rewrite length_slice; lia. }
    destruct (Z.min (start + max_chars) (len text) =? len text) eqn:E2.
    + exists [slice text start (Z.min (start + max_chars) (len text))].
      split; [reflexivity|]. split; [repeat constructor; apply Hc|].
      intros _. discriminate.
    + apply Z.eqb_neq in E2.
      destruct (IH (Z.max 0 (Z.min (start + max_chars) (len text) - overlap))
                  (chunks
                   ++ [slice text start
                         (Z.min (start + max_chars) (len text))]))
        as [more [H1 [H2 _]]]; [lia|lia|].
      exists (slice text start (Z.min (start + max_chars) (len text))
              :: more).
      split; [rewrite H1, <- app_assoc; reflexivity|].
      split; [constructor; assumption|]. intros _. discriminate.
  - exists []. rewrite app_nil_r. split; [reflexivity|].
    split; [constructor|]. apply Z.ltb_ge in E. lia.
Qed.

Lemma split_loop_stuck (Hov : max_chars <= overlap)
  (Hlen : max_chars < len text) :
  forall fuel chunks,
    split_loop fuel text max_chars overlap 0 chunks = None.
Proof.
  induction fuel as [|f IH]; intros chunks; [reflexivity|].
  cbn [split_loop]. cbv zeta.
  replace (0 <? len text) with true by (symmetry; apply Z.ltb_lt; lia).
  replace (Z.min (0 + max_chars) (len text)) with max_chars by lia.
  replace (max_chars =? len text) with false
    by (symmetry; apply Z.eqb_neq; lia).
  replace (Z.max 0 (max_chars - overlap)) with 0 by lia.
  apply IH.
Qed.

Lemma unsplit_snoc (c : str) (chunks : list str) :
  chunks <> [] ->
  unsplit overlap (chunks ++ [c])
  = unsplit overlap chunks ++ skipn (Z.to_nat overlap) c.
Proof.
  destruct chunks as [|c0 cs]; [congruence|]. intros _.
  cbn [app unsplit]. rewrite map_app, concat_app. simpl.
  rewrite app_nil_r, app_assoc. reflexivity.
Qed.

Lemma split_loop_joined (Hov0 : 0 <= overlap) (Hov : overlap < max_chars) :
  forall fuel start chunks e result,
    joined text overlap start chunks e ->
    split_loop fuel text max_chars overlap start chunks = Some result ->
    unsplit overlap result = text.
Proof.
  induction fuel as [|f IH]; intros start chunks e result [Hu Hs] H;
    [discriminate|].
  cbn [split_loop] in H. cbv zeta in H.
  destruct (start <? len text) eqn:E.
  - apply Z.ltb_lt in E.
    set (end_ := Z.min (start + max_chars) (len text)) in *.
    assert (Hnew : unsplit overlap (chunks ++ [slice text start end_])
                   = firstn (Z.to_nat end_) text).
    { destruct Hs as [[Hc [He Hst]]|[Hc [Hst [Hoe Hel]]]].
      - subst chunks start. cbn [app unsplit concat map].
        rewrite app_nil_r. unfold slice. simpl skipn.
        rewrite Z.sub_0_r. reflexivity.
      - rewrite unsplit_snoc by exact Hc. rewrite Hu. unfold slice.
        rewrite skipn_firstn_comm, skipn_skipn.
        replace (Z.to_nat overlap + Z.to_nat start)%nat with (Z.to_nat e)
          by lia.
        rewrite <- ParserMore.firstn_plus. f_equal. unfold end_. lia. }
    destruct (end_ =? len text) eqn:E2.
    + apply Z.eqb_eq in E2. inversion H; subst result.
      rewrite Hnew, E2. unfold len. rewrite Nat2Z.id. apply firstn_all.
    + apply Z.eqb_neq in E2.
      refine (IH _ _ end_ result _ H).
      split; [exact Hnew|]. right.
      split; [destruct chunks; discriminate|].
      unfold end_ in *.
      destruct Hs as [[_ [_ Hst]]|[_ [Hst [Hoe Hel]]]]; lia.
  - apply Z.ltb_ge in E. inversion H; subst result.
    destruct Hs as [[Hc [He Hst]]|[_ [Hst [_ Hel]]]]; [|lia].
    subst chunks start. unfold len in E.
    destruct text; [reflexivity|simpl in E; lia].
Qed.

End Loop.

Lemma words_ok (s : str) :
  forall word,
    Forall (fun c => is_space c = false) word ->
    Forall word_ok (words word s).
Proof.
  induction s as [|c r IH]; intros word Hw; cbn [words].
  - destruct word as [|c0 word']; [constructor|].
    cbn [is_empty]. constructor; [|constructor].
    split; [discriminate|exact Hw].
  - destruct (is_space c) eqn:E.
    + destruct word as [|c0 word']; cbn [is_empty].
      * apply IH. constructor.
      * constructor; [split; [discriminate|exact Hw]|].
        apply IH. constructor.
    + apply IH. apply Forall_app. split; [exact Hw|].
      constructor; [exact E|constructor].
Qed.

Lemma words_run (w rest : str) :
  Forall (fun c => is_space c = false) w ->
  forall word, words word (w ++ rest) = words (word ++ w) rest.
Proof.
  induction 1 as [|c w Hc _ IH]; intros word; [rewrite app_nil_r; reflexivity|].
  cbn [app words]. rewrite Hc, IH, <- app_assoc. reflexivity.
Qed.

Lemma split_join (ws : list str) :
  Forall word_ok ws -> split (join (lit " ") ws) = ws.
Proof.
  unfold split. induction 1 as [|w ws [Hne Hw] Hws IH]; [reflexivity|].
  destruct ws as [|w2 ws].
  - cbn [join]. rewrite <- (app_nil_r w) at 1.
    rewrite words_run by exact Hw. cbn [app words].
    destruct w; [congruence|reflexivity].
  - change (join (lit " ") (w :: w2 :: ws))
      with (w ++ " "%char :: join (lit " ") (w2 :: ws)).
    rewrite words_run by exact Hw. cbn [app words].
    change (is_space " ") with true. cbv iota.
    destruct w as [|c w']; [congruence|]. cbn [is_empty].
    rewrite IH. reflexivity.
Qed.

Lemma join_first (ws : list str) :
  Forall word_ok ws -> ws <> [] ->
  exists c l, join (lit " ") ws = c :: l /\ is_space c = false.
Proof.
  intros H Hne. destruct ws as [|w ws]; [congruence|].
  destruct (Forall_inv H) as [Hw Hc].
  destruct w as [|c w']; [congruence|].
  exists c. destruct ws; cbn [join]; eexists;
    (split; [reflexivity|exact (Forall_inv Hc)]).
Qed.

Lemma join_last (ws : list str) :
  Forall word_ok ws -> ws <> [] ->
  exists l c, join (lit " ") ws = l ++ [c] /\ is_space c = false.
Proof.
  induction 1 as [|w ws [Hne Hw] Hws IH]; intros Hn; [congruence|].
  destruct ws as [|w2 ws].
  - cbn [join]. destruct (exists_last Hne) as [l [c E]]. subst w.
    exists l, c. split; [reflexivity|].
    apply Forall_app in Hw. destruct Hw as [_ Hc]. exact (Forall_inv Hc).
  - destruct IH as [l [c [E Hc]]]; [discriminate|].
    change (join (lit " ") (w :: w2 :: ws))
      with (w ++ lit " " ++ join (lit " ") (w2 :: ws)).
    rewrite E. exists (w ++ lit " " ++ l), c.
    split; [rewrite <- !app_assoc; reflexivity|exact Hc].
Qed.

Lemma strip_join (ws : list str) :
  Forall word_ok ws -> strip (join (lit " ") ws) = join (lit " ") ws.
Proof.
  intros H. destruct ws as [|w ws]; [reflexivity|].
  destruct (join_first (w :: ws) H) as [c [l [E Hc]]]; [discriminate|].
  destruct (join_last (w :: ws) H) as [l' [c' [E' Hc']]]; [discriminate|].
  unfold strip. rewrite E. cbn [dropwhile]. rewrite Hc.
  rewrite <- E, E', rev_app_distr. cbn [rev app dropwhile]. rewrite Hc'.
  change (c' :: rev l') with (rev [c'] ++ rev l').
  rewrite <- rev_app_distr, rev_involutive. reflexivity.
Qed.

End OperationsMore.

(** X27: [split_by_chars] with a positive [max_chars] and an overlap below it
    ends, within [len(text)] turns of its loop and one more: no chunk is
    empty or longer than [max_chars], and there is a chunk unless the text
    is empty. *)
Theorem split_by_chars_ends (text : str) (max_chars overlap : Z) :
  0 < max_chars -> overlap < max_chars ->
  exists chunks,
    Operations.split_by_chars (S (length text)) text max_chars overlap
    = Some chunks
    /\ Forall (fun c => 0 < len c <= max_chars) chunks
    /\ (text <> [] -> chunks <> []).
Proof.
  intros Hmax Hov. unfold Operations.split_by_chars.
  replace (max_chars <=? 0) with false by (symmetry; apply Z.leb_gt; lia).
  destruct (OperationsMore.split_loop_ends text max_chars overlap Hmax Hov
              (S (length text)) 0 [])
    as [more [H1 [H2 H3]]]; [lia|unfold len; lia|].
  exists more. split; [exact H1|]. split; [exact H2|].
  intros Ht. apply H3. unfold len. destruct text; [congruence|simpl; lia].
Qed.

Lemma split_by_chars_ends_witness :
  exists chunks,
    Operations.split_by_chars 11 (lit "abcdefghij") 4 1 = Some chunks
    /\ Forall (fun c => 0 < len c <= 4) chunks
    /\ (lit "abcdefghij" <> [] -> chunks <> []).
Proof.
  apply (split_by_chars_ends (lit "abcdefghij") 4 1); lia.
Defined.

(** X28: the chunks of [split_by_chars] give the text back: with an overlap
    from 0 to below [max_chars], the first chunk followed by the other
    chunks without their first [overlap] characters is the text; so is the
    only chunk when [max_chars] is not positive. *)
Theorem split_by_chars_gives_text_back (fuel : nat) (text : str)
  (max_chars overlap : Z) (chunks : list str) :
  0 <= overlap -> max_chars <= 0 \/ overlap < max_chars ->
  Operations.split_by_chars fuel text max_chars overlap = Some chunks ->
  OperationsProps.unsplit overlap chunks = text.
Proof.
  intros Hov0 Hov. unfold Operations.split_by_chars.
  destruct (max_chars <=? 0) eqn:E.
  - intros H. inversion H. simpl. apply app_nil_r.
  - apply Z.leb_gt in E. destruct Hov as [Hov|Hov]; [lia|].
    apply (OperationsMore.split_loop_joined text max_chars overlap E Hov0 Hov
             fuel 0 [] 0 chunks).
    split; [reflexivity|]. left. repeat split.
Qed.

Lemma split_by_chars_gives_text_back_witness :
  OperationsProps.unsplit 1 [lit "abcd"; lit "defg"; lit "ghij"]
  = lit "abcdefghij".
Proof.
  apply (split_by_chars_gives_text_back 11 (lit "abcdefghij") 4 1
           [lit "abcd"; lit "defg"; lit "ghij"]).
  - lia.
  - right. lia.
  - vm_compute. reflexivity.
Defined.

(** X29: [split_by_chars] with an overlap that is not below a positive
    [max_chars] never returns on a text longer than [max_chars]: the
    start of the next chunk stays at 0, and the loop runs out of any
    fuel. *)
Theorem split_by_chars_loops_on_large_overlap (text : str)
  (max_chars overlap : Z) (fuel : nat) :
  0 < max_chars -> max_chars <= overlap -> max_chars < len text ->
  Operations.split_by_chars fuel text max_chars overlap = None.
Proof.
  intros Hmax Hov Hlen. unfold Operations.split_by_chars.
  replace (max_chars <=? 0) with false by (symmetry; apply Z.leb_gt; lia).
  apply OperationsMore.split_loop_stuck; assumption.
Qed.

Lemma split_by_chars_loops_on_large_overlap_witness :
  Operations.split_by_chars 1000 (lit "abcdefghij") 4 4 = None.
Proof.
  apply (split_by_chars_loops_on_large_overlap (lit "abcdefghij") 4 4 1000).
  - lia.
  - lia.
  - vm_compute. reflexivity.
Defined.

(** X30: [normalize_whitespace] makes of every line its words joined by single
    spaces, and normalizing twice is normalizing once. *)
Theorem normalize_whitespace_is_idempotent (lines : list str) :
  Forall
    (fun line =>
       exists ws,
         line = join (lit " ") ws /\ Forall OperationsProps.word_ok ws)
    (Operations.normalize_whitespace lines)
  /\ Operations.normalize_whitespace (Operations.normalize_whitespace lines)
     = Operations.normalize_whitespace lines.
Proof.
  unfold Operations.normalize_whitespace. split.
  - apply Forall_forall. intros line Hin. apply in_map_iff in Hin.
    destruct Hin as [l [<- _]].
    exists (Operations.split (strip l)). split; [reflexivity|].
    apply OperationsMore.words_ok. constructor.
  - rewrite map_map. apply map_ext. intros l.
    assert (H : Forall OperationsProps.word_ok (Operations.split (strip l)))
      by (apply OperationsMore.words_ok; constructor).
    rewrite OperationsMore.strip_join, OperationsMore.split_join by exact H.
    reflexivity.
Qed.
